(** * ScribeDash: ingestion, normalisation and aggregation pipeline

    A shallow embedding of the data pipeline of ScribeDash:

    - [scribedash/google.py]: the retry wrapper [_with_retries], the remote
      read [fetch_values] and the raw-to-table normalizer
      [values_to_dataframe];
    - [scribedash/ingest.py]: the safe parsers and [load_patient_count];
    - [src/utils/google_sheets.py]: the caching connector
      ([get_sheet_data], [_clean_dataframe]);
    - [src/utils/data_processor.py]: the provider aggregator's consistency
      score and the summary accessors.

    Python exceptions are an explicit result type, the remote service, the
    clock, the random generator and the object store are explicit state. *)

From Stdlib Require Import ZArith QArith Qminmax String Ascii List Lia.
From Stdlib Require Import Qround Qpower Lqa SpecFloat.
From stdpp Require Import base option list sorting gmap strings.

Set Default Proof Using "Type".

(** ** Exceptions and results *)

(** Instances of Python's [Exception] that the pipeline can meet.  The
    interpreter-exit signals that derive from [BaseException] only are not
    part of the model: no [except Exception] clause of the program sees
    them. *)
Inductive exn : Type :=
| HttpError (status : Z)
| TransportError (msg : string)
| WorksheetNotFound (title : string)
| APIError (status : Z)
| KeyError (key : string)
| ValueError (msg : string)
| TypeError (msg : string)
| RuntimeError (msg : string)
| OverflowError (msg : string).

(** An unknown spreadsheet or tab: HTTP 404 from the Sheets API, or gspread's
    [WorksheetNotFound]. *)
Definition is_not_found (e : exn) : bool :=
  match e with
  | HttpError status => (status =? 404)%Z
  | WorksheetNotFound _ => true
  | _ => false
  end.

(** The outcome of a call: a returned value or a raised exception. *)
Inductive res (A : Type) : Type :=
| Ok (a : A)
| Raise (e : exn).
Arguments Ok {A} a.
Arguments Raise {A} e.

Definition is_ok {A} (r : res A) : bool :=
  match r with Ok _ => true | Raise _ => false end.

(** ** Floating-point values as pandas sees them

    A numeric cell is a finite number, an infinity or NaN.  The finite
    numbers of a cell are exact rationals kept in lowest terms, and the
    operations below are the exact ones on them, with the special values
    and the division by zero of IEEE 754; they serve where pandas itself
    aggregates.  Where the program computes on floats in its own code, the
    arithmetic is that of [F64] below. *)
Inductive fval : Type :=
| FNum (q : Q)
| FInf (negative : bool)
| FNaN.

Definition fnum (q : Q) : fval := FNum (Qred q).

Definition is_nan (x : fval) : bool :=
  match x with FNaN => true | _ => false end.

Definition Qsign_neg (q : Q) : bool := (Qnum q <? 0)%Z.
Definition Qis_zero (q : Q) : bool := (Qnum q =? 0)%Z.

Definition fneg (x : fval) : fval :=
  match x with
  | FNum q => fnum (- q)
  | FInf s => FInf (negb s)
  | FNaN => FNaN
  end.

Definition fadd (x y : fval) : fval :=
  match x, y with
  | FNaN, _ | _, FNaN => FNaN
  | FNum a, FNum b => fnum (a + b)
  | FInf s, FNum _ | FNum _, FInf s => FInf s
  | FInf s, FInf t => if Bool.eqb s t then FInf s else FNaN
  end.

Definition fsub (x y : fval) : fval := fadd x (fneg y).

Definition fmul (x y : fval) : fval :=
  match x, y with
  | FNaN, _ | _, FNaN => FNaN
  | FNum a, FNum b => fnum (a * b)
  | FInf s, FNum q | FNum q, FInf s =>
      if Qis_zero q then FNaN else FInf (xorb s (Qsign_neg q))
  | FInf s, FInf t => FInf (xorb s t)
  end.

(** Series division: a finite value over zero is an infinity, zero over zero
    is NaN; nothing raises. *)
Definition fdiv (x y : fval) : fval :=
  match x, y with
  | FNaN, _ | _, FNaN => FNaN
  | FNum a, FNum b =>
      if Qis_zero b then
        (if Qis_zero a then FNaN else FInf (Qsign_neg a))
      else fnum (a / b)
  | FNum _, FInf _ => fnum 0
  | FInf s, FNum q => FInf (xorb s (Qsign_neg q))
  | FInf _, FInf _ => FNaN
  end.

(** Rounding to the nearest integer, ties to the even one. *)
Definition round_half_even (q : Q) : Z :=
  let f := Qfloor q in
  match Qcompare (q - inject_Z f) (1 # 2) with
  | Lt => f
  | Gt => (f + 1)%Z
  | Eq => if Z.even f then f else (f + 1)%Z
  end.

(** ** Binary64 arithmetic

    Where the program computes on floats itself, the floats are the
    binary64 numbers of the Standard Library ([SpecFloat], precision 53,
    largest exponent 1024): every operation is the exact one rounded to
    the nearest float, ties to even, with signed zeros, infinities and
    NaN. *)
Module F64.

Definition t : Type := spec_float.

Definition prec : Z := 53.
Definition emax : Z := 1024.

Definition add (x y : t) : t := SFadd prec emax x y.
Definition sub (x y : t) : t := SFsub prec emax x y.
Definition mul (x y : t) : t := SFmul prec emax x y.
Definition div (x y : t) : t := SFdiv prec emax x y.

Definition is_nan (x : t) : bool :=
  match x with S754_nan => true | _ => false end.

(** [float(z)] of an integer. *)
Definition of_Z (z : Z) : t := binary_normalize prec emax z 0 false.

(** The float nearest to a rational: the division of its numerator by its
    denominator, rounded once. *)
Definition of_Q (q : Q) : t :=
  match Qnum q with
  | Z0 => S754_zero false
  | Zpos n => div (S754_finite false n 0) (S754_finite false (Qden q) 0)
  | Zneg n => div (S754_finite true n 0) (S754_finite false (Qden q) 0)
  end.

Definition of_fval (x : fval) : t :=
  match x with
  | FNum q => of_Q q
  | FInf s => S754_infinity s
  | FNaN => S754_nan
  end.

(** The number a float stands for; the sign of a zero is not part of it. *)
Definition to_fval (x : t) : fval :=
  match x with
  | S754_zero _ => FNum 0
  | S754_infinity s => FInf s
  | S754_nan => FNaN
  | S754_finite s m e =>
      fnum (inject_Z (if s then Zneg m else Zpos m) * 2 ^ e)
  end.

Definition hundred : t := of_Z 100.

(** [numpy.rint]: the nearest integer, ties to even; a result of zero keeps
    the sign of the argument. *)
Definition rint (x : t) : t :=
  match x with
  | S754_finite s m e =>
      if (0 <=? e)%Z then x
      else
        match round_half_even (Zpos m # Z.to_pos (2 ^ (- e))) with
        | Z0 => S754_zero s
        | n => binary_normalize prec emax (if s then (- n)%Z else n) 0 s
        end
  | _ => x
  end.

(** [numpy.round(x, 2)]: [rint(x * 100.0) / 100.0]. *)
Definition round2 (x : t) : t := div (rint (mul x hundred)) hundred.

(** [fillna(v)] on one value. *)
Definition fillna (v x : t) : t := if is_nan x then v else x.

End F64.

(** ** Tables

    A pandas [DataFrame], as far as the pipeline looks at it: the column
    labels in order and the rows in order (the row index is not modelled).
    A cell is a string, a number, or [None]. *)
Inductive cell : Type :=
| CStr (s : string)
| CNum (x : fval)
| CNone.

(** [isna]: [None] and NaN are both missing. *)
Definition isna (c : cell) : bool :=
  match c with
  | CNone => true
  | CNum FNaN => true
  | _ => false
  end.

Inductive label : Type :=
| LStr (s : string)
| LInt (i : Z).

Record DataFrame : Type := Frame {
  columns : list label;
  rows : list (list cell)
}.

(** [pd.DataFrame()] *)
Definition empty_frame : DataFrame := Frame [] [].

(** [df.empty]: some axis has length 0. *)
Definition df_empty (df : DataFrame) : bool :=
  match columns df, rows df with
  | [], _ | _, [] => true
  | _, _ => false
  end.

Definition max_len {A} (rs : list (list A)) : nat :=
  foldr Nat.max 0%nat (map (@length A) rs).

Definition pad_right {A} (filler : A) (n : nat) (r : list A) : list A :=
  r ++ repeat filler (n - length r).

(** [pd.DataFrame(data)] and [pd.DataFrame(data, columns=cols)] for a list of
    lists: the width is that of the longest row, shorter rows are filled
    with [None]; without labels the columns are numbered from 0; with labels
    their number must be the width, unless there is no row at all. *)
Definition pd_DataFrame (data : list (list cell)) (cols : option (list label))
  : res DataFrame :=
  let width := max_len data in
  let filled := map (pad_right CNone width) data in
  match cols with
  | None => Ok (Frame (map (fun i => LInt (Z.of_nat i)) (seq 0 width)) filled)
  | Some labels =>
      match data with
      | [] => Ok (Frame labels [])
      | _ =>
          if (length labels =? width)%nat then Ok (Frame labels filled)
          else Raise (ValueError "columns passed do not match the data")
      end
  end.

(** Every row has one cell per column. *)
Definition rectangular (df : DataFrame) : Prop :=
  Forall (fun r => length r = length (columns df)) (rows df).

(** The values of the column at position [j]. *)
Definition column_at (j : nat) (df : DataFrame) : list cell :=
  map (fun r => default CNone (r !! j)) (rows df).

(** The positions of the columns labelled [l]. *)
Global Instance label_eq_dec : EqDecision label.
Proof. solve_decision. Defined.

Fixpoint positions_from (l : label) (ls : list label) (j : nat) : list nat :=
  match ls with
  | [] => []
  | l' :: ls' =>
      if decide (l' = l) then j :: positions_from l ls' (S j)
      else positions_from l ls' (S j)
  end.

Definition positions (l : label) (df : DataFrame) : list nat :=
  positions_from l (columns df) 0.

(** Overwrite the column at position [j]. *)
Definition set_column_at (j : nat) (vals : list cell) (df : DataFrame)
  : DataFrame :=
  Frame (columns df)
    (zip_with (fun r v => <[j := v]> r) (rows df) vals).

(** ** Python string helpers

    A Python [str] is a sequence of code points.  The development covers
    the code points below 256 (Latin-1), one [ascii] each; text with other
    code points is outside it.  On that range the functions below are the
    Python ones: the white space of [str.strip] is 9-13, 28-32, 133 and 160;
    [str.lower] moves A-Z and the capital letters 192-214 and 216-222;
    [int] skips the white space 9-13, 32, 133 and 160 and knows no digit
    but 0-9. *)

Definition is_space (c : ascii) : bool :=
  let n := nat_of_ascii c in
  ((9 <=? n) && (n <=? 13) || (28 <=? n) && (n <=? 32)
   || (n =? 133) || (n =? 160))%nat.

Fixpoint lstrip_chars (cs : list ascii) : list ascii :=
  match cs with
  | c :: cs' => if is_space c then lstrip_chars cs' else cs
  | [] => []
  end.

(** [s.strip()] *)
Definition strip (s : string) : string :=
  string_of_list_ascii
    (rev (lstrip_chars (rev (lstrip_chars (list_ascii_of_string s))))).

Definition lower_char (c : ascii) : ascii :=
  let n := nat_of_ascii c in
  if ((65 <=? n) && (n <=? 90) || (192 <=? n) && (n <=? 214)
      || (216 <=? n) && (n <=? 222))%nat
  then ascii_of_nat (n + 32) else c.

(** [s.lower()] *)
Definition lower (s : string) : string :=
  string_of_list_ascii (map lower_char (list_ascii_of_string s)).

(** [s.replace(" ", "_")] *)
Definition spaces_to_underscores (s : string) : string :=
  string_of_list_ascii
    (map (fun c => if Ascii.eqb c " " then "_"%char else c)
       (list_ascii_of_string s)).

Definition digit_val (c : ascii) : option Z :=
  let n := nat_of_ascii c in
  if ((48 <=? n) && (n <=? 57))%nat then Some (Z.of_nat (n - 48)) else None.

(** Decimal digits, single underscores allowed between two digits. *)
Fixpoint parse_digits (cs : list ascii) (acc : Z) (after_digit : bool)
  : option Z :=
  match cs with
  | [] => if after_digit then Some acc else None
  | c :: cs' =>
      match digit_val c with
      | Some d => parse_digits cs' (10 * acc + d)%Z true
      | None =>
          if Ascii.eqb c "_" && after_digit then parse_digits cs' acc false
          else None
      end
  end.

(** The white space [int] skips at both ends of its argument. *)
Definition is_int_space (c : ascii) : bool :=
  let n := nat_of_ascii c in
  ((9 <=? n) && (n <=? 13) || (n =? 32) || (n =? 133) || (n =? 160))%nat.

Fixpoint skip_int_space (cs : list ascii) : list ascii :=
  match cs with
  | c :: cs' => if is_int_space c then skip_int_space cs' else cs
  | [] => []
  end.

Definition count_digits (cs : list ascii) : nat :=
  length (filter (fun c => is_Some (digit_val c)) cs).

(** [sys.get_int_max_str_digits()], as the interpreter sets it. *)
Definition int_max_str_digits : nat := 4300.

(** [int(s)] for a string: surrounding white space, an optional sign,
    decimal digits, no more than [int_max_str_digits] of them.  [None]
    stands for the [ValueError]. *)
Definition py_int_of_string (s : string) : option Z :=
  let trimmed :=
    rev (skip_int_space (rev (skip_int_space (list_ascii_of_string s)))) in
  let '(negative, body) :=
    match trimmed with
    | c :: cs =>
        if Ascii.eqb c "-" then (true, cs)
        else if Ascii.eqb c "+" then (false, cs)
        else (false, trimmed)
    | [] => (false, [])
    end in
  if (int_max_str_digits <? count_digits body)%nat then None
  else
    z ← parse_digits body 0 false;
    Some (if negative then (- z)%Z else z).

(** [str(i)] for an integer label. *)
Fixpoint digits_of_pos (fuel : nat) (n : N) (acc : list ascii) : list ascii :=
  match fuel with
  | O => acc
  | S fuel' =>
      let d := ascii_of_N (48 + N.modulo n 10) in
      if (n <? 10)%N then d :: acc
      else digits_of_pos fuel' (N.div n 10) (d :: acc)
  end.

Definition py_str_of_Z (z : Z) : string :=
  let body :=
    string_of_list_ascii
      (digits_of_pos (S (N.to_nat (N.log2 (Z.abs_N z)))) (Z.abs_N z) []) in
  if (z <? 0)%Z then String "-" body else body.

Definition str_of_label (l : label) : string :=
  match l with
  | LStr s => s
  | LInt i => py_str_of_Z i
  end.

(** ** scribedash/google.py *)

Module Google.

(** What the wrapper does besides calling the operation. *)
Inductive event : Type :=
| EvInvoke
| EvWarn (attempt attempts : Z) (e : exn)
| EvSleep (delay : Q).

Definition is_invoke (ev : event) : bool :=
  match ev with EvInvoke => true | _ => false end.

Definition is_sleep (ev : event) : bool :=
  match ev with EvSleep _ => true | _ => false end.

Definition invocations (tr : list event) : nat :=
  length (filter (fun ev => is_invoke ev = true) tr).

Definition sleeps (tr : list event) : nat :=
  length (filter (fun ev => is_sleep ev = true) tr).

Section Retry.

(** [St] is the state of whatever the operation talks to (the remote
    service, a counter in a test double); [A] is what it returns. *)
Context {St A : Type}.

(** The world of one wrapper call: the operation's environment, the random
    generator ([random_source k] is the value of the [k]-th call of
    [random.random()]), and the trace of what happened. *)
Record world : Type := World {
  remote : St;
  random_source : nat -> Q;
  draws : nat;
  trace : list event
}.

(** A zero-argument operation: it reads and changes its environment and
    returns or raises. *)
Definition operation : Type := St -> res A * St.

(** [delay = min(max_delay, base_delay * (2 ** i)) * (0.7 + 0.6 * random.random())] *)
Definition backoff_delay (max_delay base_delay : Q) (i : Z) (r : Q) : Q :=
  (Qmin max_delay (base_delay * 2 ^ i) * ((7 # 10) + (6 # 10) * r))%Q.

(** [base_delay * (2 ** i)] multiplies a float by an integer: from
    [i = 1024] on the integer is beyond the floats and the product raises
    [OverflowError]. *)
Definition power_overflows (i : Z) : bool := (1024 <=? i)%Z.

(** The longest sleep the clock type holds: [2 ** 63] nanoseconds.  Close
    below it the platform may refuse a sleep as well, by the state of its
    own clock; the properties of this development keep a long way off. *)
Definition sleep_limit : Q := 9223372036854775808 # 1000000000.

(** A billion seconds. *)
Definition long_sleep : Q := 1000000000.

(** [time.sleep(delay)] raises [ValueError] on a negative length and
    [OverflowError] on one beyond [sleep_limit]; otherwise it sleeps. *)
Definition sleep_error (delay : Q) : option exn :=
  if Qsign_neg delay then
    Some (ValueError "sleep length must be non-negative")
  else if Qle_bool delay sleep_limit then None
  else Some (OverflowError "timestamp too large to convert to C _PyTime_t").

(** The body of [for i in range(attempts)], with [n] iterations left.  An
    exception raised inside the [except] block, by the product or by the
    sleep, leaves the wrapper at once. *)
Fixpoint retry_loop (fn : operation) (attempts : Z) (base_delay max_delay : Q)
    (n : nat) (i : Z) (last_err : option exn) (w : world) : res A * world :=
  match n with
  | O =>
      match last_err with
      | Some e => (Raise e, w)
      | None =>
          (Raise (RuntimeError
             "Unknown error in _with_retries without captured exception"), w)
      end
  | S n' =>
      match fn (remote w) with
      | (Ok v, s') =>
          (Ok v, World s' (random_source w) (draws w) (trace w ++ [EvInvoke]))
      | (Raise e, s') =>
          if power_overflows i then
            (Raise (OverflowError "int too large to convert to float"),
             World s' (random_source w) (draws w) (trace w ++ [EvInvoke]))
          else
            let delay :=
              backoff_delay max_delay base_delay i
                (random_source w (draws w)) in
            match sleep_error delay with
            | Some err =>
                (Raise err,
                 World s' (random_source w) (S (draws w))
                   (trace w ++ [EvInvoke; EvWarn (i + 1) attempts e]))
            | None =>
                retry_loop fn attempts base_delay max_delay n' (i + 1)%Z
                  (Some e)
                  (World s' (random_source w) (S (draws w))
                     (trace w ++
                        [EvInvoke; EvWarn (i + 1) attempts e; EvSleep delay]))
            end
      end
  end.

(** The setting in which the [except] block cannot raise: delays that are
    not negative, no sleep longer than [long_sleep], and a random generator
    that stays in [0, 1], as [random.random()] does. *)
Definition quiet_backoff (base_delay max_delay : Q) (w : world) : Prop :=
  (0 <= base_delay)%Q ∧ (0 <= max_delay)%Q
  ∧ ((13 # 10) * max_delay <= long_sleep)%Q
  ∧ ∀ k, (0 <= random_source w k)%Q ∧ (random_source w k <= 1)%Q.

Definition _with_retries (fn : operation) (attempts : Z)
    (base_delay max_delay : Q) (w : world) : res A * world :=
  retry_loop fn attempts base_delay max_delay (Z.to_nat attempts) 0%Z None w.

(** The environment after [k] consecutive invocations of [fn] from [s], and
    the outcome of the next one (invocations are counted from 0). *)
Fixpoint env_after (fn : operation) (k : nat) (s : St) : St :=
  match k with
  | O => s
  | S k' => env_after fn k' (snd (fn s))
  end.

Definition outcome_at (fn : operation) (k : nat) (s : St) : res A * St :=
  fn (env_after fn k s).

End Retry.

Arguments world : clear implicits.
Arguments operation : clear implicits.

(** The body of a [spreadsheets().values().get(...)] response: the key
    ["values"] is absent when the range holds no data. *)
Record values_response : Type := Response {
  resp_values : option (list (list string))
}.

(** The Sheets client: [execute()] of a values request talks to the remote
    and returns a response or raises. *)
Record sheets_service (St : Type) : Type := Service {
  values_get : string -> string -> operation St values_response
}.
Arguments values_get {St} _ _ _.

(** Defaults of [_with_retries]. *)
Definition default_attempts : Z := 5.
Definition default_base_delay : Q := 5 # 10.
Definition default_max_delay : Q := 5.

Definition fetch_values {St} (service : sheets_service St)
    (spreadsheet_id sheet_title : string) (w : world St)
  : res (list (list string)) * world St :=
  let _call := values_get service spreadsheet_id sheet_title in
  match _with_retries _call default_attempts default_base_delay
          default_max_delay w with
  | (Ok result, w') => (Ok (default [] (resp_values result)), w')
  | (Raise e, w') => (Raise e, w')
  end.

(** [any(h != "" for h in headers) and len(set(headers)) == len(headers)] *)
Definition has_headers (headers : list string) : bool :=
  existsb (fun h => negb (String.eqb h "")) headers
  && (size (list_to_set headers : gset string) =? length headers)%nat.

Definition values_to_dataframe (values : list (list string)) : res DataFrame :=
  match values with
  | [] => Ok empty_frame
  | _ =>
      let max_len := max_len values in
      let rows := map (pad_right ""%string max_len) values in
      let headers := hd [] rows in
      if has_headers headers then
        pd_DataFrame (map (map CStr) (tl rows)) (Some (map LStr headers))
      else
        pd_DataFrame (map (map CStr) rows) None
  end.

End Google.

(** ** scribedash/ingest.py *)

Module Ingest.

Record SheetResult : Type := MkSheetResult {
  name : string;
  df : DataFrame
}.

(** [int(x)] inside [try]; any exception gives [None]. *)
Definition _parse_int_safe (x : cell) : cell :=
  match x with
  | CStr s =>
      match py_int_of_string s with
      | Some z => CNum (fnum (inject_Z z))
      | None => CNone
      end
  | CNum (FNum q) => CNum (fnum (inject_Z (Z.quot (Qnum q) (Zpos (Qden q)))))
  | CNum _ => CNone
  | CNone => CNone
  end.

(** [str(c).strip().lower().replace(" ", "_")] *)
Definition normalize_label (c : label) : label :=
  LStr (spaces_to_underscores (lower (strip (str_of_label c)))).

Definition normalize_columns (d : DataFrame) : DataFrame :=
  Frame (map normalize_label (columns d)) (rows d).

Definition is_none (c : cell) : bool :=
  match c with CNone => true | _ => false end.

(** The column pandas makes of Python integers and [None]: integers alone
    stay integers and [None] alone stays [None]; a mix is a float column, in
    which [None] has become NaN. *)
Definition int_or_none_column (xs : list cell) : list cell :=
  if forallb is_none xs then xs
  else map (fun x => if is_none x then CNum FNaN else x) xs.

(** An integer a float holds exactly, or [None]. *)
Definition exact_int_or_none (c : cell) : Prop :=
  c = CNone
  ∨ ∃ z : Z, (Z.abs z ≤ 2 ^ 53)%Z ∧ c = CNum (fnum (inject_Z z)).

Section Loader.

(** What [Series.apply] makes of the values the function returned: the type
    inference of pandas, taken as given. *)
Variable series_of_objects : list cell -> list cell.

(** [df[col] = df[col].apply(f)] when the label names several columns:
    what pandas does then is taken as given. *)
Variable apply_repeated_label : string -> DataFrame -> res DataFrame.

(** [if col in df.columns: df[col] = df[col].apply(f)] *)
Definition apply_to_column (f : cell -> cell) (col : string) (d : DataFrame)
  : res DataFrame :=
  match positions (LStr col) d with
  | [] => Ok d
  | [j] => Ok (set_column_at j (series_of_objects (map f (column_at j d))) d)
  | _ => apply_repeated_label col d
  end.

Fixpoint apply_to_columns (f : cell -> cell) (cols : list string)
    (d : DataFrame) : res DataFrame :=
  match cols with
  | [] => Ok d
  | col :: cols' =>
      match apply_to_column f col d with
      | Ok d' => apply_to_columns f cols' d'
      | Raise e => Raise e
      end
  end.

Definition month_columns : list string :=
  ["jan"; "feb"; "mar"; "apr"; "may"; "jun"; "july"; "august"; "avg"]%string.

Definition load_patient_count {St} (service : Google.sheets_service St)
    (spreadsheet_id : string) (w : Google.world St)
  : res SheetResult * Google.world St :=
  match Google.fetch_values service spreadsheet_id "Patient Count" w with
  | (Raise e, w') => (Raise e, w')
  | (Ok values, w') =>
      match Google.values_to_dataframe values with
      | Raise e => (Raise e, w')
      | Ok d =>
          match apply_to_columns _parse_int_safe month_columns
                  (normalize_columns d) with
          | Raise e => (Raise e, w')
          | Ok d' => (Ok (MkSheetResult "Patient Count" d'), w')
          end
      end
  end.

End Loader.

End Ingest.

(** ** src/utils/google_sheets.py *)

Module Sheets.

(** Objects live in a store; a location is the identity of a frame. *)
Definition loc : Type := nat.

Record cache_entry : Type := Entry {
  data : loc;
  timestamp : Q
}.

(** The fields of a [GoogleSheetsConnector].  [connected] is the truth of
    [self.client and self.spreadsheet]. *)
Record connector : Type := Connector {
  spreadsheet_id : string;
  cache : gmap string cache_entry;
  cache_ttl : Q;
  last_request_time : Q;
  min_request_interval : Q;
  connected : bool
}.

(** A connector as [__init__] leaves it. *)
Definition new_connector (id : string) (is_connected : bool) : connector :=
  Connector id ∅ 300 0 1 is_connected.

Definition Qltb (x y : Q) : bool := negb (Qle_bool y x).

Definition remove_chars (drop : ascii -> bool) (s : string) : string :=
  string_of_list_ascii
    (filter (fun c => drop c = false) (list_ascii_of_string s)).

(** The character class [[%$,]]. *)
Definition is_symbol (c : ascii) : bool :=
  Ascii.eqb c "%" || Ascii.eqb c "$" || Ascii.eqb c ",".

Definition starts_with (p s : string) : bool := String.prefix p s.

Definition label_unnamed (l : label) : bool :=
  match l with
  | LStr s => starts_with "Unnamed" s
  | LInt _ => false
  end.

Definition label_is_str (l : label) : bool :=
  match l with LStr _ => true | LInt _ => false end.

(** [not col or str(col).strip() == ''] *)
Definition label_blank (l : label) : bool :=
  match l with
  | LStr s => String.eqb s "" || String.eqb (strip s) ""
  | LInt i => (i =? 0)%Z
  end.

(** Keep the entries of [xs] whose flag in [keep] is set. *)
Fixpoint select {A} (keep : list bool) (xs : list A) : list A :=
  match keep, xs with
  | k :: keep', x :: xs' =>
      if k then x :: select keep' xs' else select keep' xs'
  | _, _ => []
  end.

(** What [logger.error] is given when a read fails: the sheet name and the
    exception, from which the line
    [f"Error fetching data from sheet '{sheet_name}': {str(e)}"] is made. *)
Inductive log_record : Type :=
| FetchError (sheet_name : string) (e : exn).

Section Connector.

(** [St] is the state of the remote spreadsheet service. *)
Context {St : Type}.

(** The gspread side: opening a tab and reading it may each raise; the
    sample generator draws random tables when there is no connection. *)
Record gspread_backend : Type := Backend {
  worksheet : string -> St -> res Z * St;
  get_all_values : Z -> St -> res (list (list string)) * St;
  _generate_sample_data : string -> St -> res DataFrame * St
}.

Record world : Type := World {
  backend_state : St;
  now : Q;
  heap : gmap loc DataFrame;
  log : list log_record
}.

Variable backend : gspread_backend.

(** [pd.to_numeric(.., errors='coerce')] on one string: the number read, or
    NaN when the string is not a number. *)
Variable to_numeric : string -> fval.

(** [str(x)] of a float cell, for [astype(str)]. *)
Variable float_repr : fval -> string.

Definition _rate_limit (c : connector) (w : world) : connector * world :=
  let current_time := now w in
  let time_since_last := (current_time - last_request_time c)%Q in
  let w1 :=
    if Qltb time_since_last (min_request_interval c) then
      World (backend_state w)
        (now w + (min_request_interval c - time_since_last))%Q
        (heap w) (log w)
    else w in
  (Connector (spreadsheet_id c) (cache c) (cache_ttl c) (now w1)
     (min_request_interval c) (connected c), w1).

(** The key text [f"{sheet_name}_{range_name}_{self.spreadsheet_id}"] with
    [range_name = None]; its MD5 digest is taken to be collision free and
    the text itself is the key. *)
Definition _get_cache_key (c : connector) (sheet_name : string) : string :=
  (sheet_name ++ "_None_" ++ spreadsheet_id c)%string.

Definition _is_cache_valid (c : connector) (cache_key : string) (w : world)
  : bool :=
  match cache c !! cache_key with
  | None => false
  | Some e => Qltb (now w - timestamp e) (cache_ttl c)
  end.

(** [astype(str)] of one cell. *)
Definition cell_to_str (x : cell) : string :=
  match x with
  | CStr s => s
  | CNum v => float_repr v
  | CNone => "None"
  end.

(** One cell through the numeric conversion: strip [%], [$] and [,], turn
    ['nan'], [''] and ['None'] into NA, then [to_numeric]. *)
Definition clean_cell (x : cell) : fval :=
  let cleaned := remove_chars is_symbol (cell_to_str x) in
  if String.eqb cleaned "nan" || String.eqb cleaned ""
     || String.eqb cleaned "None"
  then FNaN
  else to_numeric cleaned.

Definition null_count (xs : list fval) : nat :=
  length (filter (fun v => is_nan v = true) xs).

(** The body of the loop over the columns, for the label [col]. *)
Definition clean_column (col : label) (d : DataFrame) : DataFrame :=
  if label_blank col then d
  else
    match positions col d with
    | [j] =>
        let vals := column_at j d in
        if (length vals =? 0)%nat then d
        else if forallb isna vals then d
        else
          let numeric_col := map clean_cell vals in
          if (null_count numeric_col <? length numeric_col)%nat
          then set_column_at j (map CNum numeric_col) d
          else d
    | _ => d
    end.

(** [df.dropna(how='all')]: rows whose every cell is missing go. *)
Definition dropna_all (d : DataFrame) : DataFrame :=
  Frame (columns d) (filter (fun r => forallb isna r = false) (rows d)).

(** Columns whose label starts with [Unnamed] go.  The index of the labels
    has a [str] accessor as soon as one label is text; a label that is no
    text is no match ([na=False]) and stays. *)
Definition drop_unnamed (d : DataFrame) : DataFrame :=
  if existsb label_is_str (columns d) then
    let keep := map (fun l => negb (label_unnamed l)) (columns d) in
    Frame (select keep (columns d)) (map (select keep) (rows d))
  else d.

(** [for col in df.columns: ...] *)
Definition convert_columns (d : DataFrame) : DataFrame :=
  foldl (fun acc col => clean_column col acc) d (columns d).

Definition _clean_dataframe (d : DataFrame) : DataFrame :=
  if df_empty d then d
  else convert_columns (drop_unnamed (dropna_all d)).

(** A new object holding [d]. *)
Definition alloc (d : DataFrame) (w : world) : loc * world :=
  let l := fresh (dom (heap w)) in
  (l, World (backend_state w) (now w) (<[l := d]> (heap w)) (log w)).

Definition set_backend_state (s : St) (w : world) : world :=
  World s (now w) (heap w) (log w).

Definition log_error (sheet_name : string) (e : exn) (w : world) : world :=
  World (backend_state w) (now w) (heap w)
    (log w ++ [FetchError sheet_name e]).

(** The body of the [try] up to the value of [data]. *)
Definition fetch_fresh (c : connector) (sheet_name : string) (w : world)
  : res DataFrame * connector * world :=
  if connected c then
    let '(c1, w1) := _rate_limit c w in
    match worksheet backend sheet_name (backend_state w1) with
    | (Raise e, s) => (Raise e, c1, set_backend_state s w1)
    | (Ok ws, s) =>
        match get_all_values backend ws s with
        | (Raise e, s') => (Raise e, c1, set_backend_state s' w1)
        | (Ok data_values, s') =>
            let w2 := set_backend_state s' w1 in
            match data_values with
            | [] => (Ok empty_frame, c1, w2)
            | headers :: rows =>
                match pd_DataFrame (map (map CStr) rows)
                        (Some (map LStr headers)) with
                | Ok d => (Ok (_clean_dataframe d), c1, w2)
                | Raise e => (Raise e, c1, w2)
                end
            end
        end
    end
  else
    match _generate_sample_data backend sheet_name (backend_state w) with
    | (r, s) => (r, c, set_backend_state s w)
    end.

Definition get_sheet_data (c : connector) (sheet_name : string)
    (use_cache : bool) (w : world) : loc * connector * world :=
  let cache_key := _get_cache_key c sheet_name in
  if use_cache && _is_cache_valid c cache_key w then
    let cached :=
      default empty_frame (e ← cache c !! cache_key; heap w !! data e) in
    let '(l, w') := alloc cached w in
    (l, c, w')
  else
    match fetch_fresh c sheet_name w with
    | (Ok d, c1, w1) =>
        let '(l, w2) := alloc d w1 in
        if use_cache then
          let '(lc, w3) := alloc d w2 in
          (l,
           Connector (spreadsheet_id c1)
             (<[cache_key := Entry lc (now w3)]> (cache c1))
             (cache_ttl c1) (last_request_time c1)
             (min_request_interval c1) (connected c1),
           w3)
        else (l, c1, w2)
    | (Raise e, c1, w1) =>
        let '(l, w2) :=
          alloc empty_frame (log_error sheet_name e w1) in
        (l, c1, w2)
    end.

(** The frame a location holds. *)
Definition frame_at (l : loc) (w : world) : option DataFrame := heap w !! l.

(** What a caller can do to a frame it was handed: overwrite the object at
    that location. *)
Definition mutate (l : loc) (d : DataFrame) (w : world) : world :=
  World (backend_state w) (now w) (<[l := d]> (heap w)) (log w).

(** Every cached location holds a frame. *)
Definition cache_backed (c : connector) (w : world) : Prop :=
  ∀ k e, cache c !! k = Some e → is_Some (heap w !! data e).

(** Time passing between two calls. *)
Definition at_time (t : Q) (w : world) : world :=
  World (backend_state w) t (heap w) (log w).

End Connector.

Arguments gspread_backend : clear implicits.
Arguments world : clear implicits.

End Sheets.

(** ** src/utils/data_processor.py *)

Module Processor.

(** The order pandas puts group keys in: numbers, then strings. *)
Definition fval_leb (x y : fval) : bool :=
  match x, y with
  | FInf true, _ => true
  | _, FInf false => true
  | FNum a, FNum b => Qle_bool a b
  | _, _ => false
  end.

Definition key_leb (x y : cell) : bool :=
  match x, y with
  | CNum a, CNum b => fval_leb a b
  | CNum _, _ => true
  | CStr a, CStr b => String.leb a b
  | CStr _, CNone => true
  | CNone, CNone => true
  | _, _ => false
  end.

Definition key_le (x y : cell) : Prop := key_leb x y = true.

Global Instance key_le_dec : RelDecision key_le.
Proof. intros x y. unfold key_le. apply _. Defined.

Definition fval_eqb (x y : fval) : bool :=
  match x, y with
  | FNum a, FNum b => Qeq_bool a b
  | FInf s, FInf t => Bool.eqb s t
  | _, _ => false
  end.

(** [==] between two cells; a missing value equals nothing. *)
Definition cell_eqb (x y : cell) : bool :=
  match x, y with
  | CStr a, CStr b => String.eqb a b
  | CNum a, CNum b => fval_eqb a b
  | _, _ => false
  end.

Fixpoint distinct_keys (seen : list cell) (ks : list cell) : list cell :=
  match ks with
  | [] => []
  | k :: ks' =>
      if isna k || existsb (cell_eqb k) seen then distinct_keys seen ks'
      else k :: distinct_keys (k :: seen) ks'
  end.

(** [df[col]] as a series: the label must name exactly one column. *)
Definition series_of (col : string) (d : DataFrame) : res (list cell) :=
  match positions (LStr col) d with
  | [] => Raise (KeyError col)
  | [j] => Ok (column_at j d)
  | _ => Raise (TypeError "arg must be a list, tuple, 1-d array, or Series")
  end.

(** The output of [_process_provider_data], one record per provider. *)
Record provider_stats : Type := ProviderStats {
  Provider : cell;
  Patient_Count_sum : F64.t;
  Patient_Count_mean : F64.t;
  Patient_Count_std : F64.t;
  Avg_Session_Duration_mean : F64.t;
  Consistency_Score : F64.t
}.

(** [(100 - (std / mean * 100)).fillna(100)], in float arithmetic. *)
Definition consistency_score (std mean : F64.t) : F64.t :=
  F64.fillna F64.hundred
    (F64.sub F64.hundred (F64.mul (F64.div std mean) F64.hundred)).

Definition provider_columns : list label :=
  [LStr "Provider"; LStr "Patient Count_sum"; LStr "Patient Count_mean";
   LStr "Patient Count_std"; LStr "Avg Session Duration_mean";
   LStr "Consistency_Score"].

Definition provider_row (p : provider_stats) : list cell :=
  [Provider p;
   CNum (F64.to_fval (Patient_Count_sum p));
   CNum (F64.to_fval (Patient_Count_mean p));
   CNum (F64.to_fval (Patient_Count_std p));
   CNum (F64.to_fval (Avg_Session_Duration_mean p));
   CNum (F64.to_fval (Consistency_Score p))].

(** [metrics['team_comparison']]: per metric, the value of each team. *)
Definition team_table : Type := gmap string (gmap string fval).

Record metrics_dict : Type := Metrics {
  scalars : gmap string fval;
  team_comparison : option team_table
}.

(** [self.processed_data]: a key is absent when its field is [None]. *)
Record processed : Type := Processed {
  scribes : option DataFrame;
  providers : option DataFrame;
  sessions : option DataFrame;
  metrics : option metrics_dict
}.

Section Aggregator.

(** Square root of a non-negative finite float. *)
Variable fsqrt : Q -> Q.

(** [pd.to_numeric(.., errors='coerce')] on one string. *)
Variable to_numeric : string -> fval.

Definition sqrt_val (x : fval) : fval :=
  match x with
  | FNum q => if Qsign_neg q then FNaN else fnum (fsqrt q)
  | FInf false => FInf false
  | _ => FNaN
  end.

Definition to_numeric_cell (x : cell) : fval :=
  match x with
  | CStr s => to_numeric s
  | CNum v => v
  | CNone => FNaN
  end.

(** The aggregations skip missing values. *)
Definition present (xs : list fval) : list fval :=
  filter (fun v => is_nan v = false) xs.

Definition total (xs : list fval) : fval := foldl fadd (fnum 0) xs.

Definition of_nat (n : nat) : fval := fnum (inject_Z (Z.of_nat n)).

Definition agg_sum (xs : list fval) : fval := total (present xs).

Definition agg_mean (xs : list fval) : fval :=
  match present xs with
  | [] => FNaN
  | vs => fdiv (total vs) (of_nat (length vs))
  end.

(** Sample standard deviation ([ddof = 1]): missing below two values. *)
Definition agg_std (xs : list fval) : fval :=
  let vs := present xs in
  if (length vs <=? 1)%nat then FNaN
  else
    let m := agg_mean xs in
    let squares := map (fun v => fmul (fsub v m) (fsub v m)) vs in
    sqrt_val (fdiv (total squares) (of_nat (length vs - 1))).

(** The record of one group: the aggregates, as floats, rounded to two
    decimals, then the score from the rounded columns. *)
Definition stats_row (provider : cell) (counts durations : list fval)
  : provider_stats :=
  let s := F64.round2 (F64.of_fval (agg_sum counts)) in
  let m := F64.round2 (F64.of_fval (agg_mean counts)) in
  let sd := F64.round2 (F64.of_fval (agg_std counts)) in
  let dur := F64.round2 (F64.of_fval (agg_mean durations)) in
  ProviderStats provider s m sd dur (consistency_score sd m).

(** The values of [vals] in the rows whose key is [k]. *)
Definition group_values (k : cell) (keys : list cell) (vals : list fval)
  : list fval :=
  map snd (filter (fun kv => cell_eqb (fst kv) k = true) (zip keys vals)).

(** [groupby('Provider').agg(..)] followed by the score: one record per
    distinct provider, rows without a provider dropped, keys in order. *)
Definition provider_rows (keys : list cell) (counts durations : list fval)
  : list provider_stats :=
  map (fun k =>
         stats_row k (group_values k keys counts)
           (group_values k keys durations))
    (merge_sort key_le (distinct_keys [] keys)).

Definition group_key_of (col : string) (d : DataFrame) : res (list cell) :=
  match positions (LStr col) d with
  | [] => Raise (KeyError col)
  | [j] => Ok (column_at j d)
  | _ => Raise (ValueError "Grouper not 1-dimensional")
  end.

Definition _process_provider_data (raw_data : gmap string DataFrame)
  : res DataFrame :=
  match raw_data !! "Patient Count"%string with
  | None => Ok empty_frame
  | Some d =>
      if df_empty d then Ok empty_frame
      else
        match series_of "Patient Count" d with
        | Raise e => Raise e
        | Ok counts =>
            match series_of "Avg Session Duration" d with
            | Raise e => Raise e
            | Ok durations =>
                match group_key_of "Provider" d with
                | Raise e => Raise e
                | Ok keys =>
                    Ok (Frame provider_columns
                          (map provider_row
                             (provider_rows keys
                                (map to_numeric_cell counts)
                                (map to_numeric_cell durations))))
                end
            end
        end
  end.

(** The parts of the constructor that build the scribe roster, the session
    table and the metrics from non-empty input are taken as given: the
    accessors below only depend on which keys they leave in
    [processed_data]. *)
Variable enrich_scribes : DataFrame -> res DataFrame.
Variable _process_session_data : gmap string DataFrame -> res DataFrame.
Variable scribe_metrics : DataFrame -> res (gmap string fval * team_table).
Variable session_metrics : DataFrame -> res (gmap string fval).
Variable provider_metrics : DataFrame -> res (gmap string fval).

Definition _process_scribe_data (raw_data : gmap string DataFrame)
  : res DataFrame :=
  match raw_data !! "Dataset"%string with
  | None => Ok empty_frame
  | Some d => if df_empty d then Ok empty_frame else enrich_scribes d
  end.

(** [metrics = {}], then one block per non-empty table. *)
Definition _calculate_metrics (sc pr se : DataFrame) : res metrics_dict :=
  let after_scribes :=
    if df_empty sc then Ok (Metrics ∅ None)
    else
      match scribe_metrics sc with
      | Ok (m, t) => Ok (Metrics m (Some t))
      | Raise e => Raise e
      end in
  match after_scribes with
  | Raise e => Raise e
  | Ok m1 =>
      let after_sessions :=
        if df_empty se then Ok m1
        else
          match session_metrics se with
          | Ok m => Ok (Metrics (m ∪ scalars m1) (team_comparison m1))
          | Raise e => Raise e
          end in
      match after_sessions with
      | Raise e => Raise e
      | Ok m2 =>
          if df_empty pr then Ok m2
          else
            match provider_metrics pr with
            | Ok m => Ok (Metrics (m ∪ scalars m2) (team_comparison m2))
            | Raise e => Raise e
            end
      end
  end.

(** [__init__] with [_process_all_data]: the keys assigned before the first
    exception stay, the exception is reported and swallowed. *)
Definition _process_all_data (raw_data : gmap string DataFrame) : processed :=
  match _process_scribe_data raw_data with
  | Raise _ => Processed None None None None
  | Ok sc =>
      match _process_provider_data raw_data with
      | Raise _ => Processed (Some sc) None None None
      | Ok pr =>
          match _process_session_data raw_data with
          | Raise _ => Processed (Some sc) (Some pr) None None
          | Ok se =>
              match _calculate_metrics sc pr se with
              | Raise _ => Processed (Some sc) (Some pr) (Some se) None
              | Ok m => Processed (Some sc) (Some pr) (Some se) (Some m)
              end
          end
      end
  end.

(** What [df[df[col] == v]] gives when [col] labels several columns. *)
Variable query_duplicated_label : string -> string -> DataFrame -> res DataFrame.

(** [df[df[col] == v]] *)
Definition rows_where_eq (col v : string) (d : DataFrame) : res DataFrame :=
  match positions (LStr col) d with
  | [] => Raise (KeyError col)
  | [j] =>
      Ok (Frame (columns d)
            (filter (fun r => cell_eqb (default CNone (r !! j)) (CStr v) = true)
               (rows d)))
  | _ => query_duplicated_label col v d
  end.

(** Truth of an [Optional[str]] argument. *)
Definition truthy (name : option string) : option string :=
  match name with
  | Some s => if String.eqb s "" then None else Some s
  | None => None
  end.

Definition get_scribe_performance (pd : processed)
    (scribe_name : option string) : res DataFrame :=
  match scribes pd with
  | None => Ok empty_frame
  | Some d =>
      match truthy scribe_name with
      | Some n => rows_where_eq "Scribe Name" n d
      | None => Ok d
      end
  end.

Definition get_team_comparison (pd : processed) : team_table :=
  match metrics pd with
  | None => ∅
  | Some m => default ∅ (team_comparison m)
  end.

End Aggregator.

End Processor.

(** ** Concrete stand-ins for the numeric library, used on examples *)

Module Numeric.

Fixpoint plain_digits (cs : list ascii) (acc : Z) : option Z :=
  match cs with
  | [] => Some acc
  | c :: cs' =>
      match digit_val c with
      | Some d => plain_digits cs' (10 * acc + d)%Z
      | None => None
      end
  end.

Fixpoint split_at_dot (cs : list ascii) : list ascii * option (list ascii) :=
  match cs with
  | [] => ([], None)
  | c :: cs' =>
      if Ascii.eqb c "." then ([], Some cs')
      else let '(a, b) := split_at_dot cs' in (c :: a, b)
  end.

Definition unsigned_decimal (cs : list ascii) : option Q :=
  let '(ip, fp) := split_at_dot cs in
  let fp := default [] fp in
  match ip, fp with
  | [], [] => None
  | _, _ =>
      match plain_digits ip 0, plain_digits fp 0 with
      | Some i, Some f =>
          let scale := (10 ^ Z.of_nat (length fp))%Z in
          Some (Qmake (i * scale + f) (Z.to_pos scale))
      | _, _ => None
      end
  end.

(** A reader of decimal literals ([95], [-3.5], [ 12. ]) standing for the
    numeric parser on such input; anything else reads as NaN. *)
Definition decimal_literal (s : string) : fval :=
  let signed :=
    match list_ascii_of_string (strip s) with
    | "-"%char :: cs => Qopp <$> unsigned_decimal cs
    | "+"%char :: cs => unsigned_decimal cs
    | cs => unsigned_decimal cs
    end in
  match signed with
  | Some q => fnum q
  | None => FNaN
  end.

(** Square root cut after six decimals. *)
Definition sqrt_6dp (q : Q) : Q :=
  Qmake (Z.sqrt (Qnum q * 1000000000000 / Zpos (Qden q))) 1000000.

(** [str] of a float cell on whole numbers and special values. *)
Definition float_repr (x : fval) : string :=
  match x with
  | FNaN => "nan"
  | FInf true => "-inf"
  | FInf false => "inf"
  | FNum q => (py_str_of_Z (Qfloor q) ++ ".0")%string
  end.

End Numeric.

(** ** scribedash/google.py: the spreadsheet identifier *)

Module SpreadsheetId.

(** The character class [[a-zA-Z0-9-_]]. *)
Definition is_id_char (c : ascii) : bool :=
  let n := nat_of_ascii c in
  ((97 <=? n) && (n <=? 122) || (65 <=? n) && (n <=? 90)
   || (48 <=? n) && (n <=? 57) || (n =? 45) || (n =? 95))%nat.

Fixpoint take_while {A} (p : A -> bool) (xs : list A) : list A :=
  match xs with
  | x :: xs' => if p x then x :: take_while p xs' else []
  | [] => []
  end.

(** [re.search(r"/d/([a-zA-Z0-9-_]+)", text)]: the leftmost place where
    [/d/] is followed by an identifier character, and the longest run of
    such characters from there. *)
Fixpoint search_id (cs : list ascii) : option (list ascii) :=
  match cs with
  | [] => None
  | c :: cs' =>
      match cs with
      | "/"%char :: "d"%char :: "/"%char :: rest =>
          match take_while is_id_char rest with
          | [] => search_id cs'
          | run => Some run
          end
      | _ => search_id cs'
      end
  end.

Definition extract_spreadsheet_id (text : string) : string :=
  if String.eqb text "" then ""%string
  else
    match search_id (list_ascii_of_string text) with
    | Some run => string_of_list_ascii run
    | None => strip text
    end.

End SpreadsheetId.

(** ** scribedash/google.py: what a trace may hold *)

Module GoogleMore.

(** Every sleep recorded in an event lasts between [lo] and [hi]. *)
Definition delay_within (lo hi : Q) (ev : Google.event) : Prop :=
  match ev with
  | Google.EvSleep d => (lo <= d)%Q ∧ (d <= hi)%Q
  | _ => True
  end.

End GoogleMore.

(** ** scribedash/config.py *)

Module Config.

(** A path as its components. *)
Definition path : Type := list string.

Record Settings : Type := MkSettings {
  spreadsheet_id : string;
  refresh_secs : Z;
  credentials_path : path
}.

Fixpoint lstrip_char (q : ascii) (cs : list ascii) : list ascii :=
  match cs with
  | c :: cs' => if Ascii.eqb c q then lstrip_char q cs' else cs
  | [] => []
  end.

(** [s.strip(q)] for a one-character argument. *)
Definition strip_char (q : ascii) (s : string) : string :=
  string_of_list_ascii
    (rev (lstrip_char q (rev (lstrip_char q (list_ascii_of_string s))))).

(** [os.getenv(k) or rest]: an unset or empty variable gives way. *)
Definition getenv_or (environ : gmap string string) (k : string)
    (rest : string) : string :=
  match environ !! k with
  | Some v => if String.eqb v "" then rest else v
  | None => rest
  end.

(** [load_settings(root)], for the environment as it is once the [.env]
    file of [root] has been loaded into it. *)
Definition load_settings (root : path) (environ : gmap string string)
  : Settings :=
  let raw_id :=
    strip_char "'" (strip_char "034"
      (strip (getenv_or environ "SPREADSHEET_ID"
                (getenv_or environ "Spreadsheet_ID"
                   (getenv_or environ "SHEET_ID" ""))))) in
  let refresh_raw := strip (getenv_or environ "REFRESH_SECS" "") in
  let refresh_secs :=
    match py_int_of_string refresh_raw with
    | Some n => n
    | None => 5%Z
    end in
  MkSettings raw_id (Z.max 2 (Z.min 60 refresh_secs))
    (root ++ ["credentials.json"%string]).

End Config.

(** ** scribedash/ingest.py: the other loaders *)

Module IngestMore.

Definition month_names : list string :=
  ["January"; "February"; "March"; "April"; "May"; "June"; "July";
   "August"; "September"; "October"; "November"; "December"]%string.

(** [for m in names: if m in candidates: return m, [c for c in candidates
    if c != m]], [None] when no name is found. *)
Fixpoint first_present (names candidates : list string)
  : option (string * list string) :=
  match names with
  | [] => None
  | m :: names' =>
      if existsb (String.eqb m) candidates
      then Some (m, filter (fun c => c ≠ m) candidates)
      else first_present names' candidates
  end.

(** [None] stands for the [IndexError] of [candidates[0]] on an empty
    list. *)
Definition pick_current_month_title (candidates : list string)
  : option (string * list string) :=
  match first_present (rev month_names) candidates with
  | Some r => Some r
  | None =>
      match candidates with
      | [] => None
      | c :: cs => Some (c, cs)
      end
  end.

Definition load_dataset {St} (service : Google.sheets_service St)
    (spreadsheet_id : string) (w : Google.world St)
  : res Ingest.SheetResult * Google.world St :=
  match Google.fetch_values service spreadsheet_id "Dataset" w with
  | (Raise e, w') => (Raise e, w')
  | (Ok values, w') =>
      match Google.values_to_dataframe values with
      | Raise e => (Raise e, w')
      | Ok d =>
          (Ok (Ingest.MkSheetResult "Dataset" (Ingest.normalize_columns d)),
           w')
      end
  end.

End IngestMore.

(** ** src/utils/google_sheets.py: the rest of the connector *)

Module SheetsMore.

(** [self.cache.clear()] *)
Definition refresh_cache (c : Sheets.connector) : Sheets.connector :=
  Sheets.Connector (Sheets.spreadsheet_id c) ∅ (Sheets.cache_ttl c)
    (Sheets.last_request_time c) (Sheets.min_request_interval c)
    (Sheets.connected c).

Definition sheets_to_load : list string :=
  ["Dataset"; "Patient Count"; "Utilization"; "August"]%string.

Section Connector.

Context {St : Type}.
Variable backend : Sheets.gspread_backend St.
Variable to_numeric : string -> fval.
Variable float_repr : fval -> string.

(** One round of the loop of [get_all_sheets].  Its [except] branch has
    nothing to catch: [get_sheet_data] returns on every path. *)
Definition load_sheet
    (acc : gmap string Sheets.loc * Sheets.connector * Sheets.world St)
    (sheet_name : string)
  : gmap string Sheets.loc * Sheets.connector * Sheets.world St :=
  let '(all_data, c, w) := acc in
  let '(l, c', w') :=
    Sheets.get_sheet_data backend to_numeric float_repr c sheet_name true w in
  (<[sheet_name := l]> all_data, c', w').

Definition get_all_sheets (c : Sheets.connector) (w : Sheets.world St)
  : gmap string Sheets.loc * Sheets.connector * Sheets.world St :=
  foldl load_sheet (∅, c, w) sheets_to_load.

End Connector.

End SheetsMore.

(** ** src/utils/data_processor.py: categories, sessions, accessors *)

Module ProcessorMore.

(** [x >= q] for a float [x] that is not NaN. *)
Definition fval_geb (x : fval) (q : Q) : bool :=
  match x with
  | FNum a => Qle_bool q a
  | FInf negative => negb negative
  | FNaN => false
  end.

(** [x <= q] *)
Definition fval_leb_q (x : fval) (q : Q) : bool :=
  match x with
  | FNum a => Qle_bool a q
  | FInf negative => negative
  | FNaN => false
  end.

(** The categorisers take a cell of the table.  A missing cell is
    ['Unknown']; a text cell passes [pd.isna] and then fails in the
    comparison with a number. *)
Definition categorize (ladder : fval -> string) (x : cell) : res string :=
  match x with
  | CNone => Ok "Unknown"%string
  | CNum v => if is_nan v then Ok "Unknown"%string else Ok (ladder v)
  | CStr _ =>
      Raise (TypeError "comparison of a str with a number")
  end.

Definition _categorize_performance : cell -> res string :=
  categorize (fun efficiency =>
    if fval_geb efficiency 95 then "Excellent"
    else if fval_geb efficiency 90 then "Good"
    else if fval_geb efficiency 80 then "Fair"
    else "Needs Improvement")%string.

Definition _categorize_workload : cell -> res string :=
  categorize (fun patients =>
    if fval_geb patients 100 then "High"
    else if fval_geb patients 70 then "Medium"
    else "Low")%string.

Definition _categorize_experience : cell -> res string :=
  categorize (fun training_hours =>
    if fval_geb training_hours 15 then "Senior"
    else if fval_geb training_hours 10 then "Intermediate"
    else "Junior")%string.

Definition _categorize_rating : cell -> res string :=
  categorize (fun rating =>
    if fval_geb rating (45 # 10) then "Excellent"
    else if fval_geb rating 4 then "Good"
    else if fval_geb rating (35 # 10) then "Fair"
    else "Poor")%string.

Definition _categorize_time : cell -> res string :=
  categorize (fun hour =>
    if fval_geb hour 10 && fval_leb_q hour 14 then "Peak"
    else if fval_geb hour 8 && fval_leb_q hour 18 then "Standard"
    else "Off-Hours")%string.

(** The tiers of each ladder, lowest first, and the place of a tier. *)
Definition performance_tiers : list string :=
  ["Needs Improvement"; "Fair"; "Good"; "Excellent"]%string.
Definition workload_tiers : list string := ["Low"; "Medium"; "High"]%string.
Definition experience_tiers : list string :=
  ["Junior"; "Intermediate"; "Senior"]%string.
Definition rating_tiers : list string :=
  ["Poor"; "Fair"; "Good"; "Excellent"]%string.

Fixpoint tier_index (tiers : list string) (t : string) : nat :=
  match tiers with
  | [] => 0
  | t' :: tiers' => if String.eqb t' t then 0 else S (tier_index tiers' t)
  end.

(** The tier of a number, as a place in the ladder. *)
Definition tier_of (f : cell -> res string) (tiers : list string)
    (v : fval) : nat :=
  match f (CNum v) with
  | Ok t => tier_index tiers t
  | Raise _ => 0
  end.

Section Sessions.

(** [pd.to_datetime(x, format='%H:%M')]: the seconds since midnight of the
    time read, [None] for [NaT] on a missing value, or an exception. *)
Variable to_datetime_hm : cell -> res (option Q).

(** One round of the loop of [_calculate_session_duration]; any exception
    gives NaN, and so does [NaT]. *)
Definition session_duration (start finish : cell) : fval :=
  match to_datetime_hm start, to_datetime_hm finish with
  | Ok (Some start_time), Ok (Some end_time) =>
      let end_time :=
        if Sheets.Qltb end_time start_time then (end_time + 86400)%Q
        else end_time in
      fnum ((end_time - start_time) / 3600)
  | _, _ => FNaN
  end.

Definition _calculate_session_duration (start_times end_times : list cell)
  : list fval :=
  map (fun p => session_duration (fst p) (snd p)) (zip start_times end_times).

(** [pd.concat(frames, ignore_index=True)] and [_process_monthly_data] are
    taken as given. *)
Variable pd_concat : list DataFrame -> res DataFrame.
Variable _process_monthly_data : DataFrame -> res DataFrame.

(** [month_data['Month'] = month], taken as given. *)
Variable set_month : string -> DataFrame -> DataFrame.

Definition monthly_sheets : list string :=
  ["August"; "July"; "May"; "February"; "January"]%string.

(** The sheets of [monthly_sheets] that are present and not empty, each
    with its [Month] column. *)
Definition all_sessions (raw_data : gmap string DataFrame)
  : list DataFrame :=
  omap (fun month =>
          match raw_data !! month with
          | Some d => if df_empty d then None else Some (set_month month d)
          | None => None
          end)
    monthly_sheets.

Definition _process_session_data (raw_data : gmap string DataFrame)
  : res DataFrame :=
  match all_sessions raw_data with
  | [] =>
      match raw_data !! "August"%string with
      | Some d =>
          if df_empty d then Ok empty_frame
          else _process_monthly_data (set_month "August" d)
      | None => Ok empty_frame
      end
  | frames =>
      match pd_concat frames with
      | Ok d => _process_monthly_data d
      | Raise e => Raise e
      end
  end.

End Sessions.


(** [get_summary_stats]: the metrics, [{}] without them. *)
Definition get_summary_stats (pd : Processor.processed)
  : Processor.metrics_dict :=
  default (Processor.Metrics ∅ None) (Processor.metrics pd).

(** A reader of [HH:MM] with two digits each, standing for the time parser
    on such input; a missing cell reads as [NaT]. *)
Definition read_hh_mm (x : cell) : res (option Q) :=
  match x with
  | CNone => Ok None
  | CNum _ => Raise (ValueError "time data does not match format")
  | CStr s =>
      match list_ascii_of_string s with
      | [h1; h2; sep; m1; m2] =>
          match digit_val h1, digit_val h2, digit_val m1, digit_val m2 with
          | Some a, Some b, Some c, Some d =>
              let h := (10 * a + b)%Z in
              let m := (10 * c + d)%Z in
              if Ascii.eqb sep ":" && (h <? 24)%Z && (m <? 60)%Z
              then Ok (Some (inject_Z (h * 3600 + m * 60)))
              else Raise (ValueError "time data does not match format")
          | _, _, _, _ => Raise (ValueError "time data does not match format")
          end
      | _ => Raise (ValueError "time data does not match format")
      end
  end.

End ProcessorMore.

(** ** Test doubles

    Small remotes over a call counter, for running the pipeline on concrete
    input. *)

Module Doubles.

(** A table with a repeated label is handed back as it is: a stand-in for
    runs that meet no such table. *)
Definition keep_repeated_label (col : string) (d : DataFrame)
  : res DataFrame := Ok d.

(** Raises HTTP 503 on its first [failures] calls, then returns [v]. *)
Definition flaky {A} (failures : nat) (v : A) : Google.operation nat A :=
  fun calls =>
    (if (calls <? failures)%nat then Raise (HttpError 503) else Ok v, S calls).

(** Raises [e] on every call. *)
Definition always_raises {A} (e : exn) : Google.operation nat A :=
  fun calls => (Raise e, S calls).

(** Raises on every call, the status telling the calls apart. *)
Definition numbered_failures {A} : Google.operation nat A :=
  fun calls => (Raise (HttpError (500 + Z.of_nat calls)), S calls).

(** No call made yet, an even random generator, an empty trace. *)
Definition fresh_world : Google.world nat :=
  Google.World 0%nat (fun _ => 1 # 2) 0%nat [].

(** A Sheets client whose every read is answered by [op]. *)
Definition service_of (op : Google.operation nat Google.values_response)
  : Google.sheets_service nat :=
  Google.Service nat (fun _ _ => op).

(** A gspread remote that knows no tab at all. *)
Definition no_such_tab : Sheets.gspread_backend nat :=
  Sheets.Backend
    (fun title calls => (Raise (WorksheetNotFound title), S calls))
    (fun _ calls => (Ok [], S calls))
    (fun _ calls => (Ok empty_frame, calls)).

(** A gspread remote that serves the same values for every tab. *)
Definition serving (values : list (list string)) : Sheets.gspread_backend nat :=
  Sheets.Backend
    (fun _ calls => (Ok 0%Z, S calls))
    (fun _ calls => (Ok values, S calls))
    (fun _ calls => (Ok empty_frame, calls)).

Definition empty_store : Sheets.world nat := Sheets.World 0%nat 1000 ∅ [].

End Doubles.

(** * Properties *)

(** ** The retry wrapper *)

Section RetryFacts.

Import Google.

Context {St A : Type}.
Implicit Types (fn : operation St A) (w : world St) (tr : list event).

Lemma invocations_app tr1 tr2 :
  invocations (tr1 ++ tr2) = invocations tr1 + invocations tr2.
Proof. unfold invocations. by rewrite filter_app, length_app. Qed.

Lemma sleeps_app tr1 tr2 : sleeps (tr1 ++ tr2) = sleeps tr1 + sleeps tr2.
Proof. unfold sleeps. by rewrite filter_app, length_app. Qed.

Lemma invocations_attempt a n e d :
  invocations [EvInvoke; EvWarn a n e; EvSleep d] = 1.
Proof. reflexivity. Qed.

Lemma sleeps_attempt a n e d : sleeps [EvInvoke; EvWarn a n e; EvSleep d] = 1.
Proof. reflexivity. Qed.

Lemma invocations_call : invocations [EvInvoke] = 1.
Proof. reflexivity. Qed.

Lemma sleeps_call : sleeps [EvInvoke] = 0.
Proof. reflexivity. Qed.

Lemma invocations_warned a n e : invocations [EvInvoke; EvWarn a n e] = 1.
Proof. reflexivity. Qed.

Lemma sleeps_warned a n e : sleeps [EvInvoke; EvWarn a n e] = 0.
Proof. reflexivity. Qed.

Lemma env_after_S fn k s :
  env_after fn (S k) s = snd (fn (env_after fn k s)).
Proof.
  revert s. induction k as [|k IH]; intros s; [done|].
  change (env_after fn (S (S k)) s) with (env_after fn (S k) (snd (fn s))).
  by rewrite IH.
Qed.

Lemma outcome_at_shift fn k s :
  outcome_at fn (S k) s = outcome_at fn k (snd (fn s)).
Proof. done. Qed.

Lemma backoff_delay_bounds (md bd r : Q) (i : Z) :
  (0 <= bd)%Q → (0 <= md)%Q → (0 <= r)%Q → (r <= 1)%Q →
  (0 <= backoff_delay md bd i r)%Q
  ∧ (backoff_delay md bd i r <= (13 # 10) * md)%Q.
Proof.
  intros Hbd Hmd Hr0 Hr1. unfold backoff_delay.
  assert (Hpow : (0 <= 2 ^ i)%Q) by (apply Qpower_0_le; lra).
  assert (Hprod : (0 <= bd * 2 ^ i)%Q) by (apply Qmult_le_0_compat; done).
  set (m := Qmin md (bd * 2 ^ i)).
  assert (Hm0 : (0 <= m)%Q) by (subst m; apply Q.min_glb; done).
  assert (Hm1 : (m <= md)%Q) by (subst m; apply Q.le_min_l).
  split; nra.
Qed.

Lemma Qsign_neg_false (q : Q) : (0 <= q)%Q → Qsign_neg q = false.
Proof.
  unfold Qsign_neg, Qle. simpl. intros Hq. apply Z.ltb_ge. lia.
Qed.

Lemma Qsign_neg_true (q : Q) : Qsign_neg q = true → (q < 0)%Q.
Proof.
  unfold Qsign_neg, Qlt. simpl. intros Hq. apply Z.ltb_lt in Hq. lia.
Qed.

(** A sleep that raises was asked for a negative time or one beyond the
    clock; any other is made. *)
Lemma sleep_error_none (d : Q) :
  (0 <= d)%Q → (d <= sleep_limit)%Q → sleep_error d = None.
Proof.
  intros H0 H1. unfold sleep_error.
  rewrite (Qsign_neg_false d H0).
  by rewrite (proj2 (Qle_bool_iff d sleep_limit) H1).
Qed.

Lemma sleep_error_some (d : Q) err :
  sleep_error d = Some err → (d < 0)%Q ∨ (sleep_limit < d)%Q.
Proof.
  unfold sleep_error. intros Herr.
  destruct (Qsign_neg d) eqn:Hneg; [left; by apply Qsign_neg_true|].
  destruct (Qle_bool d sleep_limit) eqn:Hle; [discriminate|].
  right. apply Qnot_le_lt. intros Hc.
  apply Qle_bool_iff in Hc. congruence.
Qed.

Lemma quiet_backoff_sleeps bd md w i :
  quiet_backoff bd md w →
  sleep_error (backoff_delay md bd i (random_source w (draws w))) = None.
Proof.
  intros (Hbd & Hmd & Hlim & Hrand).
  destruct (Hrand (draws w)) as [H0 H1].
  destruct (backoff_delay_bounds md bd (random_source w (draws w)) i
              Hbd Hmd H0 H1) as [Hlo Hhi].
  apply sleep_error_none; [done|].
  apply (Qle_trans _ _ _ Hhi), (Qle_trans _ _ _ Hlim). discriminate.
Qed.

(** One failed attempt in a quiet setting: the loop records the call, the
    warning and the sleep, and goes on with one iteration less. *)
Lemma retry_loop_fail_step fn attempts bd md n i last w e s' :
  fn (remote w) = (Raise e, s') →
  (i < 1024)%Z →
  sleep_error (backoff_delay md bd i (random_source w (draws w))) = None →
  retry_loop fn attempts bd md (S n) i last w =
  retry_loop fn attempts bd md n (i + 1)%Z (Some e)
    (World s' (random_source w) (S (draws w))
       (trace w ++
          [EvInvoke; EvWarn (i + 1) attempts e;
           EvSleep (backoff_delay md bd i (random_source w (draws w)))])).
Proof.
  intros Hfn Hi Hsleep. simpl. rewrite Hfn.
  unfold power_overflows. rewrite (proj2 (Z.leb_gt 1024 i) Hi).
  cbv zeta. by rewrite Hsleep.
Qed.

Lemma retry_loop_ok_step fn attempts bd md n i last w v s' :
  fn (remote w) = (Ok v, s') →
  retry_loop fn attempts bd md (S n) i last w =
  (Ok v, World s' (random_source w) (draws w) (trace w ++ [EvInvoke])).
Proof. intros Hfn. simpl. by rewrite Hfn. Qed.

(** The product raises: the wrapper is left with [OverflowError] before
    any warning, draw or sleep. *)
Lemma retry_loop_overflow_step fn attempts bd md n i last w e s' :
  fn (remote w) = (Raise e, s') →
  (1024 ≤ i)%Z →
  retry_loop fn attempts bd md (S n) i last w =
  (Raise (OverflowError "int too large to convert to float"),
   World s' (random_source w) (draws w) (trace w ++ [EvInvoke])).
Proof.
  intros Hfn Hi. simpl. rewrite Hfn.
  unfold power_overflows. by rewrite (proj2 (Z.leb_le 1024 i) Hi).
Qed.

(** The sleep raises: the wrapper is left with the exception of
    [time.sleep], after the warning and without another invocation. *)
Lemma retry_loop_sleep_raises_step fn attempts bd md n i last w e s' err :
  fn (remote w) = (Raise e, s') →
  (i < 1024)%Z →
  sleep_error (backoff_delay md bd i (random_source w (draws w))) = Some err →
  retry_loop fn attempts bd md (S n) i last w =
  (Raise err,
   World s' (random_source w) (S (draws w))
     (trace w ++ [EvInvoke; EvWarn (i + 1) attempts e])).
Proof.
  intros Hfn Hi Hsleep. simpl. rewrite Hfn.
  unfold power_overflows. rewrite (proj2 (Z.leb_gt 1024 i) Hi).
  cbv zeta. by rewrite Hsleep.
Qed.

(** The four ways one iteration can go. *)
Lemma retry_loop_step_cases fn attempts bd md n i last w :
  let out := retry_loop fn attempts bd md (S n) i last w in
  (∃ v s', fn (remote w) = (Ok v, s')
           ∧ out = (Ok v, World s' (random_source w) (draws w)
                            (trace w ++ [EvInvoke])))
  ∨ (∃ e s', fn (remote w) = (Raise e, s') ∧ (1024 ≤ i)%Z
             ∧ out = (Raise (OverflowError "int too large to convert to float"),
                      World s' (random_source w) (draws w)
                        (trace w ++ [EvInvoke])))
  ∨ (∃ e s' err,
       fn (remote w) = (Raise e, s') ∧ (i < 1024)%Z
       ∧ sleep_error (backoff_delay md bd i (random_source w (draws w)))
         = Some err
       ∧ out = (Raise err,
                World s' (random_source w) (S (draws w))
                  (trace w ++ [EvInvoke; EvWarn (i + 1) attempts e])))
  ∨ (∃ e s',
       fn (remote w) = (Raise e, s') ∧ (i < 1024)%Z
       ∧ sleep_error (backoff_delay md bd i (random_source w (draws w)))
         = None
       ∧ out = retry_loop fn attempts bd md n (i + 1)%Z (Some e)
                 (World s' (random_source w) (S (draws w))
                    (trace w ++
                       [EvInvoke; EvWarn (i + 1) attempts e;
                        EvSleep (backoff_delay md bd i
                                   (random_source w (draws w)))]))).
Proof.
  cbv zeta.
  destruct (fn (remote w)) as [[v|e] s'] eqn:Hfn.
  - left. exists v, s'. split; [done|]. by apply retry_loop_ok_step.
  - right. destruct (Z_lt_le_dec i 1024) as [Hi|Hi].
    + right.
      destruct (sleep_error (backoff_delay md bd i (random_source w (draws w))))
        as [err|] eqn:Hsl.
      * left. exists e, s', err. repeat (split; [done|]).
        by apply (retry_loop_sleep_raises_step _ _ _ _ _ _ _ _ e).
      * right. exists e, s'. repeat (split; [done|]).
        by apply retry_loop_fail_step.
    + left. exists e, s'. repeat (split; [done|]).
      by apply (retry_loop_overflow_step _ _ _ _ _ _ _ _ e).
Qed.

(** [m] failures followed by a success, with iterations to spare. *)
Lemma retry_loop_succeeds_after fn attempts bd md m :
  ∀ n i last w v,
    quiet_backoff bd md w →
    (i + Z.of_nat m ≤ 1024)%Z →
    m < n →
    (∀ k, k < m → is_ok (fst (outcome_at fn k (remote w))) = false) →
    fst (outcome_at fn m (remote w)) = Ok v →
    let out := retry_loop fn attempts bd md n i last w in
    fst out = Ok v
    ∧ remote (snd out) = env_after fn (S m) (remote w)
    ∧ invocations (trace (snd out)) = invocations (trace w) + S m
    ∧ sleeps (trace (snd out)) = sleeps (trace w) + m.
Proof.
  induction m as [|m IH]; intros n i last w v Hq Hi Hlt Hfail Hok.
  - destruct n as [|n]; [lia|].
    unfold outcome_at in Hok. simpl in Hok.
    destruct (fn (remote w)) as [r s'] eqn:Hfn. simpl in Hok. subst r.
    rewrite (retry_loop_ok_step _ _ _ _ _ _ _ _ _ _ Hfn). simpl.
    rewrite Hfn, invocations_app, sleeps_app, invocations_call, sleeps_call.
    repeat split; lia.
  - destruct n as [|n]; [lia|].
    assert (H0 : is_ok (fst (outcome_at fn 0 (remote w))) = false)
      by (apply Hfail; lia).
    unfold outcome_at in H0. simpl in H0.
    destruct (fn (remote w)) as [r s'] eqn:Hfn.
    destruct r as [v0|e]; [done|].
    rewrite (retry_loop_fail_step _ _ _ _ _ _ _ _ _ _ Hfn);
      [|lia|by apply quiet_backoff_sleeps].
    set (w1 := World _ _ _ _).
    destruct (IH n (i + 1)%Z (Some e) w1 v) as (H1 & H2 & H3 & H4).
    + exact Hq.
    + lia.
    + lia.
    + intros k Hk. specialize (Hfail (S k) ltac:(lia)).
      rewrite outcome_at_shift, Hfn in Hfail. exact Hfail.
    + rewrite outcome_at_shift, Hfn in Hok. exact Hok.
    + subst w1. simpl in H1, H2, H3, H4.
      rewrite invocations_app, invocations_attempt in H3.
      rewrite sleeps_app, sleeps_attempt in H4.
      repeat split; [done| |lia|lia].
      rewrite H2. simpl. by rewrite Hfn.
Qed.

(** Every iteration fails: the loop runs dry and raises the exception of
    the last invocation (the one it was entered with, if it never ran). *)
Lemma retry_loop_all_fail fn attempts bd md n :
  ∀ i last w e,
    quiet_backoff bd md w →
    (i + Z.of_nat n ≤ 1024)%Z →
    (∀ k, k < n → is_ok (fst (outcome_at fn k (remote w))) = false) →
    match n with
    | O => last = Some e
    | S n' => fst (outcome_at fn n' (remote w)) = Raise e
    end →
    let out := retry_loop fn attempts bd md n i last w in
    fst out = Raise e
    ∧ remote (snd out) = env_after fn n (remote w)
    ∧ invocations (trace (snd out)) = invocations (trace w) + n
    ∧ sleeps (trace (snd out)) = sleeps (trace w) + n.
Proof.
  induction n as [|n IH]; intros i last w e Hq Hi Hfail Hlast.
  - subst last. simpl. repeat split; lia.
  - assert (H0 : is_ok (fst (outcome_at fn 0 (remote w))) = false)
      by (apply Hfail; lia).
    unfold outcome_at in H0. simpl in H0.
    destruct (fn (remote w)) as [r s'] eqn:Hfn.
    destruct r as [v0|e0]; [done|].
    cbv zeta. rewrite (retry_loop_fail_step _ _ _ _ _ _ _ _ _ _ Hfn);
      [|lia|by apply quiet_backoff_sleeps].
    set (w1 := World _ _ _ _).
    destruct (IH (i + 1)%Z (Some e0) w1 e) as (H1 & H2 & H3 & H4).
    { exact Hq. }
    { lia. }
    { intros k Hk. specialize (Hfail (S k) ltac:(lia)).
      rewrite outcome_at_shift, Hfn in Hfail. exact Hfail. }
    { destruct n as [|n].
      - unfold outcome_at in Hlast. simpl in Hlast. rewrite Hfn in Hlast.
        simpl in Hlast. congruence.
      - rewrite outcome_at_shift, Hfn in Hlast. exact Hlast. }
    subst w1. simpl in H1, H2, H3, H4.
    rewrite invocations_app, invocations_attempt in H3.
    rewrite sleeps_app, sleeps_attempt in H4.
    repeat split; [done|by rewrite H2; simpl; rewrite Hfn|lia|lia].
Qed.

End RetryFacts.

(** C3. In a quiet setting (delays that are not negative, a random
    generator in [0, 1]) an operation that fails on its first two
    invocations and succeeds on the third, run through the wrapper with 5
    attempts, yields the third invocation's result after exactly 3
    invocations; and when every one of the [attempts] invocations fails,
    for [1 <= attempts <= 1024], the exception of the last invocation is
    what the wrapper raises, after exactly [attempts] invocations. *)
Theorem with_retries_third_attempt_or_last_error :
  (∀ (St A : Type) (fn : Google.operation St A) (w : Google.world St)
     (bd md : Q) (e1 e2 : exn) (v : A),
     Google.quiet_backoff bd md w →
     fst (Google.outcome_at fn 0 (Google.remote w)) = Raise e1 →
     fst (Google.outcome_at fn 1 (Google.remote w)) = Raise e2 →
     fst (Google.outcome_at fn 2 (Google.remote w)) = Ok v →
     let out := Google._with_retries fn 5 bd md w in
     fst out = Ok v
     ∧ Google.invocations (Google.trace (snd out))
       = Google.invocations (Google.trace w) + 3)
  ∧
  (∀ (St A : Type) (fn : Google.operation St A) (w : Google.world St)
     (bd md : Q) (attempts : Z) (e : exn),
     Google.quiet_backoff bd md w →
     (1 ≤ attempts ≤ 1024)%Z →
     (∀ k, k < Z.to_nat attempts →
           is_ok (fst (Google.outcome_at fn k (Google.remote w))) = false) →
     fst (Google.outcome_at fn (Z.to_nat attempts - 1) (Google.remote w))
       = Raise e →
     let out := Google._with_retries fn attempts bd md w in
     fst out = Raise e
     ∧ Google.invocations (Google.trace (snd out))
       = Google.invocations (Google.trace w) + Z.to_nat attempts).
Proof.
  split.
  - intros St A fn w bd md e1 e2 v Hq H0 H1 H2.
    destruct (retry_loop_succeeds_after fn 5 bd md 2 5 0%Z None w v)
      as (Hr & _ & Hi & _); [done|lia|lia| |done|].
    + intros k Hk.
      destruct k as [|[|k]]; [by rewrite H0|by rewrite H1|lia].
    + split; [exact Hr|exact Hi].
  - intros St A fn w bd md attempts e Hq Hpos Hfail Hlast.
    unfold Google._with_retries. cbv zeta.
    destruct (Z.to_nat attempts) as [|n] eqn:Hn; [lia|].
    destruct (retry_loop_all_fail fn attempts bd md (S n) 0%Z None w e)
      as (Hr & _ & Hi & _); [done|lia|done| |].
    + replace (S n - 1) with n in Hlast by lia. exact Hlast.
    + split; [exact Hr|exact Hi].
Qed.

Lemma with_retries_third_attempt_or_last_error_witness :
  (let out :=
     Google._with_retries (Doubles.flaky 2 "rows"%string) 5 (1 # 2) 5
       Doubles.fresh_world in
   fst out = Ok "rows"%string
   ∧ Google.invocations (Google.trace (snd out)) = 3)
  ∧
  (let out :=
     Google._with_retries (A:=string) Doubles.numbered_failures 5 (1 # 2) 5
       Doubles.fresh_world in
   fst out = Raise (HttpError 504)
   ∧ Google.invocations (Google.trace (snd out)) = 5).
Proof.
  destruct with_retries_third_attempt_or_last_error as [Hthird Hlast].
  split.
  - apply (Hthird nat string (Doubles.flaky 2 "rows"%string)
             Doubles.fresh_world (1 # 2) 5%Q (HttpError 503) (HttpError 503));
      [|reflexivity..].
    split; [discriminate|]. split; [discriminate|]. split; [discriminate|].
    intros k. split; discriminate.
  - apply (Hlast nat string Doubles.numbered_failures Doubles.fresh_world
             (1 # 2) 5%Q 5%Z (HttpError 504)).
    + split; [discriminate|]. split; [discriminate|]. split; [discriminate|].
      intros k. split; discriminate.
    + lia.
    + intros k Hk. change (Z.to_nat 5) with 5 in Hk.
      do 5 (destruct k as [|k]; [reflexivity|]). lia.
    + reflexivity.
Defined.

(** Any iteration of the loop starts by invoking the operation. *)
Lemma retry_loop_invokes_first {St A} (fn : Google.operation St A)
    attempts bd md n i last (w : Google.world St) :
  ∃ rest,
    Google.trace (snd (Google.retry_loop fn attempts bd md (S n) i last w))
    = Google.trace w ++ Google.EvInvoke :: rest.
Proof.
  revert i last w. induction n as [|n IH]; intros i last w.
  - destruct (retry_loop_step_cases fn attempts bd md 0 i last w)
      as [(v & s' & _ & ->)|[(e & s' & _ & _ & ->)
         |[(e & s' & err & _ & _ & _ & ->)|(e & s' & _ & _ & _ & ->)]]];
      simpl; eauto.
  - destruct (retry_loop_step_cases fn attempts bd md (S n) i last w)
      as [(v & s' & _ & ->)|[(e & s' & _ & _ & ->)
         |[(e & s' & err & _ & _ & _ & ->)|(e & s' & _ & _ & _ & ->)]]];
      [simpl; eauto..|].
    match goal with
    | |- context [Google.retry_loop _ _ _ _ (S n) ?j ?l ?w1] =>
        destruct (IH j l w1) as [rest Hrest]
    end.
    rewrite Hrest. cbn [Google.trace]. rewrite <- app_assoc. simpl. eauto.
Qed.

(** C2, as the code has it: a not-found failure is handled like every other
    exception.  After the first failed invocation the wrapper logs a
    warning and sleeps, and while attempts remain it invokes the operation
    again; the failure reaches the caller only when all attempts have
    failed, after [attempts] invocations and as many sleeps.  The setting is
    a quiet one: delays that are not negative, a random generator in
    [0, 1], at most 1024 attempts. *)
Theorem with_retries_retries_not_found :
  ∀ (St A : Type) (fn : Google.operation St A) (w : Google.world St)
    (bd md : Q) (attempts : Z) (e : exn) (s' : St),
    Google.quiet_backoff bd md w →
    is_not_found e = true →
    fn (Google.remote w) = (Raise e, s') →
    (2 ≤ attempts ≤ 1024)%Z →
    let out := Google._with_retries fn attempts bd md w in
    (∃ rest,
       Google.trace (snd out)
       = Google.trace w
         ++ [Google.EvInvoke; Google.EvWarn 1 attempts e;
             Google.EvSleep
               (Google.backoff_delay md bd 0
                  (Google.random_source w (Google.draws w)))]
         ++ Google.EvInvoke :: rest)
    ∧ ((∀ k, k < Z.to_nat attempts →
             fst (Google.outcome_at fn k (Google.remote w)) = Raise e) →
       fst out = Raise e
       ∧ Google.invocations (Google.trace (snd out))
         = Google.invocations (Google.trace w) + Z.to_nat attempts
       ∧ Google.sleeps (Google.trace (snd out))
         = Google.sleeps (Google.trace w) + Z.to_nat attempts).
Proof.
  intros St A fn w bd md attempts e s' Hq _ Hfn Hatt.
  unfold Google._with_retries. cbv zeta.
  destruct (Z.to_nat attempts) as [|[|n]] eqn:Hn; [lia|lia|].
  split.
  - rewrite (retry_loop_fail_step _ _ _ _ _ _ _ _ _ _ Hfn);
      [|lia|by apply quiet_backoff_sleeps].
    destruct (retry_loop_invokes_first fn attempts bd md n (0 + 1)%Z (Some e)
                (Google.World s' (Google.random_source w)
                   (S (Google.draws w))
                   (Google.trace w ++
                      [Google.EvInvoke; Google.EvWarn (0 + 1) attempts e;
                       Google.EvSleep
                         (Google.backoff_delay md bd 0
                            (Google.random_source w (Google.draws w)))])))
      as [rest Hrest].
    exists rest. rewrite Hrest. simpl. by rewrite <- app_assoc.
  - intros Hall.
    destruct (retry_loop_all_fail fn attempts bd md (S (S n)) 0%Z None w e)
      as (Hr & _ & Hi & Hs).
    + done.
    + lia.
    + intros k Hk. by rewrite Hall.
    + apply Hall. lia.
    + done.
Qed.

Lemma with_retries_retries_not_found_witness :
  let out :=
    Google._with_retries (A:=string) (Doubles.always_raises (HttpError 404))
      5 (5 # 10) 5 Doubles.fresh_world in
  fst out = Raise (HttpError 404)
  ∧ Google.invocations (Google.trace (snd out)) = 5
  ∧ Google.sleeps (Google.trace (snd out)) = 5.
Proof.
  destruct (with_retries_retries_not_found nat string
              (Doubles.always_raises (HttpError 404)) Doubles.fresh_world
              (5 # 10) 5%Q 5%Z (HttpError 404) 1)
    as [_ Hall].
  - split; [discriminate|]. split; [discriminate|]. split; [discriminate|].
    intros k. split; discriminate.
  - reflexivity.
  - reflexivity.
  - lia.
  - apply Hall. intros k _. reflexivity.
Defined.

(** C2 fails as stated: an operation that always answers 404, run with the
    default parameters, is invoked five times and followed by five sleeps
    before the 404 reaches the caller. *)
Lemma not_found_is_retried :
  let out :=
    Google._with_retries (A:=string) (Doubles.always_raises (HttpError 404))
      Google.default_attempts Google.default_base_delay
      Google.default_max_delay Doubles.fresh_world in
  is_not_found (HttpError 404) = true
  ∧ fst out = Raise (HttpError 404)
  ∧ Google.invocations (Google.trace (snd out)) = 5
  ∧ Google.sleeps (Google.trace (snd out)) = 5
  ∧ Google.invocations (Google.trace (snd out)) ≠ 1
  ∧ Google.sleeps (Google.trace (snd out)) ≠ 0.
Proof. vm_compute. repeat split; discriminate. Qed.

(** ** Fetching a sheet *)

(** A value returned by the loop is the result of one of its invocations. *)
Lemma retry_loop_ok_inv {St A} (fn : Google.operation St A)
    attempts bd md n :
  ∀ i last (w : Google.world St) v,
    fst (Google.retry_loop fn attempts bd md n i last w) = Ok v →
    ∃ k, k < n ∧ fst (Google.outcome_at fn k (Google.remote w)) = Ok v.
Proof.
  induction n as [|n IH]; intros i last w v Hok.
  - simpl in Hok. destruct last; discriminate.
  - destruct (retry_loop_step_cases fn attempts bd md n i last w)
      as [(v0 & s' & Hfn & Heq)|[(e & s' & _ & _ & Heq)
         |[(e & s' & err & _ & _ & _ & Heq)|(e & s' & Hfn & _ & _ & Heq)]]];
      rewrite Heq in Hok; simpl in Hok; try discriminate.
    + exists 0. split; [lia|].
      unfold Google.outcome_at. simpl. rewrite Hfn. exact Hok.
    + apply IH in Hok as (k & Hk & Hout). simpl in Hout.
      exists (S k). split; [lia|].
      by rewrite outcome_at_shift, Hfn.
Qed.

Section SheetsFacts.

Import Sheets.

Context {St : Type}.
Variable backend : gspread_backend St.
Variable to_numeric : string -> fval.
Variable float_repr : fval -> string.

Local Abbreviation get_sheet_data := (get_sheet_data backend to_numeric float_repr).
Local Abbreviation fetch_fresh := (fetch_fresh backend to_numeric float_repr).

Lemma alloc_frame_at d (w : world St) :
  frame_at (fst (alloc d w)) (snd (alloc d w)) = Some d.
Proof. unfold frame_at, alloc. simpl. apply lookup_insert_eq. Qed.

Lemma alloc_fresh d (w : world St) : heap w !! fst (alloc d w) = None.
Proof.
  unfold alloc. simpl. apply not_elem_of_dom. apply is_fresh.
Qed.

Lemma alloc_keeps d (w : world St) l :
  l ≠ fst (alloc d w) → heap (snd (alloc d w)) !! l = heap w !! l.
Proof. intros Hne. unfold alloc. simpl. by rewrite lookup_insert_ne. Qed.

(** A failed read of the tab makes the [try] body fail. *)
Lemma fetch_fresh_raises c sheet_name (w : world St) e :
  connected c = true →
  (fst (worksheet backend sheet_name (backend_state w)) = Raise e
   ∨ ∃ ws s, worksheet backend sheet_name (backend_state w) = (Ok ws, s)
             ∧ fst (get_all_values backend ws s) = Raise e) →
  fst (fst (fetch_fresh c sheet_name w)) = Raise e.
Proof.
  intros Hconn Hfail. unfold Sheets.fetch_fresh. rewrite Hconn.
  destruct (_rate_limit c w) as [c1 w1] eqn:Hrl.
  assert (Hbs : backend_state w1 = backend_state w).
  { unfold _rate_limit in Hrl. injection Hrl as _ <-.
    by destruct (Qltb _ _). }
  rewrite Hbs.
  destruct Hfail as [Hws | (ws & s & Hws & Hget)].
  - destruct (worksheet backend sheet_name (backend_state w)) as [[ws|e'] s].
    + discriminate.
    + simpl in Hws. by injection Hws as ->.
  - rewrite Hws.
    destruct (get_all_values backend ws s) as [[vs|e'] s'].
    + discriminate.
    + simpl in Hget. by injection Hget as ->.
Qed.

(** The [try] body neither logs nor touches the store. *)
Lemma fetch_fresh_store c sheet_name (w : world St) :
  log (snd (fetch_fresh c sheet_name w)) = log w
  ∧ heap (snd (fetch_fresh c sheet_name w)) = heap w.
Proof.
  unfold Sheets.fetch_fresh.
  destruct (connected c).
  - unfold _rate_limit.
    repeat (match goal with
            | |- context [match ?x with _ => _ end] => destruct x
            end; simpl; try done).
  - destruct (_generate_sample_data _ _ _); done.
Qed.

(** When the [try] body fails, the failure is logged with the sheet name,
    the caller gets a new empty frame, and nothing is cached. *)
Lemma get_sheet_data_swallows c sheet_name use_cache (w : world St) e :
  use_cache && _is_cache_valid c (_get_cache_key c sheet_name) w = false →
  fst (fst (fetch_fresh c sheet_name w)) = Raise e →
  let out := get_sheet_data c sheet_name use_cache w in
  frame_at (fst (fst out)) (snd out) = Some empty_frame
  ∧ frame_at (fst (fst out)) w = None
  ∧ log (snd out) = log w ++ [FetchError sheet_name e]
  ∧ cache (snd (fst out)) = cache (snd (fst (fetch_fresh c sheet_name w))).
Proof.
  intros Hmiss Hraise. unfold Sheets.get_sheet_data. cbv zeta.
  rewrite Hmiss.
  destruct (fetch_fresh_store c sheet_name w) as [Hlog Hheap].
  destruct (fetch_fresh c sheet_name w) as [[r c1] w1].
  simpl in Hraise, Hlog, Hheap. subst r.
  pose proof (alloc_frame_at empty_frame (log_error sheet_name e w1)) as Hat.
  pose proof (alloc_fresh empty_frame (log_error sheet_name e w1)) as Hnew.
  destruct (alloc empty_frame (log_error sheet_name e w1)) as [l w2] eqn:Hal.
  simpl in Hat, Hnew |- *.
  split; [exact Hat|]. split; [|split; [|done]].
  - unfold frame_at. by rewrite <- Hheap.
  - unfold alloc in Hal. injection Hal as _ <-. simpl. by rewrite Hlog.
Qed.

End SheetsFacts.

Lemma fetch_fresh_cache {St} (backend : Sheets.gspread_backend St)
    tn fr c sheet_name (w : Sheets.world St) :
  Sheets.cache (snd (fst (Sheets.fetch_fresh backend tn fr c sheet_name w)))
  = Sheets.cache c.
Proof.
  unfold Sheets.fetch_fresh.
  destruct (Sheets.connected c).
  - unfold Sheets._rate_limit.
    repeat (match goal with
            | |- context [match ?x with _ => _ end] => destruct x
            end; simpl; try done).
  - destruct (Sheets._generate_sample_data _ _ _); done.
Qed.

(** C1, as the code has it.  [fetch_values] hands a value to its caller only
    if one of the five invocations of the request returned, and when all
    five fail it raises the exception of the last one (the random generator
    staying in [0, 1], no backoff sleep can fail).  [get_sheet_data] does
    the opposite: when opening or reading the tab raises, the exception is
    logged together with the sheet name and the caller receives an empty
    table in a new object, with nothing added to the cache. *)
Theorem fetch_failure_raised_or_blanked :
  (∀ (St : Type) (service : Google.sheets_service St)
     (spreadsheet_id sheet_title : string) (w : Google.world St) (e : exn),
     (∀ k, (0 <= Google.random_source w k)%Q
           ∧ (Google.random_source w k <= 1)%Q) →
     (∀ k, k < 5 →
        is_ok (fst (Google.outcome_at
                      (Google.values_get service spreadsheet_id sheet_title)
                      k (Google.remote w))) = false) →
     fst (Google.outcome_at
            (Google.values_get service spreadsheet_id sheet_title)
            4 (Google.remote w)) = Raise e →
     fst (Google.fetch_values service spreadsheet_id sheet_title w) = Raise e)
  ∧
  (∀ (St : Type) (service : Google.sheets_service St)
     (spreadsheet_id sheet_title : string) (w : Google.world St)
     (values : list (list string)),
     fst (Google.fetch_values service spreadsheet_id sheet_title w)
       = Ok values →
     ∃ k resp,
       k < 5
       ∧ fst (Google.outcome_at
                (Google.values_get service spreadsheet_id sheet_title)
                k (Google.remote w)) = Ok resp
       ∧ values = default [] (Google.resp_values resp))
  ∧
  (∀ (St : Type) (backend : Sheets.gspread_backend St)
     (to_numeric : string → fval) (float_repr : fval → string)
     (c : Sheets.connector) (sheet_name : string) (use_cache : bool)
     (w : Sheets.world St) (e : exn),
     Sheets.connected c = true →
     use_cache
       && Sheets._is_cache_valid c (Sheets._get_cache_key c sheet_name) w
       = false →
     (fst (Sheets.worksheet backend sheet_name (Sheets.backend_state w))
        = Raise e
      ∨ ∃ ws s,
          Sheets.worksheet backend sheet_name (Sheets.backend_state w)
            = (Ok ws, s)
          ∧ fst (Sheets.get_all_values backend ws s) = Raise e) →
     let out :=
       Sheets.get_sheet_data backend to_numeric float_repr c sheet_name
         use_cache w in
     Sheets.log (snd out) = Sheets.log w ++ [Sheets.FetchError sheet_name e]
     ∧ Sheets.frame_at (fst (fst out)) w = None
     ∧ Sheets.frame_at (fst (fst out)) (snd out) = Some empty_frame
     ∧ Sheets.cache (snd (fst out)) = Sheets.cache c).
Proof.
  split; [|split].
  - intros St service id title w e Hrand Hfail Hlast.
    unfold Google.fetch_values, Google._with_retries.
    assert (Hq : Google.quiet_backoff Google.default_base_delay
                   Google.default_max_delay w).
    { split; [discriminate|]. split; [discriminate|].
      split; [discriminate|exact Hrand]. }
    destruct (retry_loop_all_fail
                (Google.values_get service id title) Google.default_attempts
                Google.default_base_delay Google.default_max_delay
                5 0%Z None w e Hq ltac:(lia) Hfail Hlast) as (Hr & _).
    change (Z.to_nat Google.default_attempts) with 5.
    destruct (Google.retry_loop _ _ _ _ 5 0%Z None w) as [[v|e'] w'];
      simpl in Hr; [discriminate|by injection Hr as ->].
  - intros St service id title w values Hok.
    unfold Google.fetch_values, Google._with_retries in Hok.
    change (Z.to_nat Google.default_attempts) with 5 in Hok.
    destruct (Google.retry_loop _ _ _ _ 5 0%Z None w) as [[resp|e'] w']
      eqn:Hloop; simpl in Hok; [|discriminate].
    destruct (retry_loop_ok_inv
                (Google.values_get service id title) Google.default_attempts
                Google.default_base_delay Google.default_max_delay
                5 0%Z None w resp) as (k & Hk & Hout).
    { by rewrite Hloop. }
    exists k, resp. repeat split; [done|done|congruence].
  - intros St backend tn fr c sheet_name use_cache w e Hconn Hmiss Hfail.
    pose proof (fetch_fresh_raises backend tn fr c sheet_name w e Hconn Hfail)
      as Hraise.
    destruct (get_sheet_data_swallows backend tn fr c sheet_name use_cache w e
                Hmiss Hraise) as (Hframe & Hnew & Hlog & Hcache).
    split; [exact Hlog|]. split; [exact Hnew|]. split; [exact Hframe|].
    rewrite Hcache. apply fetch_fresh_cache.
Qed.

Lemma fetch_failure_raised_or_blanked_witness :
  fst (Google.fetch_values
         (Doubles.service_of (Doubles.always_raises (HttpError 403)))
         "sheet-id" "Dataset" Doubles.fresh_world) = Raise (HttpError 403)
  ∧ (let out :=
       Sheets.get_sheet_data Doubles.no_such_tab Numeric.decimal_literal
         Numeric.float_repr (Sheets.new_connector "sheet-id" true)
         "Dataset" true Doubles.empty_store in
     Sheets.log (snd out)
     = [Sheets.FetchError "Dataset" (WorksheetNotFound "Dataset")]
     ∧ Sheets.frame_at (fst (fst out)) Doubles.empty_store = None
     ∧ Sheets.frame_at (fst (fst out)) (snd out) = Some empty_frame
     ∧ Sheets.cache (snd (fst out)) = ∅).
Proof.
  destruct fetch_failure_raised_or_blanked as (Hraise & _ & Hblank).
  split.
  - apply (Hraise nat
             (Doubles.service_of (Doubles.always_raises (HttpError 403)))
             "sheet-id"%string "Dataset"%string Doubles.fresh_world
             (HttpError 403)).
    + intros k. split; discriminate.
    + intros k _. reflexivity.
    + reflexivity.
  - apply (Hblank nat Doubles.no_such_tab Numeric.decimal_literal
             Numeric.float_repr (Sheets.new_connector "sheet-id" true)
             "Dataset"%string true Doubles.empty_store
             (WorksheetNotFound "Dataset")).
    + reflexivity.
    + reflexivity.
    + left. reflexivity.
Defined.

(** C1 fails as stated on [get_sheet_data]: asked for a tab the remote does
    not know, the connector returns an empty table instead of raising. *)
Lemma get_sheet_data_blank_on_unknown_tab :
  let out :=
    Sheets.get_sheet_data Doubles.no_such_tab Numeric.decimal_literal
      Numeric.float_repr (Sheets.new_connector "sheet-id" true)
      "Dataset" true Doubles.empty_store in
  fst (Sheets.worksheet Doubles.no_such_tab "Dataset"
         (Sheets.backend_state Doubles.empty_store))
    = Raise (WorksheetNotFound "Dataset")
  ∧ is_not_found (WorksheetNotFound "Dataset") = true
  ∧ Sheets.frame_at (fst (fst out)) (snd out) = Some empty_frame.
Proof. vm_compute. done. Qed.

(** ** The raw-to-table normalizer *)

Section NormalizerFacts.

Lemma max_len_bound {A} (rs : list (list A)) r :
  r ∈ rs → length r ≤ max_len rs.
Proof.
  unfold max_len. induction rs as [|r0 rs IH]; intros Hin.
  - by apply not_elem_of_nil in Hin.
  - apply elem_of_cons in Hin as [->|Hin]; simpl; [lia|].
    specialize (IH Hin). lia.
Qed.

Lemma max_len_uniform {A} (rs : list (list A)) n :
  rs ≠ [] → Forall (fun r => length r = n) rs → max_len rs = n.
Proof.
  unfold max_len. intros Hne Hall.
  induction Hall as [|r rs Hr Hall IH]; [done|].
  simpl. destruct rs as [|r' rs]; simpl in *; [lia|].
  rewrite IH by done. lia.
Qed.

Lemma length_pad_right {A} (filler : A) n r :
  length r ≤ n → length (pad_right filler n r) = n.
Proof.
  intros Hle. unfold pad_right. rewrite length_app, repeat_length. lia.
Qed.

Lemma pad_right_full {A} (filler : A) n r :
  n ≤ length r → pad_right filler n r = r.
Proof.
  intros Hle. unfold pad_right.
  replace (n - length r) with 0 by lia. simpl. apply app_nil_r.
Qed.

(** After padding every row has the length of the longest one. *)
Lemma padded_uniform {A} (filler : A) (rs : list (list A)) :
  Forall (fun r => length r = max_len rs)
    (map (pad_right filler (max_len rs)) rs).
Proof.
  apply List.Forall_forall. intros r Hin.
  apply in_map_iff in Hin as (r0 & <- & Hin0).
  apply length_pad_right. by apply max_len_bound, list_elem_of_In.
Qed.

Lemma Forall_map_length {A B} (f : A → B) (rs : list (list A)) n :
  Forall (fun r => length r = n) rs →
  Forall (fun r => length r = n) (map (map f) rs).
Proof.
  induction 1 as [|r rs Hr Hall IH]; simpl; constructor; [|done].
  by rewrite length_map.
Qed.

Lemma map_pad_full {A} (filler : A) n (rs : list (list A)) :
  Forall (fun r => length r = n) rs → map (pad_right filler n) rs = rs.
Proof.
  induction 1 as [|r rs Hr Hall IH]; simpl; [done|].
  rewrite IH. f_equal. apply pad_right_full. lia.
Qed.

(** The constructor on rows that are already rectangular. *)
Lemma pd_DataFrame_plain (data : list (list cell)) n :
  data ≠ [] → Forall (fun r => length r = n) data →
  pd_DataFrame data None
  = Ok (Frame (map (fun i => LInt (Z.of_nat i)) (seq 0 n)) data).
Proof.
  intros Hne Hall. unfold pd_DataFrame.
  rewrite (max_len_uniform data n Hne Hall).
  by rewrite (map_pad_full CNone n data Hall).
Qed.

Lemma pd_DataFrame_labelled (data : list (list cell)) labels :
  Forall (fun r => length r = length labels) data →
  pd_DataFrame data (Some labels) = Ok (Frame labels data).
Proof.
  intros Hall. unfold pd_DataFrame.
  destruct data as [|r data]; [done|].
  rewrite (max_len_uniform (r :: data) (length labels)) by done.
  rewrite Nat.eqb_refl.
  by rewrite (map_pad_full CNone (length labels) (r :: data) Hall).
Qed.

Lemma size_list_to_set_le (l : list string) :
  size (list_to_set l : gset string) ≤ length l.
Proof.
  induction l as [|x l IH].
  - rewrite list_to_set_nil, size_empty. done.
  - rewrite list_to_set_cons, size_union_alt, size_singleton. simpl.
    assert (Hsub : size (list_to_set l ∖ {[x]} : gset string)
                   ≤ size (list_to_set l : gset string)).
    { apply subseteq_size. apply subseteq_difference_l. reflexivity. }
    lia.
Qed.

(** [len(set(headers)) == len(headers)] says that no label is repeated. *)
Lemma size_list_to_set_NoDup (l : list string) :
  size (list_to_set l : gset string) = length l ↔ NoDup l.
Proof.
  split; [|apply size_list_to_set].
  induction l as [|x l IH]; intros Hsize; [constructor|].
  rewrite list_to_set_cons in Hsize. simpl in Hsize.
  destruct (decide (x ∈ l)) as [Hin|Hnin].
  - exfalso.
    assert (Heq : {[x]} ∪ list_to_set l = (list_to_set l : gset string)).
    { apply subseteq_union_1_L, singleton_subseteq_l.
      by apply elem_of_list_to_set. }
    rewrite Heq in Hsize.
    pose proof (size_list_to_set_le l). lia.
  - constructor; [done|]. apply IH.
    rewrite size_union, size_singleton in Hsize; [lia|].
    apply disjoint_singleton_l. by rewrite elem_of_list_to_set.
Qed.

Lemma has_headers_spec (headers : list string) :
  Google.has_headers headers = true
  ↔ (∃ h, h ∈ headers ∧ h ≠ ""%string) ∧ NoDup headers.
Proof.
  unfold Google.has_headers.
  rewrite andb_true_iff, Nat.eqb_eq, size_list_to_set_NoDup, existsb_exists.
  split; intros [(h & Hin & Hne) Hnd]; (split; [|done]); exists h.
  - split; [by apply list_elem_of_In|].
    apply negb_true_iff, String.eqb_neq in Hne. done.
  - split; [by apply list_elem_of_In|].
    by apply negb_true_iff, String.eqb_neq.
Qed.

(** The result of the normalizer, by the test on the padded first row. *)
Lemma values_to_dataframe_cases (values : list (list string)) :
  values ≠ [] →
  let padded := map (pad_right ""%string (max_len values)) values in
  Google.values_to_dataframe values =
  if Google.has_headers (hd [] padded)
  then Ok (Frame (map LStr (hd [] padded)) (map (map CStr) (tl padded)))
  else Ok (Frame (map (fun i => LInt (Z.of_nat i)) (seq 0 (max_len values)))
             (map (map CStr) padded)).
Proof.
  intros Hne. cbv zeta.
  pose proof (padded_uniform ""%string values) as Hall.
  unfold Google.values_to_dataframe.
  destruct values as [|r0 rest] eqn:Hv; [done|]. rewrite <- Hv in *.
  set (padded := map (pad_right ""%string (max_len values)) values) in *.
  assert (Hpne : padded ≠ []) by (subst padded; rewrite Hv; done).
  destruct (Google.has_headers (hd [] padded)).
  - apply pd_DataFrame_labelled.
    rewrite length_map.
    destruct padded as [|h t]; [done|]. simpl.
    apply Forall_cons in Hall as [Hh Ht]. rewrite Hh.
    by apply Forall_map_length.
  - apply pd_DataFrame_plain.
    + by destruct padded.
    + by apply Forall_map_length.
Qed.

End NormalizerFacts.

(** C4, as the code has it.  The header test is made on the first row after
    padding: for a non-empty list of raw rows, the first row, padded on the
    right with empty strings to the length of the longest row, becomes the
    header if and only if it has a non-empty cell and no two of its cells
    are equal; otherwise the table is headerless, with columns numbered
    from 0.  When the first row is itself a longest one the padded row is
    the raw row.  [["A","B","A"],["1","2","3"]] is headerless with columns
    0, 1, 2. *)
Theorem header_detected_on_padded_first_row :
  (∀ values : list (list string),
     values ≠ [] →
     let padded := map (pad_right ""%string (max_len values)) values in
     let first := hd [] padded in
     let eligible := (∃ h, h ∈ first ∧ h ≠ ""%string) ∧ NoDup first in
     (eligible →
      Google.values_to_dataframe values
      = Ok (Frame (map LStr first) (map (map CStr) (tl padded))))
     ∧ (¬ eligible →
        Google.values_to_dataframe values
        = Ok (Frame
                (map (fun i => LInt (Z.of_nat i)) (seq 0 (max_len values)))
                (map (map CStr) padded)))
     ∧ (length (hd [] values) = max_len values → first = hd [] values))
  ∧ Google.values_to_dataframe
      [["A"; "B"; "A"]; ["1"; "2"; "3"]]%string
    = Ok (Frame [LInt 0; LInt 1; LInt 2]
            [[CStr "A"; CStr "B"; CStr "A"]; [CStr "1"; CStr "2"; CStr "3"]]).
Proof.
  split; [|reflexivity].
  intros values Hne padded first eligible.
  pose proof (values_to_dataframe_cases values Hne) as Hcases.
  cbv zeta in Hcases. fold padded in Hcases. fold first in Hcases.
  pose proof (has_headers_spec first) as Hspec. fold eligible in Hspec.
  repeat split.
  - intros Hel. apply Hspec in Hel. by rewrite Hel in Hcases.
  - intros Hnel.
    destruct (Google.has_headers first) eqn:Hh; [|done].
    exfalso. apply Hnel. by apply Hspec.
  - intros Hlen. subst first padded.
    destruct values as [|r0 rest]; [done|]. simpl.
    apply pad_right_full. simpl in Hlen. lia.
Qed.

Lemma header_detected_on_padded_first_row_witness :
  Google.values_to_dataframe
    [["Name"; "Score"]; ["Ann"; "95"]; ["Bo"]]%string
  = Ok (Frame [LStr "Name"; LStr "Score"]
          [[CStr "Ann"; CStr "95"]; [CStr "Bo"; CStr ""]]).
Proof.
  destruct header_detected_on_padded_first_row as [Hgen _].
  destruct (Hgen [["Name"; "Score"]; ["Ann"; "95"]; ["Bo"]]%string)
    as (Hheader & _ & _); [discriminate|].
  apply Hheader. split.
  - exists "Name"%string. split; [|discriminate].
    apply list_elem_of_In. simpl. by left.
  - apply NoDup_cons. split.
    + intros Hin. apply list_elem_of_In in Hin. simpl in Hin.
      destruct Hin as [Hf|[]]. discriminate.
    + apply NoDup_singleton.
Defined.

(** C4 fails as stated when the first row is shorter than another row: in
    [["A"],["1","2","3"]] the first row has a non-empty cell and no repeated
    cell, yet after padding it reads "A", "", "" and the table is
    headerless. *)
Lemma short_first_row_is_not_header :
  let values := [["A"]; ["1"; "2"; "3"]]%string in
  ((∃ h, h ∈ hd [] values ∧ h ≠ ""%string) ∧ NoDup (hd [] values))
  ∧ Google.values_to_dataframe values
    = Ok (Frame [LInt 0; LInt 1; LInt 2]
            [[CStr "A"; CStr ""; CStr ""]; [CStr "1"; CStr "2"; CStr "3"]]).
Proof.
  cbv zeta. split; [split|reflexivity].
  - exists "A"%string. split; [|discriminate].
    apply list_elem_of_In. simpl. by left.
  - apply NoDup_singleton.
Qed.

(** C5.  The normalizer never fails.  Its width [n] is the length of the
    longest input row: no row is longer, and one is that long.  Every row
    of its output, and its list of column labels, has length [n]; the
    output rows are the input rows, each followed by as many empty strings
    as it lacks to [n] (all of them, with the columns numbered from 0, or
    all but the first when that one became the header).  No rows in, an
    empty table out: zero rows, zero columns. *)
Theorem normalizer_output_rectangular :
  (∀ values : list (list string),
     ∃ d n,
       Google.values_to_dataframe values = Ok d
       ∧ n = max_len values
       ∧ (∀ r, r ∈ values → length r ≤ n)
       ∧ (values ≠ [] → ∃ r, r ∈ values ∧ length r = n)
       ∧ Forall (fun r => length r = n) (rows d)
       ∧ length (columns d) = n
       ∧ let padded :=
           map (fun r => r ++ repeat ""%string (n - length r)) values in
         (columns d = map (fun i => LInt (Z.of_nat i)) (seq 0 n)
          ∧ rows d = map (map CStr) padded)
         ∨ (∃ first rest,
              padded = first :: rest
              ∧ columns d = map LStr first
              ∧ rows d = map (map CStr) rest))
  ∧ Google.values_to_dataframe [] = Ok empty_frame
  ∧ rows empty_frame = []
  ∧ columns empty_frame = [].
Proof.
  split; [|done].
  intros values.
  destruct (decide (values = [])) as [->|Hne].
  { exists empty_frame, 0. repeat split; try done.
    - intros r Hr. by apply not_elem_of_nil in Hr.
    - by left. }
  pose proof (values_to_dataframe_cases values Hne) as Hcases.
  pose proof (padded_uniform ""%string values) as Hall.
  cbv zeta in Hcases |- *.
  change (map (pad_right ""%string (max_len values)) values)
    with (map (fun r => r ++ repeat ""%string (max_len values - length r))
            values) in Hcases, Hall.
  set (padded := map (fun r => r ++ repeat ""%string
                                      (max_len values - length r)) values) in *.
  assert (Hpne : padded ≠ []) by (subst padded; by destruct values).
  assert (Hmax : ∃ r, r ∈ values ∧ length r = max_len values).
  { clear -Hne. unfold max_len.
    induction values as [|r rs IH]; [done|].
    destruct rs as [|r' rs].
    - exists r. split; [by left|]. simpl. lia.
    - destruct IH as (r0 & Hr0 & Hlen); [done|].
      simpl in Hlen |- *.
      destruct (Nat.max_dec (length r)
                  (Nat.max (length r') (foldr Nat.max 0 (map length rs))))
        as [Hm|Hm]; rewrite Hm.
      + exists r. split; [by left|done].
      + exists r0. split; [by right|done]. }
  destruct (Google.has_headers (hd [] padded)).
  - eexists. exists (max_len values). split; [exact Hcases|]. simpl.
    destruct padded as [|h t] eqn:Hp; [done|]. simpl.
    apply Forall_cons in Hall as [Hh Ht].
    split; [done|]. split; [intros r; apply max_len_bound|].
    split; [done|]. split; [by apply Forall_map_length|].
    split; [by rewrite length_map|].
    right. by exists h, t.
  - eexists. exists (max_len values). split; [exact Hcases|]. simpl.
    split; [done|]. split; [intros r; apply max_len_bound|].
    split; [done|]. split; [by apply Forall_map_length|].
    split; [by rewrite length_map, length_seq|].
    by left.
Qed.

(** ** Columns of a table *)

Section ColumnFacts.

Implicit Types (d : DataFrame) (vals : list cell).

Lemma length_column_at j d : length (column_at j d) = length (rows d).
Proof. unfold column_at. apply length_map. Qed.

Lemma columns_set_column_at j vals d :
  columns (set_column_at j vals d) = columns d.
Proof. done. Qed.

Lemma positions_set_column_at l j vals d :
  positions l (set_column_at j vals d) = positions l d.
Proof. done. Qed.

Lemma zip_with_insert_other (rs : list (list cell)) vals j0 j :
  j ≠ j0 → length vals = length rs →
  map (fun r => default CNone (r !! j))
    (zip_with (fun r v => <[j0 := v]> r) rs vals)
  = map (fun r => default CNone (r !! j)) rs.
Proof.
  intros Hne. revert vals.
  induction rs as [|r rs IH]; intros [|v vals] Hlen; simpl in *;
    try done; try lia.
  rewrite list_lookup_insert_ne by done. f_equal. apply IH. lia.
Qed.

Lemma zip_with_insert_same (rs : list (list cell)) vals j :
  Forall (fun r => j < length r) rs → length vals = length rs →
  map (fun r => default CNone (r !! j))
    (zip_with (fun r v => <[j := v]> r) rs vals)
  = vals.
Proof.
  intros Hall. revert vals.
  induction Hall as [|r rs Hr Hall IH]; intros [|v vals] Hlen; simpl in *;
    try done; try lia.
  rewrite list_lookup_insert_eq by done. simpl. f_equal. apply IH. lia.
Qed.

(** Writing one column leaves the others as they are. *)
Lemma column_at_set_other j0 j vals d :
  j ≠ j0 → length vals = length (rows d) →
  column_at j (set_column_at j0 vals d) = column_at j d.
Proof. intros. unfold column_at. simpl. by apply zip_with_insert_other. Qed.

Lemma column_at_set_same j vals d :
  Forall (fun r => j < length r) (rows d) → length vals = length (rows d) →
  column_at j (set_column_at j vals d) = vals.
Proof. intros. unfold column_at. simpl. by apply zip_with_insert_same. Qed.

Lemma positions_from_bound l ls j0 j :
  j ∈ positions_from l ls j0 → j0 ≤ j < j0 + length ls.
Proof.
  revert j0. induction ls as [|l' ls IH]; intros j0 Hin; simpl in *.
  - by apply not_elem_of_nil in Hin.
  - destruct (decide (l' = l)).
    + apply elem_of_cons in Hin as [->|Hin]; [lia|].
      apply IH in Hin. lia.
    + apply IH in Hin. lia.
Qed.

(** A position found for a label lies inside every row of a rectangular
    table. *)
Lemma positions_in_rows l d j :
  rectangular d → j ∈ positions l d →
  Forall (fun r => j < length r) (rows d).
Proof.
  intros Hrect Hin. apply positions_from_bound in Hin.
  eapply Forall_impl; [exact Hrect|]. simpl. intros r Hr. lia.
Qed.

End ColumnFacts.

(** ** The connector's cleaner *)

Section CleanerFacts.

Import Sheets.

Variable to_numeric : string -> fval.
Variable float_repr : fval -> string.

Local Abbreviation clean_cell := (clean_cell to_numeric float_repr).
Local Abbreviation clean_column := (clean_column to_numeric float_repr).
Local Abbreviation convert_columns := (convert_columns to_numeric float_repr).

Lemma null_count_lt (xs : list fval) :
  (null_count xs <? length xs)%nat = true
  ↔ ∃ x, x ∈ xs ∧ is_nan x = false.
Proof.
  rewrite Nat.ltb_lt. unfold null_count.
  induction xs as [|x xs IH]; simpl.
  - split; [lia|]. intros (x & Hin & _). by apply not_elem_of_nil in Hin.
  - rewrite filter_cons. destruct (decide (is_nan x = true)) as [Hx|Hx].
    + simpl. split.
      * intros Hlt. destruct (proj1 IH ltac:(lia)) as (y & Hy & Hny).
        exists y. split; [by right|done].
      * intros (y & Hy & Hny).
        apply elem_of_cons in Hy as [->|Hy]; [congruence|].
        assert (length (filter (λ v, is_nan v = true) xs) < length xs)
          by (apply IH; eauto).
        lia.
    + split; [|intros _; pose proof (length_filter (λ v, is_nan v = true) xs); lia].
      intros _. exists x. split; [by left|].
      by destruct (is_nan x).
Qed.

Lemma remove_chars_idemp drop s :
  remove_chars drop (remove_chars drop s) = remove_chars drop s.
Proof.
  unfold remove_chars. rewrite list_ascii_of_string_of_list_ascii.
  f_equal. induction (list_ascii_of_string s) as [|c cs IH]; [done|].
  rewrite filter_cons. destruct (decide (drop c = false)) as [Hc|Hc].
  - rewrite filter_cons. destruct (decide (drop c = false)); [|done].
    by rewrite IH.
  - exact IH.
Qed.

(** The number read from a cell depends on its text only through the text
    without [%], [$] and [,]. *)
Lemma clean_cell_strips s :
  clean_cell (CStr s) = clean_cell (CStr (remove_chars is_symbol s)).
Proof. unfold Sheets.clean_cell. simpl. by rewrite remove_chars_idemp. Qed.

(** The three outcomes of the loop body. *)
Lemma clean_column_cases col d :
  clean_column col d = d
  ∨ ∃ j, positions col d = [j]
         ∧ (∃ v, v ∈ column_at j d ∧ is_nan (clean_cell v) = false)
         ∧ clean_column col d
           = set_column_at j (map (fun v => CNum (clean_cell v)) (column_at j d)) d.
Proof.
  unfold Sheets.clean_column.
  destruct (label_blank col); [by left|].
  destruct (positions col d) as [|j [|j' js]]; [by left| |by left].
  destruct (length (column_at j d) =? 0)%nat; [by left|].
  destruct (forallb isna (column_at j d)); [by left|].
  destruct (null_count _ <? _)%nat eqn:Hnc; [|by left].
  right. exists j. split; [done|]. split.
  - apply null_count_lt in Hnc as (x & Hx & Hnx).
    apply list_elem_of_In, in_map_iff in Hx as (v & <- & Hv).
    exists v. split; [by apply list_elem_of_In|done].
  - by rewrite map_map.
Qed.



(** Converting the columns one after the other leaves a column alone when
    none of its cells reads as a number. *)
Lemma fold_clean_column_keeps cols d j :
  (∀ v, v ∈ column_at j d → is_nan (clean_cell v) = true) →
  column_at j (foldl (fun acc col => clean_column col acc) d cols)
  = column_at j d.
Proof.
  revert d. induction cols as [|col cols IH]; intros d Hall; [done|].
  simpl.
  destruct (clean_column_cases col d)
    as [Heq|(j0 & Hpos & (v & Hv & Hnv) & Heq)]; rewrite Heq.
  - by apply IH.
  - destruct (decide (j = j0)) as [->|Hne].
    { rewrite (Hall v Hv) in Hnv. discriminate. }
    assert (Hcol : column_at j
                     (set_column_at j0
                        (map (fun v => CNum (clean_cell v)) (column_at j0 d)) d)
                   = column_at j d).
    { apply column_at_set_other; [done|].
      by rewrite length_map, length_column_at. }
    rewrite IH; [done|]. by rewrite Hcol.
Qed.

(** A column that comes out different had a cell that reads as a number. *)
Lemma fold_clean_column_changes cols d j :
  column_at j (foldl (fun acc col => clean_column col acc) d cols)
  ≠ column_at j d →
  ∃ v, v ∈ column_at j d ∧ is_nan (clean_cell v) = false.
Proof.
  intros Hchanged.
  destruct (decide (Forall (fun v => is_nan (clean_cell v) = true)
                      (column_at j d))) as [Hall|Hsome].
  - exfalso. apply Hchanged. apply fold_clean_column_keeps.
    by apply Forall_forall.
  - apply not_Forall_Exists in Hsome; [|intros v; apply _].
    apply Exists_exists in Hsome as (v & Hv & Hnv).
    exists v. split; [done|]. simpl in Hnv.
    by destruct (is_nan (clean_cell v)).
Qed.

End CleanerFacts.


Section IntFacts.







End IntFacts.




Lemma rectangular_rows_same_length d n :
  rectangular d → length (columns d) = n →
  Forall (fun r => length r = n) (rows d).
Proof. intros Hrect <-. exact Hrect. Qed.

Lemma int_or_none_all_none (xs : list cell) :
  Forall (fun v => v = CNone) xs → Ingest.int_or_none_column xs = xs.
Proof.
  intros Hall. unfold Ingest.int_or_none_column.
  assert (H : forallb Ingest.is_none xs = true).
  { apply forallb_forall. intros x Hx.
    rewrite List.Forall_forall in Hall. by rewrite (Hall x Hx). }
  by rewrite H.
Qed.

(** C7, as the code has it.  The connector's cleaner replaces a column only
    if one of its cells reads as a number: a column that comes out changed
    had such a cell, and a column in which no cell reads as a number comes
    out as it went in.  The ingest loaders have no such guard: a designated
    column is replaced by the column pandas makes of the parsed values
    whatever they are (integers, or floats with NaN where the parse failed
    beside one that did not), so a column in which no cell is an integer
    becomes all [None].  The type inference of pandas is taken as given, on
    integers that a float holds exactly. *)
Theorem column_replaced_only_if_some_cell_parses :
  (∀ (to_numeric : string → fval) (float_repr : fval → string)
     (d : DataFrame) (j : nat),
     let prepared :=
       if df_empty d then d else Sheets.drop_unnamed (Sheets.dropna_all d) in
     let d' := Sheets._clean_dataframe to_numeric float_repr d in
     (column_at j d' ≠ column_at j prepared →
      ∃ v, v ∈ column_at j prepared
           ∧ is_nan (Sheets.clean_cell to_numeric float_repr v) = false)
     ∧ ((∀ v, v ∈ column_at j prepared →
              is_nan (Sheets.clean_cell to_numeric float_repr v) = true) →
        column_at j d' = column_at j prepared))
  ∧
  (∀ (series_of_objects : list cell → list cell)
     (apply_repeated_label : string → DataFrame → res DataFrame)
     (d : DataFrame) (col : string) (j : nat),
     (∀ xs, Forall Ingest.exact_int_or_none xs →
            series_of_objects xs = Ingest.int_or_none_column xs) →
     rectangular d →
     positions (LStr col) d = [j] →
     Forall Ingest.exact_int_or_none
       (map Ingest._parse_int_safe (column_at j d)) →
     ∃ d',
       Ingest.apply_to_column series_of_objects apply_repeated_label
         Ingest._parse_int_safe col d = Ok d'
       ∧ column_at j d'
         = Ingest.int_or_none_column
             (map Ingest._parse_int_safe (column_at j d))
       ∧ ((∀ v, v ∈ column_at j d → Ingest._parse_int_safe v = CNone) →
          Forall (fun v => v = CNone) (column_at j d'))).
Proof.
  split.
  - intros tn fr d j prepared d'. subst prepared d'.
    unfold Sheets._clean_dataframe.
    destruct (df_empty d).
    { split; [done|]. intros _. done. }
    unfold Sheets.convert_columns. split.
    + apply fold_clean_column_changes.
    + apply fold_clean_column_keeps.
  - intros soo rep d col j Hspec Hrect Hpos Hexact.
    unfold Ingest.apply_to_column. rewrite Hpos, (Hspec _ Hexact).
    eexists. split; [reflexivity|].
    assert (Hlen : length (Ingest.int_or_none_column
                             (map Ingest._parse_int_safe (column_at j d)))
                   = length (rows d)).
    { unfold Ingest.int_or_none_column.
      destruct (forallb _ _); by rewrite ?length_map, length_column_at. }
    assert (Hcol : column_at j
                     (set_column_at j
                        (Ingest.int_or_none_column
                           (map Ingest._parse_int_safe (column_at j d))) d)
                   = Ingest.int_or_none_column
                       (map Ingest._parse_int_safe (column_at j d))).
    { apply column_at_set_same; [|done].
      apply (positions_in_rows (LStr col)); [done|]. rewrite Hpos. by left. }
    split; [exact Hcol|].
    intros Hall. rewrite Hcol.
    assert (Hnone : Forall (fun v => v = CNone)
                      (map Ingest._parse_int_safe (column_at j d))).
    { apply List.Forall_forall. intros v Hv.
      apply in_map_iff in Hv as (v0 & <- & Hv0).
      apply Hall. by apply list_elem_of_In. }
    by rewrite (int_or_none_all_none _ Hnone).
Qed.

Lemma column_replaced_only_if_some_cell_parses_witness :
  (let d := Frame [LStr "Name"; LStr "Score"]
              [[CStr "Ann"; CStr "95"]; [CStr "Bo"; CStr ""]] in
   column_at 0 (Sheets._clean_dataframe Numeric.decimal_literal
                  Numeric.float_repr d)
   = [CStr "Ann"; CStr "Bo"])
  ∧
  (∃ d',
     Ingest.apply_to_column Ingest.int_or_none_column
       Doubles.keep_repeated_label Ingest._parse_int_safe "jan"
       (Frame [LStr "provider"; LStr "jan"]
          [[CStr "Dr A"; CStr "12"]; [CStr "Dr B"; CStr "tbd"]]) = Ok d'
     ∧ column_at 1 d' = [CNum (FNum 12); CNum FNaN]).
Proof.
  destruct column_replaced_only_if_some_cell_parses as [Hclean Hingest].
  split.
  - destruct (Hclean Numeric.decimal_literal Numeric.float_repr
                (Frame [LStr "Name"; LStr "Score"]
                   [[CStr "Ann"; CStr "95"]; [CStr "Bo"; CStr ""]]) 0)
      as [_ Hkeep].
    apply Hkeep.
    intros v Hv. apply list_elem_of_In in Hv. simpl in Hv.
    destruct Hv as [<-|[<-|[]]]; reflexivity.
  - destruct (Hingest Ingest.int_or_none_column Doubles.keep_repeated_label
                (Frame [LStr "provider"; LStr "jan"]
                   [[CStr "Dr A"; CStr "12"]; [CStr "Dr B"; CStr "tbd"]])
                "jan"%string 1) as (d' & Hd' & Hcol & _).
    + intros xs _. reflexivity.
    + repeat constructor.
    + reflexivity.
    + change (Forall Ingest.exact_int_or_none [CNum (FNum 12); CNone]).
      apply Forall_cons. split.
      * right. exists 12%Z. split; [simpl; lia|reflexivity].
      * apply Forall_cons. split; [by left|apply Forall_nil_2].
    + exists d'. split; [exact Hd'|exact Hcol].
Defined.

(** C7 fails as stated on the ingest path: the month column of a Patient
    Count sheet that holds only text is turned into a column of [None]. *)
Lemma load_patient_count_blanks_text_column :
  let service :=
    Doubles.service_of
      (Doubles.flaky 0
         (Google.Response
            (Some [["Provider"; "Jan"]; ["Dr A"; "n/a"]; ["Dr B"; "tbd"]]
               %string))) in
  Ingest._parse_int_safe (CStr "n/a") = CNone
  ∧ Ingest._parse_int_safe (CStr "tbd") = CNone
  ∧ fst (Ingest.load_patient_count Ingest.int_or_none_column
           Doubles.keep_repeated_label service "sheet-id"
           Doubles.fresh_world)
    = Ok (Ingest.MkSheetResult "Patient Count"
            (Frame [LStr "provider"; LStr "jan"]
               [[CStr "Dr A"; CNone]; [CStr "Dr B"; CNone]])).
Proof. vm_compute. done. Qed.

(** ** The provider aggregator *)

Section ScoreFacts.

Import Processor.

Lemma fnum_eq (a b : Q) : a == b → fnum a = fnum b.
Proof. intros Heq. unfold fnum. f_equal. by apply Qred_complete. Qed.

Lemma fnum_zero (q : Q) : q == 0 → fnum q = FNum 0.
Proof. intros Hq. unfold fnum. by rewrite (Qred_complete q 0 Hq). Qed.

Lemma Qis_zero_spec (q : Q) : Qis_zero q = true ↔ q == 0.
Proof.
  unfold Qis_zero, Qeq. destruct q as [n d]. simpl.
  rewrite Z.eqb_eq. lia.
Qed.

Lemma Qis_zero_false (q : Q) : Qis_zero q = false ↔ ¬ q == 0.
Proof.
  rewrite <- Qis_zero_spec. by rewrite not_true_iff_false.
Qed.

Lemma Qis_zero_Qred (q : Q) : Qis_zero (Qred q) = Qis_zero q.
Proof.
  destruct (Qis_zero q) eqn:Hq.
  - apply Qis_zero_spec. rewrite Qred_correct. by apply Qis_zero_spec.
  - apply Qis_zero_false. rewrite Qred_correct. by apply Qis_zero_false.
Qed.

End ScoreFacts.

(** Rounding to a float never gives NaN. *)
Section FloatFacts.

Lemma shr_1_nonneg mrs : (0 ≤ shr_m mrs)%Z → (0 ≤ shr_m (shr_1 mrs))%Z.
Proof.
  destruct mrs as [m r s]. simpl. destruct m as [|p|p]; simpl; try lia.
  destruct p; simpl; lia.
Qed.

Lemma iter_shr_1_nonneg p :
  ∀ mrs, (0 ≤ shr_m mrs)%Z → (0 ≤ shr_m (SpecFloat.iter_pos shr_1 p mrs))%Z.
Proof.
  induction p as [p IH|p IH|]; intros mrs H; simpl.
  - apply IH, IH, shr_1_nonneg, H.
  - apply IH, IH, H.
  - apply shr_1_nonneg, H.
Qed.

Lemma shr_fexp_nonneg prec emax m e l :
  (0 ≤ m)%Z → (0 ≤ shr_m (fst (shr_fexp prec emax m e l)))%Z.
Proof.
  intros H. unfold shr_fexp, shr.
  assert (Hm : shr_m (shr_record_of_loc m l) = m)
    by (destruct l as [|[]]; reflexivity).
  destruct (_ - e)%Z; simpl; rewrite <- Hm in H; try exact H.
  apply iter_shr_1_nonneg, H.
Qed.

Lemma round_nearest_even_nonneg m l :
  (0 ≤ m)%Z → (0 ≤ round_nearest_even m l)%Z.
Proof.
  intros H. unfold round_nearest_even. destruct l as [|[]]; try lia.
  destruct (IntDef.Z.even m); lia.
Qed.

Lemma binary_round_aux_not_nan prec emax sx mx ex lx :
  (0 ≤ mx)%Z → F64.is_nan (binary_round_aux prec emax sx mx ex lx) = false.
Proof.
  intros H. unfold binary_round_aux.
  pose proof (shr_fexp_nonneg prec emax mx ex lx H) as H1.
  destruct (shr_fexp prec emax mx ex lx) as [mrs' e']. simpl in H1.
  pose proof (shr_fexp_nonneg prec emax
                (round_nearest_even (shr_m mrs') (loc_of_shr_record mrs'))
                e' loc_Exact (round_nearest_even_nonneg _ _ H1)) as H2.
  destruct (shr_fexp prec emax _ e' loc_Exact) as [mrs'' e'']. simpl in H2.
  destruct (shr_m mrs''); try lia; try reflexivity.
  destruct (e'' <=? emax - prec)%Z; reflexivity.
Qed.

Lemma binary_normalize_not_nan prec emax m e sz :
  F64.is_nan (binary_normalize prec emax m e sz) = false.
Proof.
  unfold binary_normalize, binary_round. destruct m; [reflexivity| |];
    destruct (shl_align _ _ _); apply binary_round_aux_not_nan; lia.
Qed.

(** A quotient is NaN only for a NaN operand, zero over zero and infinity
    over infinity. *)
Lemma div_nan (x y : F64.t) :
  F64.is_nan (F64.div x y) = true ↔
  match x, y with
  | S754_nan, _ | _, S754_nan => True
  | S754_zero _, S754_zero _ => True
  | S754_infinity _, S754_infinity _ => True
  | _, _ => False
  end.
Proof.
  unfold F64.div.
  destruct x as [sx|sx| |sx mx ex], y as [sy|sy| |sy my ey]; simpl;
    try tauto; try (split; [discriminate|tauto]).
  unfold SFdiv_core_binary.
  set (m' := match _ with 0%Z => _ | Z.pos _ => _ | Z.neg _ => _ end).
  assert (Hm : (0 ≤ m')%Z).
  { subst m'. destruct (_ - _ - _)%Z; try lia.
    change (IntDef.Z.shiftl (Z.pos mx) (Z.pos p))
      with (Z.shiftl (Z.pos mx) (Z.pos p)).
    apply Z.shiftl_nonneg. lia. }
  assert (Hq : (0 ≤ fst (IntDef.Z.div_eucl m' (Z.pos my)))%Z).
  { change (IntDef.Z.div_eucl m' (Z.pos my)) with (Z.div_eucl m' (Z.pos my)).
    apply (Z.div_pos m' (Z.pos my)); lia. }
  destruct (IntDef.Z.div_eucl m' (Z.pos my)) as [q r]. simpl in Hq.
  rewrite binary_round_aux_not_nan by exact Hq. split; [discriminate|tauto].
Qed.

Lemma hundred_eq : F64.hundred = S754_finite false 7036874417766400 (-46).
Proof. reflexivity. Qed.

Lemma mul_hundred_nan (x : F64.t) :
  F64.is_nan (F64.mul x F64.hundred) = F64.is_nan x.
Proof.
  rewrite hundred_eq. unfold F64.mul.
  destruct x as [sx|sx| |sx mx ex]; try reflexivity.
  simpl. apply binary_round_aux_not_nan. lia.
Qed.

Lemma hundred_sub_nan (y : F64.t) :
  F64.is_nan (F64.sub F64.hundred y) = F64.is_nan y.
Proof.
  rewrite hundred_eq. unfold F64.sub.
  destruct y as [sy|sy| |sy my ey]; try reflexivity.
  simpl. apply binary_normalize_not_nan.
Qed.

End FloatFacts.

Section ScoreMore.

Import Processor.

(** The number before the fill is missing exactly when the deviation or
    the mean is, or both are zero, or both are infinite. *)
Lemma raw_score_nan (s m : F64.t) :
  F64.is_nan (F64.sub F64.hundred (F64.mul (F64.div s m) F64.hundred)) = true
  ↔ (s = S754_nan ∨ m = S754_nan
     ∨ (∃ a b, s = S754_zero a ∧ m = S754_zero b)
     ∨ (∃ a b, s = S754_infinity a ∧ m = S754_infinity b)).
Proof.
  rewrite hundred_sub_nan, mul_hundred_nan, div_nan.
  destruct s as [a|a| |a ms es], m as [b|b| |b mm em];
    (split; [intros H|intros [H|[H|[(a' & b' & H & H')|(a' & b' & H & H')]]]]);
    try done; eauto 8.
Qed.

Lemma consistency_score_nan_mean std :
  consistency_score std S754_nan = F64.hundred.
Proof. by destruct std. Qed.

Lemma consistency_score_nan_std mean :
  consistency_score S754_nan mean = F64.hundred.
Proof. by destruct mean. Qed.

(** No deviation at all: the score is 100 whatever the mean. *)
Lemma consistency_score_zero_std sign mean :
  consistency_score (S754_zero sign) mean = F64.hundred.
Proof. destruct sign, mean as [[]|[]| |[] mm em]; reflexivity. Qed.

(** A mean of zero under a deviation that is a number and not zero: the
    score is an infinity. *)
Lemma consistency_score_zero_mean s ms es sign :
  consistency_score (S754_finite s ms es) (S754_zero sign)
  = S754_infinity (negb (xorb s sign)).
Proof. destruct s, sign; reflexivity. Qed.

Lemma round2_zero : F64.round2 (S754_zero false) = S754_zero false.
Proof. reflexivity. Qed.

Lemma round2_nan : F64.round2 S754_nan = S754_nan.
Proof. reflexivity. Qed.

End ScoreMore.

Section GroupFacts.

Import Processor.

Variable fsqrt : Q -> Q.
Hypothesis fsqrt_zero : fsqrt 0 == 0.

Lemma present_repeat (v : Q) n :
  present (repeat (FNum v) n) = repeat (FNum v) n.
Proof.
  unfold present. induction n as [|n IH]; [done|].
  simpl. rewrite filter_cons. simpl. by rewrite IH.
Qed.

Lemma foldl_fadd_repeat (v : Q) n :
  ∀ a, ∃ a',
    foldl fadd (FNum a) (repeat (FNum v) n) = FNum a'
    ∧ a' == a + inject_Z (Z.of_nat n) * v.
Proof.
  induction n as [|n IH]; intros a.
  - exists a. split; [done|]. simpl. ring.
  - simpl repeat. simpl foldl.
    destruct (IH (Qred (a + v))) as (a' & Hfold & Ha').
    exists a'. split; [exact Hfold|].
    rewrite Ha', Qred_correct, Nat2Z.inj_succ.
    unfold Z.succ. rewrite inject_Z_plus. ring.
Qed.

Lemma of_nat_nonzero n : ∃ q, of_nat (S n) = FNum q
                              ∧ q == inject_Z (Z.of_nat (S n))
                              ∧ Qis_zero q = false.
Proof.
  exists (Qred (inject_Z (Z.of_nat (S n)))).
  split; [done|]. split; [apply Qred_correct|].
  rewrite Qis_zero_Qred. unfold Qis_zero. simpl. lia.
Qed.

Lemma inject_Z_S_nonzero n : ¬ inject_Z (Z.of_nat (S n)) == 0.
Proof. unfold Qeq. simpl. lia. Qed.

(** The mean of [S n] copies of [v] is [v]. *)
Lemma agg_mean_repeat (v : Q) n :
  ∃ mu, agg_mean (repeat (FNum v) (S n)) = FNum mu ∧ mu == v.
Proof.
  unfold agg_mean. rewrite present_repeat.
  change (repeat (FNum v) (S n)) with (FNum v :: repeat (FNum v) n).
  cbv iota beta.
  change (FNum v :: repeat (FNum v) n) with (repeat (FNum v) (S n)).
  unfold total. change (fnum 0) with (FNum 0).
  destruct (foldl_fadd_repeat v (S n) 0) as (a' & -> & Ha').
  rewrite repeat_length.
  destruct (of_nat_nonzero n) as (q & -> & Hq & Hqz).
  unfold fdiv. rewrite Hqz.
  eexists. split; [reflexivity|].
  rewrite Qred_correct, Ha', Hq. field. apply inject_Z_S_nonzero.
Qed.

(** The deviation of two or more equal values is zero. *)
Lemma agg_std_repeat (v : Q) n :
  agg_std fsqrt (repeat (FNum v) (S (S n))) = FNum 0.
Proof using fsqrt_zero.
  unfold agg_std. rewrite present_repeat, repeat_length.
  change (S (S n) <=? 1)%nat with false. cbv iota.
  destruct (agg_mean_repeat v (S n)) as (mu & -> & Hmu).
  rewrite map_repeat.
  assert (Hdev : fsub (FNum v) (FNum mu) = FNum 0).
  { unfold fsub, fneg, fadd. apply fnum_zero.
    unfold fnum. rewrite Qred_correct, Hmu. ring. }
  rewrite Hdev. change (fmul (FNum 0) (FNum 0)) with (FNum 0).
  unfold total. change (fnum 0) with (FNum 0).
  destruct (foldl_fadd_repeat 0 (S (S n)) 0) as (a' & -> & Ha').
  replace (S (S n) - 1) with (S n) by lia.
  destruct (of_nat_nonzero n) as (q & -> & Hq & Hqz).
  unfold fdiv. rewrite Hqz.
  assert (Hzero : fnum (a' / q) = FNum 0).
  { apply fnum_zero. rewrite Ha', Hq. field. apply inject_Z_S_nonzero. }
  rewrite Hzero. unfold sqrt_val. change (Qsign_neg 0) with false. cbv iota.
  apply fnum_zero. exact fsqrt_zero.
Qed.

(** A group whose values are all equal scores exactly 100. *)
Lemma zero_variance_group_scores_100 provider (v : Q) n durations :
  Consistency_Score
    (stats_row fsqrt provider (repeat (FNum v) n) durations) = F64.hundred.
Proof using fsqrt_zero.
  unfold stats_row. simpl.
  destruct n as [|[|n]].
  - reflexivity.
  - unfold agg_std. rewrite present_repeat. simpl F64.of_fval.
    rewrite round2_nan. apply consistency_score_nan_std.
  - rewrite agg_std_repeat. simpl F64.of_fval.
    change (F64.of_Q 0) with (S754_zero false). rewrite round2_zero.
    apply consistency_score_zero_std.
Qed.

End GroupFacts.

(** C8, as the code has it.  The score column is [100 - std/mean*100]
    computed in float arithmetic from the rounded deviation and mean of the
    group, with a missing result replaced by 100.  The result is missing,
    and the score 100, exactly when the deviation or the mean is missing (a
    group of one value has no deviation), when both are zero, or when both
    are infinite.  A deviation of zero gives 100 whatever the mean, zero or
    not; a mean of zero under a deviation that is a number and not zero
    gives an infinity, not 100.  A group whose values are all equal, all 80
    say, scores exactly 100. *)
Theorem consistency_score_formula_and_fill :
  (∀ fsqrt provider counts durations,
     let row := Processor.stats_row fsqrt provider counts durations in
     Processor.Consistency_Score row
     = Processor.consistency_score (Processor.Patient_Count_std row)
         (Processor.Patient_Count_mean row)
     ∧ Processor.Patient_Count_std row
       = F64.round2 (F64.of_fval (Processor.agg_std fsqrt counts))
     ∧ Processor.Patient_Count_mean row
       = F64.round2 (F64.of_fval (Processor.agg_mean counts)))
  ∧ (∀ s m : F64.t,
       let raw :=
         F64.sub F64.hundred (F64.mul (F64.div s m) F64.hundred) in
       (F64.is_nan raw = true
        ↔ (s = S754_nan ∨ m = S754_nan
           ∨ (∃ a b, s = S754_zero a ∧ m = S754_zero b)
           ∨ (∃ a b, s = S754_infinity a ∧ m = S754_infinity b)))
       ∧ Processor.consistency_score s m
         = if F64.is_nan raw then F64.hundred else raw)
  ∧ (∀ std, Processor.consistency_score std S754_nan = F64.hundred)
  ∧ (∀ mean, Processor.consistency_score S754_nan mean = F64.hundred)
  ∧ (∀ sign mean,
       Processor.consistency_score (S754_zero sign) mean = F64.hundred)
  ∧ (∀ s ms es sign,
       Processor.consistency_score (S754_finite s ms es) (S754_zero sign)
       = S754_infinity (negb (xorb s sign)))
  ∧ (∀ (fsqrt : Q → Q) provider (v : Q) n durations,
       (fsqrt 0 == 0)%Q →
       Processor.Consistency_Score
         (Processor.stats_row fsqrt provider (repeat (FNum v) n) durations)
       = F64.hundred)
  ∧ F64.to_fval
      (Processor.Consistency_Score
         (Processor.stats_row Numeric.sqrt_6dp (CStr "Dr A")
            [FNum 80; FNum 80; FNum 80] []))
    = FNum 100.
Proof.
  split; [done|].
  split; [intros s m raw; split; [apply raw_score_nan|done]|].
  split; [apply consistency_score_nan_mean|].
  split; [apply consistency_score_nan_std|].
  split; [apply consistency_score_zero_std|].
  split; [apply consistency_score_zero_mean|].
  split; [intros; by apply zero_variance_group_scores_100|].
  vm_compute. reflexivity.
Qed.

Lemma consistency_score_formula_and_fill_witness :
  Processor.consistency_score (F64.of_Q (1414 # 100)) (F64.of_Z 20)
  = S754_finite false 8247216817622220 (-48)
  ∧ Processor.consistency_score (S754_zero false) (S754_zero false)
    = F64.hundred
  ∧ Processor.Consistency_Score
      (Processor.stats_row Numeric.sqrt_6dp (CStr "Dr B")
         (repeat (FNum 12) 4) [])
    = F64.hundred.
Proof.
  destruct consistency_score_formula_and_fill
    as (_ & Hraw & _ & _ & Hzero & _ & Hgroup & _).
  split; [|split].
  - destruct (Hraw (F64.of_Q (1414 # 100)) (F64.of_Z 20)) as [_ ->].
    reflexivity.
  - apply Hzero.
  - apply (Hgroup Numeric.sqrt_6dp (CStr "Dr B") 12%Q 4%nat []). reflexivity.
Defined.

(** C8 fails as stated for a mean of zero with a deviation that is not
    zero: the quotient is an infinity, which [fillna] leaves alone.  The
    group -1, 1 has mean 0 and deviation 1.41; so has, after rounding, the
    group of one 1 and two hundred 0, with deviation 0.07. *)
Lemma zero_mean_scores_minus_infinity :
  (let row :=
     Processor.stats_row Numeric.sqrt_6dp (CStr "Dr A")
       [FNum (-1); FNum 1] [] in
   Processor.Patient_Count_mean row = S754_zero false
   ∧ Processor.Patient_Count_std row = F64.of_Q (141 # 100)
   ∧ Processor.Consistency_Score row = S754_infinity true
   ∧ Processor.Consistency_Score row ≠ F64.hundred)
  ∧
  (let row :=
     Processor.stats_row Numeric.sqrt_6dp (CStr "Dr B")
       (FNum 1 :: repeat (FNum 0) 200) [] in
   Processor.Patient_Count_mean row = S754_zero false
   ∧ Processor.Patient_Count_std row = F64.of_Q (7 # 100)
   ∧ Processor.Consistency_Score row = S754_infinity true).
Proof. vm_compute. repeat split; discriminate. Qed.

(** ** The summary accessors *)

Section AccessorFacts.

Import Processor.

Variable fsqrt : Q -> Q.
Variable to_numeric : string -> fval.
Variable enrich_scribes : DataFrame -> res DataFrame.
Variable _process_session_data : gmap string DataFrame -> res DataFrame.
Variable scribe_metrics : DataFrame -> res (gmap string fval * team_table).
Variable session_metrics : DataFrame -> res (gmap string fval).
Variable provider_metrics : DataFrame -> res (gmap string fval).
Variable query_duplicated_label : string -> string -> DataFrame -> res DataFrame.

Local Abbreviation _process_all_data :=
  (_process_all_data fsqrt to_numeric enrich_scribes _process_session_data
     scribe_metrics session_metrics provider_metrics).
Local Abbreviation get_scribe_performance :=
  (get_scribe_performance query_duplicated_label).

(** Without a roster the constructor stores an empty table under
    ['scribes']. *)
Lemma scribes_without_roster raw_data :
  (raw_data !! "Dataset"%string = None
   ∨ ∃ d, raw_data !! "Dataset"%string = Some d ∧ df_empty d = true) →
  scribes (_process_all_data raw_data) = Some empty_frame.
Proof.
  intros Hroster. unfold Processor._process_all_data.
  assert (Hsc : _process_scribe_data enrich_scribes raw_data = Ok empty_frame).
  { unfold _process_scribe_data.
    destruct Hroster as [->|(d & -> & ->)]; done. }
  rewrite Hsc.
  repeat (match goal with
          | |- context [match ?x with _ => _ end] => destruct x
          end; simpl; try done).
Qed.

(** Without a roster the metrics, if any, hold no team comparison. *)
Lemma team_comparison_without_roster raw_data :
  (raw_data !! "Dataset"%string = None
   ∨ ∃ d, raw_data !! "Dataset"%string = Some d ∧ df_empty d = true) →
  get_team_comparison (_process_all_data raw_data) = ∅.
Proof.
  intros Hroster. unfold Processor._process_all_data.
  assert (Hsc : _process_scribe_data enrich_scribes raw_data = Ok empty_frame).
  { unfold _process_scribe_data.
    destruct Hroster as [->|(d & -> & ->)]; done. }
  rewrite Hsc.
  destruct (_process_provider_data fsqrt to_numeric raw_data) as [pr|];
    [|done].
  destruct (_process_session_data raw_data) as [se|]; [|done].
  unfold _calculate_metrics. simpl df_empty. cbv iota.
  destruct (df_empty se).
  - destruct (df_empty pr); [done|].
    destruct (provider_metrics pr); done.
  - destruct (session_metrics se); [|done].
    destruct (df_empty pr); [done|].
    destruct (provider_metrics pr); done.
Qed.

(** With one name column the query for a name is a filter: it returns, and
    returns no row when the name is absent. *)
Lemma get_scribe_performance_filters pd d n j :
  scribes pd = Some d →
  n ≠ ""%string →
  positions (LStr "Scribe Name") d = [j] →
  get_scribe_performance pd (Some n)
  = Ok (Frame (columns d)
          (filter (fun r => cell_eqb (default CNone (r !! j)) (CStr n) = true)
             (rows d))).
Proof.
  intros Hsc Hn Hpos. unfold Processor.get_scribe_performance.
  rewrite Hsc. simpl.
  apply String.eqb_neq in Hn. rewrite Hn.
  unfold rows_where_eq. by rewrite Hpos.
Qed.

End AccessorFacts.

(** C9 at its failing input.  A processor built from raw data without a
    Dataset sheet, or with an empty one, holds an empty table under
    ['scribes']; the query for one scribe then looks up the column
    ['Scribe Name'] and raises [KeyError].  The team comparison of the same
    processor is the empty mapping. *)
Theorem get_scribe_performance_raises_without_roster :
  ∀ fsqrt to_numeric enrich_scribes _process_session_data scribe_metrics
    session_metrics provider_metrics query_duplicated_label,
    let build :=
      Processor._process_all_data fsqrt to_numeric enrich_scribes
        _process_session_data scribe_metrics session_metrics
        provider_metrics in
    Processor.get_scribe_performance query_duplicated_label (build ∅)
      (Some "Ann"%string)
    = Raise (KeyError "Scribe Name")
    ∧ Processor.get_scribe_performance query_duplicated_label
        (build {[ "Dataset"%string := empty_frame ]}) (Some "Ann"%string)
      = Raise (KeyError "Scribe Name")
    ∧ Processor.get_team_comparison (build ∅) = ∅.
Proof.
  intros. subst build. split; [|split].
  - unfold Processor.get_scribe_performance.
    rewrite scribes_without_roster; [done|]. by left.
  - unfold Processor.get_scribe_performance.
    rewrite scribes_without_roster; [done|].
    right. exists empty_frame. split; [|done]. apply lookup_singleton_eq.
  - apply team_comparison_without_roster. by left.
Qed.

(** ** The connector's cache *)

Section CacheFacts.

Import Sheets.

Context {St : Type}.
Variable backend : gspread_backend St.
Variable to_numeric : string -> fval.
Variable float_repr : fval -> string.

Local Abbreviation get_sheet_data :=
  (get_sheet_data backend to_numeric float_repr).
Local Abbreviation fetch_fresh := (fetch_fresh backend to_numeric float_repr).

Lemma alloc_eq d (w : world St) :
  alloc d w
  = (fresh (dom (heap w)),
     World (backend_state w) (now w)
       (<[fresh (dom (heap w)) := d]> (heap w)) (log w)).
Proof. done. Qed.

Lemma cache_backed_alloc c (w : world St) d :
  cache_backed c w → cache_backed c (snd (alloc d w)).
Proof.
  intros Hwf k e Hk. specialize (Hwf k e Hk). simpl.
  destruct (decide (fresh (dom (heap w)) = data e)) as [Heq|Hne].
  - rewrite Heq, lookup_insert_eq. eauto.
  - by rewrite lookup_insert_ne.
Qed.

Lemma cached_not_fresh c (w : world St) k e :
  cache_backed c w → cache c !! k = Some e →
  data e ≠ fresh (dom (heap w)).
Proof.
  intros Hwf Hk Heq. specialize (Hwf k e Hk).
  apply elem_of_dom in Hwf. rewrite Heq in Hwf.
  by apply is_fresh in Hwf.
Qed.

Lemma fetch_fresh_heap c sheet_name (w : world St) :
  heap (snd (fetch_fresh c sheet_name w)) = heap w.
Proof.
  unfold Sheets.fetch_fresh.
  destruct (connected c).
  - unfold _rate_limit.
    repeat (match goal with
            | |- context [match ?x with _ => _ end] => destruct x
            end; simpl; try done).
  - destruct (_generate_sample_data _ _ _); done.
Qed.

Lemma fetch_fresh_ttl c sheet_name (w : world St) :
  cache_ttl (snd (fst (fetch_fresh c sheet_name w))) = cache_ttl c
  ∧ spreadsheet_id (snd (fst (fetch_fresh c sheet_name w)))
    = spreadsheet_id c.
Proof.
  unfold Sheets.fetch_fresh.
  destruct (connected c).
  - unfold _rate_limit.
    repeat (match goal with
            | |- context [match ?x with _ => _ end] => destruct x
            end; simpl; try done).
  - destruct (_generate_sample_data _ _ _); done.
Qed.

(** The frame handed out is a new object, no cache entry points to it, and
    the cache stays backed by the store. *)
Lemma get_sheet_data_fresh c sheet_name use_cache (w : world St) :
  cache_backed c w →
  let out := get_sheet_data c sheet_name use_cache w in
  heap w !! fst (fst out) = None
  ∧ is_Some (heap (snd out) !! fst (fst out))
  ∧ (∀ k e, cache (snd (fst out)) !! k = Some e → data e ≠ fst (fst out))
  ∧ cache_backed (snd (fst out)) (snd out).
Proof.
  intros Hwf. unfold Sheets.get_sheet_data. cbv zeta.
  destruct (use_cache && _is_cache_valid c (_get_cache_key c sheet_name) w).
  - rewrite alloc_eq. simpl.
    split; [apply not_elem_of_dom, is_fresh|].
    split; [rewrite lookup_insert_eq; eauto|].
    split.
    + intros k e Hk. by eapply cached_not_fresh.
    + by apply (cache_backed_alloc c w).
  - pose proof (fetch_fresh_heap c sheet_name w) as Hheap.
    pose proof (fetch_fresh_cache backend to_numeric float_repr c sheet_name w)
      as Hcache.
    destruct (fetch_fresh c sheet_name w) as [[r c1] w1].
    simpl in Hheap, Hcache.
    assert (Hwf1 : cache_backed c1 w1).
    { intros k e Hk. rewrite Hheap. apply (Hwf k e). by rewrite <- Hcache. }
    destruct r as [d|e].
    + rewrite alloc_eq. destruct use_cache.
      * rewrite alloc_eq. simpl.
        set (l := fresh (dom (heap w1))).
        set (lc := fresh (dom (<[l := d]> (heap w1)))).
        assert (Hlc : lc ≠ l).
        { intros Heq. pose proof (is_fresh (dom (<[l := d]> (heap w1)))) as Hf.
          fold lc in Hf. apply Hf. rewrite Heq.
          apply elem_of_dom. rewrite lookup_insert_eq. eauto. }
        split; [rewrite <- Hheap; apply not_elem_of_dom, is_fresh|].
        split; [rewrite lookup_insert_ne by done;
                rewrite lookup_insert_eq; eauto|].
        split.
        -- intros k e Hk. simpl in Hk.
           apply lookup_insert_Some in Hk as [[_ <-]|[_ Hk]]; [done|].
           by eapply cached_not_fresh.
        -- intros k e Hk. simpl in Hk |- *.
           apply lookup_insert_Some in Hk as [[_ <-]|[_ Hk]].
           ++ simpl. rewrite lookup_insert_eq. eauto.
           ++ specialize (Hwf1 k e Hk).
              destruct (decide (lc = data e)) as [->|?];
                [rewrite lookup_insert_eq; eauto|].
              rewrite lookup_insert_ne by done.
              destruct (decide (l = data e)) as [->|?];
                [rewrite lookup_insert_eq; eauto|].
              by rewrite lookup_insert_ne.
      * simpl.
        split; [rewrite <- Hheap; apply not_elem_of_dom, is_fresh|].
        split; [rewrite lookup_insert_eq; eauto|].
        split.
        -- intros k e Hk. by eapply cached_not_fresh.
        -- by apply (cache_backed_alloc c1 w1).
    + rewrite alloc_eq. simpl.
      split; [rewrite <- Hheap; apply not_elem_of_dom, is_fresh|].
      split; [rewrite lookup_insert_eq; eauto|].
      split.
      * intros k e' Hk. by eapply (cached_not_fresh c1 w1).
      * apply (cache_backed_alloc c1 (log_error _ _ w1)). exact Hwf1.
Qed.

End CacheFacts.

Section CopyFacts.

Import Sheets.

Context {St : Type}.
Variable backend : gspread_backend St.
Variable to_numeric : string -> fval.
Variable float_repr : fval -> string.

Local Abbreviation get_sheet_data :=
  (get_sheet_data backend to_numeric float_repr).
Local Abbreviation fetch_fresh := (fetch_fresh backend to_numeric float_repr).

(** A call with caching that does not end in the [except] branch leaves a
    cache entry for the sheet whose frame has the content of the frame
    handed out. *)
Lemma get_sheet_data_caches_equal_content c sheet_name (w : world St) :
  cache_backed c w →
  (_is_cache_valid c (_get_cache_key c sheet_name) w = true
   ∨ is_ok (fst (fst (fetch_fresh c sheet_name w))) = true) →
  let out := get_sheet_data c sheet_name true w in
  ∃ e,
    cache (snd (fst out)) !! _get_cache_key (snd (fst out)) sheet_name = Some e
    ∧ frame_at (data e) (snd out) = frame_at (fst (fst out)) (snd out).
Proof.
  intros Hwf Hok. unfold Sheets.get_sheet_data. cbv zeta.
  rewrite andb_true_l.
  destruct (_is_cache_valid c (_get_cache_key c sheet_name) w) eqn:Hvalid.
  - unfold _is_cache_valid in Hvalid.
    destruct (cache c !! _get_cache_key c sheet_name) as [e|] eqn:He;
      [|discriminate].
    rewrite alloc_eq. simpl. exists e. split; [done|].
    destruct (Hwf _ _ He) as [d Hd].
    unfold frame_at. simpl. rewrite Hd. simpl.
    rewrite lookup_insert_eq.
    rewrite lookup_insert_ne; [done|].
    intros Heq. symmetry in Heq. revert Heq. by eapply cached_not_fresh.
  - destruct Hok as [?|Hok]; [discriminate|].
    pose proof (fetch_fresh_ttl backend to_numeric float_repr c sheet_name w)
      as [_ Hid].
    destruct (fetch_fresh c sheet_name w) as [[r c1] w1].
    simpl in Hok, Hid. destruct r as [d|e]; [|discriminate].
    rewrite !alloc_eq. simpl.
    set (l := fresh (dom (heap w1))).
    set (lc := fresh (dom (<[l := d]> (heap w1)))).
    assert (Hlc : lc ≠ l).
    { intros Heq. pose proof (is_fresh (dom (<[l := d]> (heap w1)))) as Hf.
      fold lc in Hf. apply Hf. rewrite Heq.
      apply elem_of_dom. rewrite lookup_insert_eq. eauto. }
    exists (Entry lc (now w1)). split.
    + unfold _get_cache_key. simpl. rewrite Hid. apply lookup_insert_eq.
    + unfold frame_at. simpl. rewrite lookup_insert_eq.
      rewrite lookup_insert_ne by done. by rewrite lookup_insert_eq.
Qed.

(** Within the time to live a later call serves the cached frame, whatever
    was written meanwhile into a frame that is not the cached one. *)
Lemma get_sheet_data_ignores_mutation c sheet_name (w : world St) l d' t e :
  cache_backed c w →
  is_Some (heap w !! l) →
  cache c !! _get_cache_key c sheet_name = Some e →
  data e ≠ l →
  Qltb (t - timestamp e) (cache_ttl c) = true →
  let later := get_sheet_data c sheet_name true (mutate l d' (at_time t w)) in
  fst (fst later) ≠ l
  ∧ frame_at (fst (fst later)) (snd later) = frame_at (data e) w.
Proof.
  intros Hwf Hl He Hne Httl. unfold Sheets.get_sheet_data. cbv zeta.
  rewrite andb_true_l. unfold _is_cache_valid. rewrite He. simpl now.
  rewrite Httl. rewrite alloc_eq. simpl.
  split.
  - intros Heq.
    pose proof (is_fresh (dom (<[l := d']> (heap w)))) as Hf.
    apply Hf. rewrite Heq. apply elem_of_dom.
    rewrite lookup_insert_eq. eauto.
  - unfold frame_at. simpl. rewrite lookup_insert_eq.
    rewrite lookup_insert_ne by done.
    destruct (Hwf _ _ He) as [d Hd]. by rewrite Hd.
Qed.

End CopyFacts.

(** C10.  Starting from a connector whose cache entries all point into the
    store, the frame [get_sheet_data] returns is a new object that no cache
    entry points to, on every path.  So whatever the caller writes into it,
    a later call for the same sheet within the time to live returns, as yet
    another object, the content the cache holds; and after a call with
    caching that did not fail, that content is the content first returned. *)
Theorem returned_frame_is_a_copy :
  ∀ (St : Type) (backend : Sheets.gspread_backend St)
    (to_numeric : string → fval) (float_repr : fval → string)
    (c : Sheets.connector) (sheet_name : string) (use_cache : bool)
    (w : Sheets.world St),
    Sheets.cache_backed c w →
    let get := Sheets.get_sheet_data backend to_numeric float_repr in
    let out := get c sheet_name use_cache w in
    let l := fst (fst out) in
    let c1 := snd (fst out) in
    let w1 := snd out in
    (Sheets.heap w !! l = None
     ∧ is_Some (Sheets.frame_at l w1)
     ∧ ∀ k e, Sheets.cache c1 !! k = Some e → Sheets.data e ≠ l)
    ∧ (∀ e d' t,
         Sheets.cache c1 !! Sheets._get_cache_key c1 sheet_name = Some e →
         Sheets.Qltb (t - Sheets.timestamp e) (Sheets.cache_ttl c1) = true →
         let later :=
           get c1 sheet_name true (Sheets.mutate l d' (Sheets.at_time t w1)) in
         fst (fst later) ≠ l
         ∧ Sheets.frame_at (fst (fst later)) (snd later)
           = Sheets.frame_at (Sheets.data e) w1)
    ∧ (use_cache = true →
       (Sheets._is_cache_valid c (Sheets._get_cache_key c sheet_name) w = true
        ∨ is_ok (fst (fst (Sheets.fetch_fresh backend to_numeric float_repr
                             c sheet_name w))) = true) →
       ∃ e,
         Sheets.cache c1 !! Sheets._get_cache_key c1 sheet_name = Some e
         ∧ Sheets.frame_at (Sheets.data e) w1 = Sheets.frame_at l w1).
Proof.
  intros St backend tn fr c sheet_name use_cache w Hwf get out l c1 w1.
  destruct (get_sheet_data_fresh backend tn fr c sheet_name use_cache w Hwf)
    as (Hnew & Hsome & Hdistinct & Hwf1).
  fold get in Hnew, Hsome, Hdistinct, Hwf1.
  fold out in Hnew, Hsome, Hdistinct, Hwf1.
  fold l in Hnew, Hsome, Hdistinct. fold c1 in Hdistinct, Hwf1.
  fold w1 in Hsome, Hwf1.
  split; [by repeat split|]. split.
  - intros e d' t He Httl.
    apply (get_sheet_data_ignores_mutation backend tn fr c1 sheet_name w1
             l d' t e); try done.
    by apply (Hdistinct _ e He).
  - intros -> Hok.
    apply (get_sheet_data_caches_equal_content backend tn fr c sheet_name w
             Hwf Hok).
Qed.

Lemma returned_frame_is_a_copy_witness :
  let table := Frame [LStr "Name"; LStr "Score"]
                 [[CStr "Ann"; CNum (FNum 95)]; [CStr "Bo"; CNum FNaN]] in
  let get :=
    Sheets.get_sheet_data
      (Doubles.serving [["Name"; "Score"]; ["Ann"; "95"]; ["Bo"; ""]]%string)
      Numeric.decimal_literal Numeric.float_repr in
  let out :=
    get (Sheets.new_connector "sheet-id" true) "Scores"%string true
      Doubles.empty_store in
  let later :=
    get (snd (fst out)) "Scores"%string true
      (Sheets.mutate (fst (fst out)) empty_frame
         (Sheets.at_time 1200 (snd out))) in
  Sheets.frame_at (fst (fst out)) (snd out) = Some table
  ∧ fst (fst later) ≠ fst (fst out)
  ∧ Sheets.frame_at (fst (fst later)) (snd later) = Some table.
Proof.
  intros table get out later.
  destruct (returned_frame_is_a_copy nat
              (Doubles.serving
                 [["Name"; "Score"]; ["Ann"; "95"]; ["Bo"; ""]]%string)
              Numeric.decimal_literal Numeric.float_repr
              (Sheets.new_connector "sheet-id" true) "Scores"%string true
              Doubles.empty_store)
    as (_ & Hlater & _).
  { intros k e Hk. simpl in Hk. rewrite lookup_empty in Hk. discriminate. }
  destruct (Hlater (Sheets.Entry 1 1000) empty_frame 1200%Q) as [Hne Hframe].
  { vm_compute. reflexivity. }
  { reflexivity. }
  split; [vm_compute; reflexivity|].
  split; [exact Hne|].
  etransitivity; [exact Hframe|]. vm_compute. reflexivity.
Defined.

(** * Further properties *)

(** ** The retry wrapper: bounds and accounting *)

Section RetryMore.

Import Google.

Context {St A : Type}.
Implicit Types (fn : operation St A) (w : world St).

(** With no attempt allowed the operation is not called at all: the
    wrapper raises its own [RuntimeError] and the world is as it was. *)
Lemma with_retries_no_attempts fn attempts bd md w :
  (attempts ≤ 0)%Z →
  _with_retries fn attempts bd md w
  = (Raise (RuntimeError
       "Unknown error in _with_retries without captured exception"), w).
Proof.
  intros Hle. unfold _with_retries.
  replace (Z.to_nat attempts) with 0 by lia. done.
Qed.

(** What a run of the loop costs: at most [n] invocations, each failed one
    followed by at most one random draw and one sleep.  In a quiet setting
    every failed invocation, the last one included, is followed by exactly
    one draw and one sleep, and the loop raises only when it has run
    dry. *)
Lemma retry_loop_accounting fn attempts bd md n :
  ∀ i last w,
    let out := retry_loop fn attempts bd md n i last w in
    ∃ calls naps,
      invocations (trace (snd out)) = invocations (trace w) + calls
      ∧ sleeps (trace (snd out)) = sleeps (trace w) + naps
      ∧ calls ≤ n
      ∧ naps ≤ calls ≤ S naps
      ∧ draws w + naps ≤ draws (snd out) ≤ draws w + calls
      ∧ (is_ok (fst out) = true →
         calls = S naps ∧ draws (snd out) = draws w + naps)
      ∧ (quiet_backoff bd md w → (i + Z.of_nat n ≤ 1024)%Z →
         draws (snd out) = draws w + naps
         ∧ (is_ok (fst out) = false → calls = naps ∧ calls = n)).
Proof.
  induction n as [|n IH]; intros i last w.
  - exists 0, 0. simpl. destruct last; simpl; repeat split; lia.
  - cbv zeta.
    destruct (retry_loop_step_cases fn attempts bd md n i last w)
      as [(v & s' & _ & ->)|[(e & s' & _ & Hi & ->)
         |[(e & s' & err & _ & Hi & Hsl & ->)|(e & s' & _ & Hi & Hsl & ->)]]].
    + exists 1, 0. simpl.
      rewrite invocations_app, sleeps_app, invocations_call, sleeps_call.
      repeat split; intros; try lia; try discriminate.
    + exists 1, 0. simpl.
      rewrite invocations_app, sleeps_app, invocations_call, sleeps_call.
      repeat split; intros; try lia; try discriminate.
    + exists 1, 0. simpl.
      rewrite invocations_app, sleeps_app, invocations_warned, sleeps_warned.
      repeat split; intros; try lia; try discriminate;
        rewrite (quiet_backoff_sleeps bd md w i) in Hsl by done;
        discriminate.
    + set (w1 := World _ _ _ _).
      destruct (IH (i + 1)%Z (Some e) w1)
        as (calls & naps & Hc & Hs & Hle & Hcn & Hd & Hok & Hquiet).
      exists (S calls), (S naps).
      subst w1. simpl in Hc, Hs, Hd, Hok, Hquiet.
      rewrite invocations_app, invocations_attempt in Hc.
      rewrite sleeps_app, sleeps_attempt in Hs.
      split; [lia|]. split; [lia|]. split; [lia|]. split; [lia|].
      split; [lia|]. split.
      * intros Hr. specialize (Hok Hr). lia.
      * intros Hq Hn. destruct (Hquiet Hq ltac:(lia)) as [Hdr Hraise].
        split; [lia|]. intros Hr. specialize (Hraise Hr). lia.
Qed.

(** Every sleep of a run lasts at most 1.3 times [max_delay]. *)
Lemma retry_loop_delays fn attempts bd md n :
  (0 <= bd)%Q → (0 <= md)%Q →
  ∀ i last w,
    (∀ k, (0 <= random_source w k)%Q ∧ (random_source w k <= 1)%Q) →
    ∃ new,
      trace (snd (retry_loop fn attempts bd md n i last w)) = trace w ++ new
      ∧ Forall (GoogleMore.delay_within 0 ((13 # 10) * md)) new.
Proof.
  intros Hbd Hmd. induction n as [|n IH]; intros i last w Hrand.
  - exists []. simpl. destruct last; simpl; by rewrite app_nil_r.
  - destruct (retry_loop_step_cases fn attempts bd md n i last w)
      as [(v & s' & _ & ->)|[(e & s' & _ & Hi & ->)
         |[(e & s' & err & _ & Hi & Hsl & ->)|(e & s' & _ & Hi & Hsl & ->)]]].
    + exists [EvInvoke]. split; [done|]. by repeat constructor.
    + exists [EvInvoke]. split; [done|]. by repeat constructor.
    + eexists. split; [reflexivity|]. by repeat constructor.
    + set (w1 := World _ _ _ _).
      destruct (IH (i + 1)%Z (Some e) w1) as (new & Htr & Hall); [done|].
      rewrite Htr. subst w1. simpl. rewrite <- app_assoc.
      eexists. split; [reflexivity|].
      destruct (Hrand (draws w)) as [H0 H1].
      pose proof (backoff_delay_bounds md bd (random_source w (draws w)) i
                    Hbd Hmd H0 H1) as Hb.
      simpl. repeat (constructor; [done|]). exact Hall.
Qed.

End RetryMore.

(** X1. With [attempts <= 0] the wrapper never calls the operation: it
    raises its own [RuntimeError] and leaves the world untouched. *)
Theorem with_retries_zero_attempts_never_calls :
  ∀ (St A : Type) (fn : Google.operation St A) (attempts : Z) (bd md : Q)
    (w : Google.world St),
    (attempts ≤ 0)%Z →
    Google._with_retries fn attempts bd md w
    = (Raise (RuntimeError
         "Unknown error in _with_retries without captured exception"), w).
Proof. intros. by apply with_retries_no_attempts. Qed.

Lemma with_retries_zero_attempts_never_calls_witness :
  Google._with_retries (Doubles.flaky 0 "rows"%string) 0 (1 # 2) 5
    Doubles.fresh_world
  = (Raise (RuntimeError
       "Unknown error in _with_retries without captured exception"),
     Doubles.fresh_world).
Proof.
  apply (with_retries_zero_attempts_never_calls nat string). lia.
Defined.

(** X2. The cost of a wrapped call.  The operation is invoked at most
    [attempts] times, and each failed invocation is followed by at most one
    random draw and one sleep; a call that returns made one invocation more
    than it slept.  In a quiet setting (delays that are not negative, no
    sleep beyond a billion seconds, a random generator in [0, 1], at most
    1024 attempts) every failed invocation, the last one included, is
    followed by exactly one draw and one sleep, so a call that raises made
    exactly [attempts] invocations and as many sleeps. *)
Theorem with_retries_cost :
  ∀ (St A : Type) (fn : Google.operation St A) (attempts : Z) (bd md : Q)
    (w : Google.world St),
    let out := Google._with_retries fn attempts bd md w in
    ∃ calls naps,
      Google.invocations (Google.trace (snd out))
      = Google.invocations (Google.trace w) + calls
      ∧ Google.sleeps (Google.trace (snd out))
        = Google.sleeps (Google.trace w) + naps
      ∧ calls ≤ Z.to_nat attempts
      ∧ naps ≤ calls ≤ S naps
      ∧ Google.draws w + naps ≤ Google.draws (snd out) ≤ Google.draws w + calls
      ∧ (is_ok (fst out) = true →
         calls = S naps ∧ Google.draws (snd out) = Google.draws w + naps)
      ∧ (Google.quiet_backoff bd md w → (attempts ≤ 1024)%Z →
         Google.draws (snd out) = Google.draws w + naps
         ∧ (is_ok (fst out) = false →
            calls = naps ∧ calls = Z.to_nat attempts)).
Proof.
  intros St A fn attempts bd md w.
  destruct (retry_loop_accounting fn attempts bd md (Z.to_nat attempts)
              0%Z None w)
    as (calls & naps & Hc & Hs & Hle & Hcn & Hd & Hok & Hquiet).
  exists calls, naps. repeat (split; [done|]).
  intros Hq Hn. apply Hquiet; [done|lia].
Qed.

Lemma with_retries_cost_witness :
  let out :=
    Google._with_retries (A:=string) (Doubles.always_raises (HttpError 503))
      5 (1 # 2) 5 Doubles.fresh_world in
  ∃ calls naps,
    Google.invocations (Google.trace (snd out)) = calls
    ∧ Google.sleeps (Google.trace (snd out)) = naps
    ∧ calls = naps ∧ calls = 5.
Proof.
  destruct (with_retries_cost nat string
              (Doubles.always_raises (HttpError 503)) 5%Z (1 # 2) 5%Q
              Doubles.fresh_world)
    as (calls & naps & Hc & Hs & _ & _ & _ & _ & Hquiet).
  exists calls, naps. split; [exact Hc|]. split; [exact Hs|].
  apply Hquiet.
  - split; [discriminate|]. split; [discriminate|]. split; [discriminate|].
    intros k. split; discriminate.
  - lia.
  - reflexivity.
Defined.

(** X3. With non-negative delays and a random generator that stays in
    [0, 1], whatever the wrapper adds to the trace holds no sleep longer
    than 1.3 times [max_delay], and none that is negative. *)
Theorem with_retries_sleeps_bounded :
  ∀ (St A : Type) (fn : Google.operation St A) (attempts : Z) (bd md : Q)
    (w : Google.world St),
    (0 <= bd)%Q → (0 <= md)%Q →
    (∀ k, (0 <= Google.random_source w k)%Q
          ∧ (Google.random_source w k <= 1)%Q) →
    ∃ new,
      Google.trace (snd (Google._with_retries fn attempts bd md w))
      = Google.trace w ++ new
      ∧ Forall (GoogleMore.delay_within 0 ((13 # 10) * md)) new.
Proof. intros. by apply retry_loop_delays. Qed.

Lemma with_retries_sleeps_bounded_witness :
  ∃ new,
    Google.trace
      (snd (Google._with_retries (A:=string)
              (Doubles.always_raises (HttpError 503)) 5 (1 # 2) 5
              Doubles.fresh_world))
    = new
    ∧ Forall (GoogleMore.delay_within 0 ((13 # 10) * 5)) new.
Proof.
  destruct (with_retries_sleeps_bounded nat string
              (Doubles.always_raises (HttpError 503)) 5%Z (1 # 2) 5%Q
              Doubles.fresh_world) as (new & Htr & Hall).
  - discriminate.
  - discriminate.
  - intros k. split; discriminate.
  - exists new. split; [exact Htr|exact Hall].
Defined.

(** ** The spreadsheet identifier *)

Section SpreadsheetIdFacts.

Import SpreadsheetId.

Lemma take_while_app_stop {A} (p : A → bool) xs rest :
  Forall (fun x => p x = true) xs →
  (rest = [] ∨ ∃ y ys, rest = y :: ys ∧ p y = false) →
  take_while p (xs ++ rest) = xs.
Proof.
  intros Hall Hrest. induction Hall as [|x xs Hx Hall IH]; simpl.
  - destruct Hrest as [->|(y & ys & -> & Hy)]; [done|]. simpl. by rewrite Hy.
  - by rewrite Hx, IH.
Qed.

Lemma take_while_all {A} (p : A → bool) xs :
  Forall (fun x => p x = true) (take_while p xs).
Proof.
  induction xs as [|x xs IH]; simpl; [constructor|].
  destruct (p x) eqn:Hx; by constructor.
Qed.

Lemma search_id_found cs run :
  search_id cs = Some run →
  run ≠ [] ∧ Forall (fun c => is_id_char c = true) run.
Proof.
  induction cs as [|c cs IH]; [done|].
  intros Hs. simpl in Hs.
  repeat match type of Hs with
         | context [match ?x with _ => _ end] =>
             let E := fresh "E" in destruct x eqn:E; try (by apply IH)
         end.
  all: injection Hs as <-; split; [done|].
  all: match goal with
       | E : take_while _ _ = _ |- _ => rewrite <- E; apply take_while_all
       end.
Qed.

Lemma search_id_no_slash cs :
  Forall (fun c => is_id_char c = true) cs → search_id cs = None.
Proof.
  induction 1 as [|c cs Hc Hall IH]; [done|].
  simpl. destruct c as [[] [] [] [] [] [] [] []]; try discriminate; exact IH.
Qed.

Lemma lstrip_chars_id cs :
  (∀ c cs', cs = c :: cs' → is_space c = false) → lstrip_chars cs = cs.
Proof.
  destruct cs as [|c cs]; [done|]. intros H. simpl.
  by rewrite (H c cs).
Qed.

Lemma is_id_char_not_space c : is_id_char c = true → is_space c = false.
Proof.
  destruct c as [[] [] [] [] [] [] [] []]; vm_compute; congruence.
Qed.

Lemma strip_id_chars s :
  Forall (fun c => is_id_char c = true) (list_ascii_of_string s) →
  strip s = s.
Proof.
  intros Hall. unfold strip.
  rewrite (lstrip_chars_id (list_ascii_of_string s)).
  - rewrite (lstrip_chars_id (rev _)).
    + by rewrite rev_involutive, string_of_list_ascii_of_string.
    + intros c cs' Hrev. apply is_id_char_not_space.
      rewrite List.Forall_forall in Hall. apply Hall.
      apply in_rev. rewrite Hrev. by left.
  - intros c cs' Heq. apply is_id_char_not_space.
    rewrite Heq in Hall. by inversion Hall.
Qed.

Lemma list_ascii_of_string_app (a b : string) :
  list_ascii_of_string (a ++ b)
  = list_ascii_of_string a ++ list_ascii_of_string b.
Proof. induction a as [|c a IH]; simpl; [done|]. by rewrite IH. Qed.

End SpreadsheetIdFacts.

(** X4. From a Google Sheets address the identifier comes back: for every
    non-empty identifier made of letters, digits, [-] and [_], and every
    tail that is empty or starts with another character, the address
    [https://docs.google.com/spreadsheets/d/<id><tail>] yields [<id>]. *)
Theorem extract_spreadsheet_id_of_url :
  ∀ id tail : string,
    id ≠ ""%string →
    Forall (fun c => SpreadsheetId.is_id_char c = true)
      (list_ascii_of_string id) →
    (tail = ""%string
     ∨ ∃ c rest, tail = String c rest ∧ SpreadsheetId.is_id_char c = false) →
    SpreadsheetId.extract_spreadsheet_id
      ("https://docs.google.com/spreadsheets/d/" ++ id ++ tail)
    = id.
Proof.
  intros id tail Hne Hall Htail.
  unfold SpreadsheetId.extract_spreadsheet_id.
  change (String.eqb ("https://docs.google.com/spreadsheets/d/" ++ id ++ tail) "")
    with false. cbv iota.
  rewrite list_ascii_of_string_app. cbn [list_ascii_of_string app].
  assert (Hrun : SpreadsheetId.take_while SpreadsheetId.is_id_char
                   (list_ascii_of_string (id ++ tail))
                 = list_ascii_of_string id).
  { rewrite list_ascii_of_string_app. apply take_while_app_stop; [done|].
    destruct Htail as [->|(c & rest & -> & Hc)]; [by left|].
    right. exists c, (list_ascii_of_string rest). done. }
  cbn [SpreadsheetId.search_id]. rewrite Hrun.
  destruct (list_ascii_of_string id) as [|c cs] eqn:Hid.
  - destruct id; [done|discriminate].
  - rewrite <- Hid. apply string_of_list_ascii_of_string.
Qed.

Lemma extract_spreadsheet_id_of_url_witness :
  SpreadsheetId.extract_spreadsheet_id
    "https://docs.google.com/spreadsheets/d/17SFlto-aY_iE/edit#gid=0"
  = "17SFlto-aY_iE"%string.
Proof.
  apply (extract_spreadsheet_id_of_url "17SFlto-aY_iE" "/edit#gid=0").
  - discriminate.
  - repeat constructor.
  - right. exists "/"%char, "edit#gid=0"%string. split; reflexivity.
Defined.

(** X5. A text made of identifier characters only is returned as it is.
    And whatever the text, the result is either the text without its
    surrounding whitespace or a non-empty run of identifier characters. *)
Theorem extract_spreadsheet_id_of_plain_text :
  (∀ text : string,
     Forall (fun c => SpreadsheetId.is_id_char c = true)
       (list_ascii_of_string text) →
     SpreadsheetId.extract_spreadsheet_id text = text)
  ∧ (∀ text : string,
       SpreadsheetId.extract_spreadsheet_id text = strip text
       ∨ (SpreadsheetId.extract_spreadsheet_id text ≠ ""%string
          ∧ Forall (fun c => SpreadsheetId.is_id_char c = true)
              (list_ascii_of_string
                 (SpreadsheetId.extract_spreadsheet_id text)))).
Proof.
  split.
  - intros text Hall. unfold SpreadsheetId.extract_spreadsheet_id.
    destruct (String.eqb text "") eqn:He.
    { apply String.eqb_eq in He. by subst. }
    rewrite search_id_no_slash by done. by apply strip_id_chars.
  - intros text. unfold SpreadsheetId.extract_spreadsheet_id.
    destruct (String.eqb text "") eqn:He.
    { apply String.eqb_eq in He. subst. by left. }
    destruct (SpreadsheetId.search_id (list_ascii_of_string text))
      as [run|] eqn:Hs; [|by left].
    right. apply search_id_found in Hs as [Hne Hall].
    rewrite list_ascii_of_string_of_list_ascii. split; [|done].
    destruct run; [done|discriminate].
Qed.

Lemma extract_spreadsheet_id_of_plain_text_witness :
  SpreadsheetId.extract_spreadsheet_id "17SFlto-aY_iE" = "17SFlto-aY_iE"%string.
Proof.
  destruct extract_spreadsheet_id_of_plain_text as [Hplain _].
  apply Hplain. repeat constructor.
Defined.

(** ** The normalizer: labels and cells *)

Lemma LInt_seq_NoDup n :
  NoDup (map (fun i => LInt (Z.of_nat i)) (seq 0 n)).
Proof.
  apply NoDup_fmap_2_strong; [|apply NoDup_seq].
  intros i j _ _ Heq. injection Heq as Heq. lia.
Qed.

(** X6. The column labels of the normalizer's table are pairwise distinct,
    whatever the input: a header row is only accepted without repeated
    cells, and positional labels are the numbers from 0. *)
Theorem normalizer_labels_distinct :
  ∀ (values : list (list string)) (d : DataFrame),
    Google.values_to_dataframe values = Ok d → NoDup (columns d).
Proof.
  intros values d Hd.
  destruct (decide (values = [])) as [->|Hne].
  { injection Hd as <-. constructor. }
  rewrite (values_to_dataframe_cases values Hne) in Hd. cbv zeta in Hd.
  destruct (Google.has_headers _) eqn:Hh; injection Hd as <-; simpl.
  - apply has_headers_spec in Hh as [_ Hnd].
    apply NoDup_fmap_2_strong; [|done].
    intros a b _ _ Heq. by injection Heq.
  - apply LInt_seq_NoDup.
Qed.

Lemma normalizer_labels_distinct_witness :
  ∃ d, Google.values_to_dataframe [["A"; "B"]; ["1"]]%string = Ok d
       ∧ NoDup (columns d).
Proof.
  eexists. split; [reflexivity|].
  apply (normalizer_labels_distinct [["A"; "B"]; ["1"]]%string).
  reflexivity.
Defined.

Lemma Forall_map_CStr (rs : list (list string)) :
  Forall (Forall (fun c => ∃ s, c = CStr s)) (map (map CStr) rs).
Proof.
  apply List.Forall_forall. intros r Hr.
  apply in_map_iff in Hr as (r0 & <- & _).
  apply List.Forall_forall. intros c Hc.
  apply in_map_iff in Hc as (s & <- & _). eauto.
Qed.

(** X7. The normalizer loses nothing and invents no gap: every cell of its
    table is text, never a missing value, and the table has one row per
    input row, less the one row that became the header. *)
Theorem normalizer_cells_are_text :
  ∀ values : list (list string),
    ∃ d,
      Google.values_to_dataframe values = Ok d
      ∧ Forall (Forall (fun c => ∃ s, c = CStr s)) (rows d)
      ∧ (length (rows d) = length values
         ∨ (S (length (rows d)) = length values
            ∧ Forall (fun l => ∃ s, l = LStr s) (columns d))).
Proof.
  intros values.
  destruct (decide (values = [])) as [->|Hne].
  { exists empty_frame. repeat split; [constructor|by left]. }
  rewrite (values_to_dataframe_cases values Hne). cbv zeta.
  destruct (Google.has_headers _); eexists; (split; [reflexivity|]); simpl.
  - split; [apply Forall_map_CStr|]. right.
    destruct values as [|r0 rest]; [done|]. simpl.
    rewrite !length_map. split; [done|].
    apply List.Forall_forall. intros l Hl.
    apply in_map_iff in Hl as (s & <- & _). eauto.
  - split; [apply Forall_map_CStr|]. left. by rewrite !length_map.
Qed.

(** ** Choosing the current month *)

Section MonthFacts.

Import IngestMore.

Lemma existsb_eqb_elem (m : string) (cs : list string) :
  existsb (String.eqb m) cs = true ↔ m ∈ cs.
Proof.
  rewrite existsb_exists. split.
  - intros (x & Hin & Heq). apply String.eqb_eq in Heq. subst.
    by apply list_elem_of_In.
  - intros Hin. exists m. split; [by apply list_elem_of_In|].
    apply String.eqb_refl.
Qed.

Lemma first_present_some names cands m rest :
  first_present names cands = Some (m, rest) →
  ∃ before after,
    names = before ++ m :: after
    ∧ Forall (fun x => x ∉ cands) before
    ∧ m ∈ cands
    ∧ rest = filter (fun c => c ≠ m) cands.
Proof.
  induction names as [|n names IH]; [done|]. simpl.
  destruct (existsb (String.eqb n) cands) eqn:Hn.
  - intros [= <- <-]. exists [], names.
    repeat split; [constructor|]. by apply existsb_eqb_elem.
  - intros Hrec. destruct (IH Hrec) as (before & after & -> & Hall & Hm & Hr).
    exists (n :: before), after. repeat split; [|done|done].
    constructor; [|done]. intros Hin. apply existsb_eqb_elem in Hin.
    congruence.
Qed.

Lemma first_present_none names cands :
  first_present names cands = None ↔ Forall (fun x => x ∉ cands) names.
Proof.
  induction names as [|n names IH]; simpl; [split; [constructor|done]|].
  destruct (existsb (String.eqb n) cands) eqn:Hn.
  - split; [done|]. intros Hall. apply Forall_cons in Hall as [Hn' _].
    exfalso. apply Hn'. by apply existsb_eqb_elem.
  - rewrite IH. split.
    + intros Hall. constructor; [|done]. intros Hin.
      apply existsb_eqb_elem in Hin. congruence.
    + intros Hall. by apply Forall_cons in Hall as [_ ?].
Qed.

Lemma length_filter_lt (m : string) (cs : list string) :
  m ∈ cs → length (filter (fun c => c ≠ m) cs) < length cs.
Proof.
  induction cs as [|c cs IH]; intros Hin.
  - by apply not_elem_of_nil in Hin.
  - rewrite filter_cons. destruct (decide (c ≠ m)) as [Hne|Heq]; simpl.
    + apply elem_of_cons in Hin as [->|Hin]; [done|].
      specialize (IH Hin). lia.
    + pose proof (length_filter (fun c => c ≠ m) cs). lia.
Qed.

End MonthFacts.

(** X8. When a calendar month name is among the candidates, the title
    picked is the latest such month of the year, and the rest is the
    candidate list, in its order, without any occurrence of that title. *)
Theorem pick_current_month_title_latest_month :
  ∀ (candidates : list string) (m : string),
    m ∈ IngestMore.month_names → m ∈ candidates →
    ∃ title earlier later,
      IngestMore.pick_current_month_title candidates
      = Some (title, filter (fun c => c ≠ title) candidates)
      ∧ IngestMore.month_names = earlier ++ title :: later
      ∧ title ∈ candidates
      ∧ Forall (fun x => x ∉ candidates) later.
Proof.
  intros candidates m Hm Hc.
  unfold IngestMore.pick_current_month_title.
  destruct (IngestMore.first_present (rev IngestMore.month_names) candidates)
    as [[title rest]|] eqn:Hfp.
  - apply first_present_some in Hfp
      as (before & after & Hnames & Hall & Hin & ->).
    exists title, (rev after), (rev before).
    repeat split; [|done|].
    + rewrite <- (rev_involutive IngestMore.month_names), Hnames.
      rewrite rev_app_distr. simpl. by rewrite <- app_assoc.
    + apply List.Forall_forall. intros x Hx. apply in_rev in Hx.
      rewrite List.Forall_forall in Hall. by apply Hall.
  - exfalso. apply first_present_none in Hfp.
    rewrite List.Forall_forall in Hfp.
    apply (Hfp m); [|done]. apply in_rev. rewrite rev_involutive.
    by apply list_elem_of_In.
Qed.

Lemma pick_current_month_title_latest_month_witness :
  ∃ title earlier later,
    IngestMore.pick_current_month_title
      ["Dataset"; "July"; "August"; "Notes"]%string
    = Some (title,
            filter (fun c => c ≠ title)
              ["Dataset"; "July"; "August"; "Notes"]%string)
    ∧ IngestMore.month_names = earlier ++ title :: later
    ∧ title ∈ ["Dataset"; "July"; "August"; "Notes"]%string
    ∧ Forall (fun x => x ∉ ["Dataset"; "July"; "August"; "Notes"]%string)
        later.
Proof.
  apply (pick_current_month_title_latest_month
           ["Dataset"; "July"; "August"; "Notes"]%string "July"%string).
  - apply list_elem_of_In. vm_compute. tauto.
  - apply list_elem_of_In. vm_compute. tauto.
Defined.

(** X9. The choice fails, with the [IndexError] of [candidates[0]], exactly
    on the empty list.  Otherwise the title is one of the candidates and
    the rest is shorter than the list; and when no candidate is a month
    name, title and rest are the head and the tail of the list. *)
Theorem pick_current_month_title_fallback :
  (∀ candidates,
     IngestMore.pick_current_month_title candidates = None
     ↔ candidates = [])
  ∧ (∀ candidates title rest,
       IngestMore.pick_current_month_title candidates = Some (title, rest) →
       title ∈ candidates ∧ length rest < length candidates)
  ∧ (∀ c cs,
       Forall (fun m => m ∉ c :: cs) IngestMore.month_names →
       IngestMore.pick_current_month_title (c :: cs) = Some (c, cs)).
Proof.
  split; [|split].
  - intros candidates. unfold IngestMore.pick_current_month_title. split.
    + destruct (IngestMore.first_present _ candidates); [done|].
      by destruct candidates.
    + intros ->. reflexivity.
  - intros candidates title rest.
    unfold IngestMore.pick_current_month_title.
    destruct (IngestMore.first_present _ candidates) as [[t r]|] eqn:Hfp.
    + intros [= <- <-].
      apply first_present_some in Hfp as (_ & _ & _ & _ & Hin & ->).
      split; [done|]. by apply length_filter_lt.
    + destruct candidates as [|c cs]; [done|].
      intros [= <- <-]. split; [by left|]. simpl. lia.
  - intros c cs Hnone. unfold IngestMore.pick_current_month_title.
    assert (Hfp : IngestMore.first_present (rev IngestMore.month_names)
                    (c :: cs) = None).
    { apply first_present_none. apply List.Forall_forall. intros x Hx.
      apply in_rev in Hx. rewrite List.Forall_forall in Hnone.
      by apply Hnone. }
    by rewrite Hfp.
Qed.

Lemma pick_current_month_title_fallback_witness :
  IngestMore.pick_current_month_title ["Dataset"; "Notes"]%string
  = Some ("Dataset"%string, ["Notes"%string]).
Proof.
  destruct pick_current_month_title_fallback as (_ & _ & Hhead).
  apply Hhead.
  repeat (constructor;
          [intros Hin; apply list_elem_of_In in Hin; simpl in Hin;
           destruct Hin as [Hf|[Hf|[]]]; discriminate|]).
  constructor.
Defined.

(** ** Canonical column labels *)

Section LabelFacts.

Local Abbreviation strip_list cs :=
  (rev (lstrip_chars (rev (lstrip_chars cs)))).
Local Abbreviation head_ok cs :=
  (∀ c cs', cs = c :: cs' → is_space c = false).
Local Abbreviation underscore :=
  (fun c : ascii => if Ascii.eqb c " " then "_"%char else c).

Lemma lstrip_chars_head cs : head_ok (lstrip_chars cs).
Proof.
  induction cs as [|c cs IH]; [done|]. simpl.
  destruct (is_space c) eqn:Hc; [exact IH|].
  intros c' cs' [= <- <-]. exact Hc.
Qed.

Lemma lstrip_chars_suffix cs : ∃ sp, cs = sp ++ lstrip_chars cs.
Proof.
  induction cs as [|c cs [sp IH]]; [by exists []|]. simpl.
  destruct (is_space c).
  - exists (c :: sp). simpl. by rewrite <- IH.
  - by exists [].
Qed.

Lemma strip_list_head cs : head_ok (strip_list cs).
Proof.
  intros c cs' Heq.
  destruct (lstrip_chars_suffix (rev (lstrip_chars cs))) as [sp Hsp].
  apply (f_equal (@rev ascii)) in Hsp.
  rewrite rev_involutive, rev_app_distr, Heq in Hsp. simpl in Hsp.
  by apply (lstrip_chars_head cs c (cs' ++ rev sp)).
Qed.

Lemma strip_list_last cs : head_ok (rev (strip_list cs)).
Proof. rewrite rev_involutive. apply lstrip_chars_head. Qed.

Lemma strip_list_fixed cs :
  head_ok cs → head_ok (rev cs) → strip_list cs = cs.
Proof.
  intros Hh Hl.
  rewrite (lstrip_chars_id cs Hh), (lstrip_chars_id (rev cs) Hl).
  apply rev_involutive.
Qed.

Lemma head_ok_map (g : ascii → ascii) cs :
  (∀ c, is_space c = false → is_space (g c) = false) →
  head_ok cs → head_ok (map g cs).
Proof.
  intros Hg Hh c cs' Heq. destruct cs as [|c0 cs0]; [done|].
  injection Heq as <- <-. apply Hg. by apply (Hh c0 cs0).
Qed.

Lemma lower_char_keeps_text c :
  is_space c = false → is_space (lower_char c) = false.
Proof. destruct c as [[] [] [] [] [] [] [] []]; vm_compute; congruence. Qed.

Lemma underscore_keeps_text c :
  is_space c = false → is_space (underscore c) = false.
Proof. destruct c as [[] [] [] [] [] [] [] []]; vm_compute; congruence. Qed.

Lemma canonical_char_fixed c :
  underscore (lower_char (underscore (lower_char c)))
  = underscore (lower_char c)
  ∧ underscore (lower_char c) ≠ " "%char
  ∧ lower_char (underscore (lower_char c)) = underscore (lower_char c).
Proof.
  destruct c as [[] [] [] [] [] [] [] []]; vm_compute;
    repeat split; congruence.
Qed.

(** The text of a canonical label, on characters. *)
Lemma canonical_text s :
  list_ascii_of_string (spaces_to_underscores (lower (strip s)))
  = map underscore (map lower_char (strip_list (list_ascii_of_string s))).
Proof.
  unfold spaces_to_underscores, lower, strip.
  by rewrite !list_ascii_of_string_of_list_ascii.
Qed.

Lemma canonical_text_fixed s :
  let t := spaces_to_underscores (lower (strip s)) in
  spaces_to_underscores (lower (strip t)) = t.
Proof.
  cbv zeta.
  rewrite <- (string_of_list_ascii_of_string
                (spaces_to_underscores (lower (strip (spaces_to_underscores
                                                        (lower (strip s))))))).
  rewrite <- (string_of_list_ascii_of_string
                (spaces_to_underscores (lower (strip s)))) at 2.
  f_equal. rewrite canonical_text, (canonical_text s).
  set (T := strip_list (list_ascii_of_string s)).
  rewrite strip_list_fixed.
  - rewrite !map_map. apply map_ext. intros c.
    apply canonical_char_fixed.
  - apply head_ok_map; [apply underscore_keeps_text|].
    apply head_ok_map; [apply lower_char_keeps_text|].
    apply strip_list_head.
  - rewrite <- !map_rev.
    apply head_ok_map; [apply underscore_keeps_text|].
    apply head_ok_map; [apply lower_char_keeps_text|].
    apply strip_list_last.
Qed.

End LabelFacts.

(** X10. Label normalisation is idempotent, and a normalised label is text
    without a space and without a letter that [lower] would change. *)
Theorem normalize_label_canonical :
  ∀ l : label,
    Ingest.normalize_label (Ingest.normalize_label l)
    = Ingest.normalize_label l
    ∧ ∃ s, Ingest.normalize_label l = LStr s
           ∧ Forall (fun c => c ≠ " "%char ∧ lower_char c = c)
               (list_ascii_of_string s).
Proof.
  intros l. unfold Ingest.normalize_label. split.
  - f_equal. simpl str_of_label at 1. apply canonical_text_fixed.
  - eexists. split; [reflexivity|].
    rewrite canonical_text, map_map.
    apply List.Forall_forall. intros c Hc.
    apply in_map_iff in Hc as (c0 & <- & _).
    destruct (canonical_char_fixed c0) as (_ & Hsp & Hlow). done.
Qed.

(** ** The ingest loaders *)

Section LoaderFacts.

Lemma values_to_dataframe_total (values : list (list string)) :
  ∃ d, Google.values_to_dataframe values = Ok d ∧ rectangular d.
Proof.
  destruct (decide (values = [])) as [->|Hne].
  { exists empty_frame. split; [done|constructor]. }
  rewrite (values_to_dataframe_cases values Hne). cbv zeta.
  pose proof (padded_uniform ""%string values) as Hall.
  set (padded := map (pad_right ""%string (max_len values)) values) in *.
  destruct (Google.has_headers _); eexists; (split; [reflexivity|]);
    unfold rectangular; simpl.
  - rewrite length_map.
    destruct padded as [|h t]; [constructor|]. simpl.
    apply Forall_cons in Hall as [Hh Ht]. rewrite Hh.
    by apply Forall_map_length.
  - rewrite length_map, length_seq. by apply Forall_map_length.
Qed.

Lemma positions_from_notin l ls j0 :
  l ∉ ls → positions_from l ls j0 = [].
Proof.
  revert j0. induction ls as [|l' ls IH]; intros j0 Hnin; [done|]. simpl.
  apply not_elem_of_cons in Hnin as [Hne Hnin].
  destruct (decide (l' = l)); [congruence|]. by apply IH.
Qed.

Lemma positions_from_NoDup l ls j0 :
  NoDup ls →
  ((l ∉ ls) ∧ positions_from l ls j0 = [])
  ∨ (∃ k, ls !! k = Some l ∧ positions_from l ls j0 = [j0 + k]).
Proof.
  intros Hnd. revert j0.
  induction Hnd as [|l' ls Hnin Hnd IH]; intros j0.
  - left. split; [apply not_elem_of_nil|done].
  - simpl. destruct (decide (l' = l)) as [->|Hne].
    + right. exists 0. split; [done|].
      rewrite (positions_from_notin l ls (S j0) Hnin). f_equal. lia.
    + destruct (IH (S j0)) as [[Hn Hp]|(k & Hk & Hp)].
      * left. split; [|done]. apply not_elem_of_cons. split; [congruence|done].
      * right. exists (S k). split; [done|]. rewrite Hp. f_equal. lia.
Qed.

Lemma rectangular_set_column_at j vals d :
  rectangular d → length vals = length (rows d) →
  rectangular (set_column_at j vals d).
Proof.
  unfold rectangular. simpl. intros Hrect. revert vals.
  induction Hrect as [|r rs Hr Hrect IH]; intros [|v vals] Hlen;
    simpl in *; try done; try constructor.
  - by rewrite length_insert.
  - apply IH. lia.
Qed.

Lemma length_rows_set_column_at j vals d :
  length vals = length (rows d) →
  length (rows (set_column_at j vals d)) = length (rows d).
Proof. intros Hlen. simpl. rewrite length_zip_with. lia. Qed.

Variable series_of_objects : list cell → list cell.
Variable apply_repeated_label : string → DataFrame → res DataFrame.
Hypothesis series_length :
  ∀ xs, length (series_of_objects xs) = length xs.

(** Coercing a list of distinct labels touches exactly the columns so
    labelled, in a table whose labels are distinct. *)
Lemma apply_to_columns_spec (f : cell → cell) (cols : list string) :
  NoDup cols →
  ∀ d,
    NoDup (columns d) → rectangular d →
    ∃ d',
      Ingest.apply_to_columns series_of_objects apply_repeated_label f cols d
      = Ok d'
      ∧ columns d' = columns d
      ∧ length (rows d') = length (rows d)
      ∧ ∀ j l, columns d !! j = Some l →
          (l ∈ map LStr cols →
           column_at j d' = series_of_objects (map f (column_at j d)))
          ∧ (l ∉ map LStr cols → column_at j d' = column_at j d).
Proof using series_length.
  induction 1 as [|col cols Hnin Hnd IH]; intros d Hlabels Hrect.
  - exists d. split; [done|]. split; [done|]. split; [done|].
    intros j l _. split; [|done].
    intros Hin. by apply not_elem_of_nil in Hin.
  - simpl. unfold Ingest.apply_to_column, positions.
    destruct (positions_from_NoDup (LStr col) (columns d) 0 Hlabels)
      as [[Hn ->]|(k & Hk & ->)].
    + destruct (IH d Hlabels Hrect) as (d' & -> & Hc & Hr & Hcols).
      exists d'. repeat split; try done.
      * intros Hin. apply elem_of_cons in Hin as [->|Hin].
        -- exfalso. apply Hn. by eapply list_elem_of_lookup_2.
        -- by apply (Hcols j l).
      * intros Hnin'. apply not_elem_of_cons in Hnin' as [_ Hnin'].
        by apply (Hcols j l).
    + simpl Nat.add.
      set (d1 := set_column_at k
                    (series_of_objects (map f (column_at k d))) d).
      assert (Hlen : length (series_of_objects (map f (column_at k d)))
                     = length (rows d))
        by (by rewrite series_length, length_map, length_column_at).
      assert (Hrect1 : rectangular d1)
        by (by apply rectangular_set_column_at).
      destruct (IH d1 Hlabels Hrect1) as (d' & -> & Hc & Hr & Hcols).
      exists d'. split; [done|]. split; [done|].
      split; [by rewrite Hr; apply length_rows_set_column_at|].
      intros j l Hj.
      assert (Hcol_notin : LStr col ∉ map LStr cols).
      { intros Hin. apply list_elem_of_In, in_map_iff in Hin
          as (c & [= ->] & Hc'). by apply Hnin, list_elem_of_In. }
      destruct (decide (j = k)) as [->|Hne].
      * assert (l = LStr col) as -> by congruence.
        destruct (Hcols k (LStr col) Hk) as [_ Hkeep].
        assert (Hsame : column_at k d1
                        = series_of_objects (map f (column_at k d))).
        { apply column_at_set_same; [|done].
          apply (positions_in_rows (LStr col)); [done|].
          unfold positions.
          destruct (positions_from_NoDup (LStr col) (columns d) 0 Hlabels)
            as [[Hn _]|(k' & Hk' & ->)].
          - exfalso. apply Hn. by eapply list_elem_of_lookup_2.
          - assert (k' = k) as ->
              by (eapply NoDup_lookup; eauto).
            by left. }
        split.
        -- intros _. by rewrite (Hkeep Hcol_notin).
        -- intros Hnin'. exfalso. apply Hnin'. by left.
      * assert (Hother : column_at j d1 = column_at j d)
          by (by apply column_at_set_other).
        assert (Hl : l ≠ LStr col).
        { intros ->. apply Hne. eapply NoDup_lookup; eauto. }
        destruct (Hcols j l Hj) as [Hdo Hkeep].
        split.
        -- intros Hin. apply elem_of_cons in Hin as [->|Hin]; [done|].
           by rewrite (Hdo Hin), Hother.
        -- intros Hnin'. apply not_elem_of_cons in Hnin' as [_ Hnin'].
           by rewrite (Hkeep Hnin'), Hother.
Qed.

End LoaderFacts.

(** X11. [load_dataset] raises exactly what the fetch raises, with the
    world the fetch left.  When the fetch returns rows it returns a table
    with the rows of the normalizer's table and its labels normalised: the
    table is rectangular, and normalising a label of it again changes
    nothing. *)
Theorem load_dataset_follows_fetch :
  ∀ (St : Type) (service : Google.sheets_service St) (id : string)
    (w : Google.world St),
    let fetched := Google.fetch_values service id "Dataset" w in
    let loaded := IngestMore.load_dataset service id w in
    snd loaded = snd fetched
    ∧ (∀ e, fst loaded = Raise e ↔ fst fetched = Raise e)
    ∧ (∀ values,
         fst fetched = Ok values →
         ∃ d d',
           Google.values_to_dataframe values = Ok d
           ∧ fst loaded = Ok (Ingest.MkSheetResult "Dataset" d')
           ∧ rows d' = rows d
           ∧ columns d' = map Ingest.normalize_label (columns d)
           ∧ rectangular d'
           ∧ Forall (fun l => Ingest.normalize_label l = l) (columns d')).
Proof.
  intros St service id w fetched loaded. subst fetched loaded.
  unfold IngestMore.load_dataset.
  destruct (Google.fetch_values service id "Dataset" w) as [[values|e] w'].
  - destruct (values_to_dataframe_total values) as (d & Hd & Hrect).
    rewrite Hd. simpl. split; [done|]. split; [done|].
    intros values' [= <-]. exists d, (Ingest.normalize_columns d).
    split; [done|]. split; [done|]. split; [done|]. split; [done|]. split.
    + unfold rectangular, Ingest.normalize_columns. simpl.
      by rewrite length_map.
    + simpl. apply List.Forall_forall. intros l Hl.
      apply in_map_iff in Hl as (l0 & <- & _).
      unfold Ingest.normalize_label. f_equal.
      simpl str_of_label at 1. apply canonical_text_fixed.
  - simpl. split; [done|].
    split; [intros e0; split; intros [= ->]; reflexivity|].
    intros values Hv. discriminate.
Qed.

Lemma load_dataset_follows_fetch_witness :
  ∃ d d',
    Google.values_to_dataframe [[" Scribe Name"; "Team"]; ["Ann"; "A"]]%string
    = Ok d
    ∧ fst (IngestMore.load_dataset
             (Doubles.service_of
                (Doubles.flaky 0
                   (Google.Response
                      (Some [[" Scribe Name"; "Team"]; ["Ann"; "A"]]%string))))
             "sheet-id" Doubles.fresh_world)
      = Ok (Ingest.MkSheetResult "Dataset" d')
    ∧ rows d' = rows d
    ∧ columns d' = map Ingest.normalize_label (columns d)
    ∧ rectangular d'
    ∧ Forall (fun l => Ingest.normalize_label l = l) (columns d').
Proof.
  destruct (load_dataset_follows_fetch nat
              (Doubles.service_of
                 (Doubles.flaky 0
                    (Google.Response
                       (Some [[" Scribe Name"; "Team"]; ["Ann"; "A"]]%string))))
              "sheet-id"%string Doubles.fresh_world) as (_ & _ & Hok).
  apply (Hok [[" Scribe Name"; "Team"]; ["Ann"; "A"]]%string).
  vm_compute. reflexivity.
Defined.

(** X12. On a Patient Count sheet whose normalised labels are pairwise
    distinct, [load_patient_count] returns; the table keeps its labels
    (normalised) and its number of rows, each month column is the column
    pandas makes of the safely parsed cells, and every other column is
    exactly as read.  With the type inference of pandas taken as given, a
    month column whose integers a float holds exactly is all integers, all
    [None], or floats with NaN where the parse failed. *)
Theorem load_patient_count_touches_month_columns_only :
  ∀ (series_of_objects : list cell → list cell)
    (apply_repeated_label : string → DataFrame → res DataFrame)
    (St : Type) (service : Google.sheets_service St) (id : string)
    (w w' : Google.world St) (values : list (list string)) (d : DataFrame),
    (∀ xs, length (series_of_objects xs) = length xs) →
    (∀ xs, Forall Ingest.exact_int_or_none xs →
           series_of_objects xs = Ingest.int_or_none_column xs) →
    Google.fetch_values service id "Patient Count" w = (Ok values, w') →
    Google.values_to_dataframe values = Ok d →
    NoDup (map Ingest.normalize_label (columns d)) →
    ∃ d',
      Ingest.load_patient_count series_of_objects apply_repeated_label
        service id w
      = (Ok (Ingest.MkSheetResult "Patient Count" d'), w')
      ∧ columns d' = map Ingest.normalize_label (columns d)
      ∧ length (rows d') = length (rows d)
      ∧ ∀ j l, columns d' !! j = Some l →
          (l ∈ map LStr Ingest.month_columns →
           column_at j d'
           = series_of_objects (map Ingest._parse_int_safe (column_at j d))
           ∧ (Forall Ingest.exact_int_or_none
                (map Ingest._parse_int_safe (column_at j d)) →
              column_at j d'
              = Ingest.int_or_none_column
                  (map Ingest._parse_int_safe (column_at j d))))
          ∧ (l ∉ map LStr Ingest.month_columns →
             column_at j d' = column_at j d).
Proof.
  intros soo rep St service id w w' values d Hlen Hspec Hfetch Hd Hnd.
  unfold Ingest.load_patient_count. rewrite Hfetch, Hd.
  destruct (values_to_dataframe_total values) as (d0 & Hd0 & Hrect).
  assert (d0 = d) as -> by congruence.
  assert (Hrect' : rectangular (Ingest.normalize_columns d)).
  { unfold rectangular, Ingest.normalize_columns. simpl.
    by rewrite length_map. }
  assert (Hmonths : NoDup Ingest.month_columns).
  { apply NoDup_ListNoDup. repeat constructor; simpl; intuition discriminate. }
  destruct (apply_to_columns_spec soo rep Hlen Ingest._parse_int_safe
              Ingest.month_columns Hmonths (Ingest.normalize_columns d)
              Hnd Hrect')
    as (d' & -> & Hc & Hr & Hcols).
  exists d'. split; [done|]. split; [done|]. split; [done|].
  intros j l Hj. rewrite Hc in Hj.
  destruct (Hcols j l Hj) as [Hdo Hkeep]. split; [|exact Hkeep].
  intros Hin. split; [by apply Hdo|].
  intros Hexact. rewrite (Hdo Hin). by apply Hspec.
Qed.

Lemma load_patient_count_touches_month_columns_only_witness :
  ∃ d',
    Ingest.load_patient_count Ingest.int_or_none_column
      Doubles.keep_repeated_label
      (Doubles.service_of
         (Doubles.flaky 0
            (Google.Response
               (Some [["Provider"; "Jan"]; ["Dr A"; "12"]; ["Dr B"; "n/a"]]
                  %string))))
      "sheet-id" Doubles.fresh_world
    = (Ok (Ingest.MkSheetResult "Patient Count" d'),
       Google.World 1 (fun _ => 1 # 2) 0 [Google.EvInvoke])
    ∧ columns d' = [LStr "provider"; LStr "jan"]
    ∧ column_at 0 d' = [CStr "Dr A"; CStr "Dr B"]
    ∧ column_at 1 d' = [CNum (FNum 12); CNum FNaN].
Proof.
  destruct (load_patient_count_touches_month_columns_only
              Ingest.int_or_none_column Doubles.keep_repeated_label nat
              (Doubles.service_of
                 (Doubles.flaky 0
                    (Google.Response
                       (Some [["Provider"; "Jan"]; ["Dr A"; "12"];
                              ["Dr B"; "n/a"]]%string))))
              "sheet-id"%string Doubles.fresh_world
              (Google.World 1 (fun _ => 1 # 2) 0 [Google.EvInvoke])
              [["Provider"; "Jan"]; ["Dr A"; "12"]; ["Dr B"; "n/a"]]%string
              (Frame [LStr "Provider"; LStr "Jan"]
                 [[CStr "Dr A"; CStr "12"]; [CStr "Dr B"; CStr "n/a"]]))
    as (d' & Hload & Hc & _ & Hcols).
  - intros xs. unfold Ingest.int_or_none_column.
    destruct (forallb _ _); by rewrite ?length_map.
  - intros xs _. reflexivity.
  - reflexivity.
  - reflexivity.
  - apply NoDup_ListNoDup. repeat constructor; simpl; intuition discriminate.
  - exists d'. split; [exact Hload|]. split; [exact Hc|]. split.
    + destruct (Hcols 0 (LStr "provider")) as [_ Hkeep];
        [by rewrite Hc|].
      apply Hkeep. intros Hin. apply list_elem_of_In in Hin. simpl in Hin.
      intuition discriminate.
    + destruct (Hcols 1 (LStr "jan")) as [Hdo _];
        [by rewrite Hc|].
      destruct Hdo as [Heq _]; [apply list_elem_of_In; simpl; by left|].
      rewrite Heq. reflexivity.
Defined.

(** X13. Whatever the environment holds, the refresh interval of the
    settings lies between 2 and 60 seconds; it is 5 when [REFRESH_SECS] is
    unset or is no integer, and the clamped value otherwise.  A non-empty
    [SPREADSHEET_ID] decides the identifier whatever the other aliases
    say. *)
Theorem load_settings_refresh_clamped :
  (∀ root environ,
     (2 ≤ Config.refresh_secs (Config.load_settings root environ) ≤ 60)%Z)
  ∧ (∀ root environ,
       (environ !! "REFRESH_SECS"%string = None
        ∨ ∃ v, environ !! "REFRESH_SECS"%string = Some v
               ∧ py_int_of_string (strip v) = None) →
       Config.refresh_secs (Config.load_settings root environ) = 5%Z)
  ∧ (∀ root environ v n,
       environ !! "REFRESH_SECS"%string = Some v →
       py_int_of_string (strip v) = Some n →
       Config.refresh_secs (Config.load_settings root environ)
       = Z.max 2 (Z.min 60 n))
  ∧ (∀ root environ v,
       environ !! "SPREADSHEET_ID"%string = Some v → v ≠ ""%string →
       Config.spreadsheet_id (Config.load_settings root environ)
       = Config.strip_char "'" (Config.strip_char "034" (strip v))).
Proof.
  split; [|split; [|split]].
  - intros. simpl. lia.
  - intros root environ Hraw. simpl. unfold Config.getenv_or.
    destruct Hraw as [->|(v & -> & Hv)]; [reflexivity|].
    destruct (String.eqb v ""); [reflexivity|]. by rewrite Hv.
  - intros root environ v n Hv Hn. simpl. unfold Config.getenv_or.
    rewrite Hv. destruct (String.eqb v "") eqn:He.
    + apply String.eqb_eq in He. subst v. discriminate.
    + by rewrite Hn.
  - intros root environ v Hv Hne. simpl. unfold Config.getenv_or at 1.
    rewrite Hv. apply String.eqb_neq in Hne. by rewrite Hne.
Qed.

Lemma load_settings_refresh_clamped_witness :
  Config.refresh_secs
    (Config.load_settings ["app"%string]
       {[ "REFRESH_SECS"%string := "five"%string ]}) = 5%Z
  ∧ Config.refresh_secs
      (Config.load_settings ["app"%string]
         {[ "REFRESH_SECS"%string := " 300 "%string ]}) = 60%Z
  ∧ Config.spreadsheet_id
      (Config.load_settings ["app"%string]
         {[ "SPREADSHEET_ID"%string := " 'abc' "%string ]}) = "abc"%string.
Proof.
  destruct load_settings_refresh_clamped as (_ & Hdefault & Hclamp & Hid).
  split; [|split].
  - apply Hdefault. right. exists "five"%string.
    split; [apply lookup_singleton_eq|reflexivity].
  - rewrite (Hclamp ["app"%string] _ " 300 "%string 300%Z);
      [reflexivity|apply lookup_singleton_eq|reflexivity].
  - rewrite (Hid ["app"%string] _ " 'abc' "%string);
      [reflexivity|apply lookup_singleton_eq|discriminate].
Defined.

(** ** The connector: pacing and cache *)

Section ConnectorFacts.

Import Sheets.

Context {St : Type}.
Variable backend : gspread_backend St.
Variable to_numeric : string -> fval.
Variable float_repr : fval -> string.

Local Abbreviation get_sheet_data :=
  (get_sheet_data backend to_numeric float_repr).
Local Abbreviation fetch_fresh := (fetch_fresh backend to_numeric float_repr).

Lemma Qltb_true (x y : Q) : Qltb x y = true ↔ (x < y)%Q.
Proof.
  unfold Qltb. rewrite negb_true_iff, <- not_true_iff_false, Qle_bool_iff.
  split; [apply Qnot_le_lt|apply Qlt_not_le].
Qed.

Lemma Qltb_false (x y : Q) : Qltb x y = false ↔ (y <= x)%Q.
Proof.
  unfold Qltb. rewrite negb_false_iff, Qle_bool_iff. done.
Qed.

(** After [_rate_limit] the clock stands at least [min_request_interval]
    after the previous request, it has not gone back, and that time is
    the new request time. *)
Lemma rate_limit_spacing c (w : world St) :
  let out := _rate_limit c w in
  (last_request_time c + min_request_interval c <= now (snd out))%Q
  ∧ (now w <= now (snd out))%Q
  ∧ last_request_time (fst out) = now (snd out)
  ∧ cache (fst out) = cache c
  ∧ heap (snd out) = heap w
  ∧ backend_state (snd out) = backend_state w.
Proof.
  unfold _rate_limit. cbv zeta.
  destruct (Qltb (now w - last_request_time c) (min_request_interval c))
    eqn:Hlt; simpl.
  - apply Qltb_true in Hlt. repeat split; lra.
  - apply Qltb_false in Hlt. repeat split; lra.
Qed.

(** A valid entry is served from the store: no remote call, no waiting, the
    connector as it was. *)
Lemma get_sheet_data_hit c sheet_name (w : world St) e :
  cache_backed c w →
  cache c !! _get_cache_key c sheet_name = Some e →
  Qltb (now w - timestamp e) (cache_ttl c) = true →
  let out := get_sheet_data c sheet_name true w in
  snd (fst out) = c
  ∧ backend_state (snd out) = backend_state w
  ∧ now (snd out) = now w
  ∧ log (snd out) = log w
  ∧ frame_at (fst (fst out)) (snd out) = frame_at (data e) w.
Proof.
  intros Hwf He Httl. unfold Sheets.get_sheet_data. cbv zeta.
  unfold _is_cache_valid. rewrite He, Httl. simpl andb. cbv iota.
  rewrite alloc_eq. simpl. repeat split.
  destruct (Hwf _ _ He) as [d Hd].
  unfold frame_at. simpl. rewrite Hd. simpl. apply lookup_insert_eq.
Qed.

(** Without a valid entry, or without caching, the call is decided by the
    fetch: its table on success, an empty one on failure. *)
Lemma get_sheet_data_miss c sheet_name use_cache (w : world St) :
  use_cache && _is_cache_valid c (_get_cache_key c sheet_name) w = false →
  let out := get_sheet_data c sheet_name use_cache w in
  let fetched := fetch_fresh c sheet_name w in
  backend_state (snd out) = backend_state (snd fetched)
  ∧ now (snd out) = now (snd fetched)
  ∧ frame_at (fst (fst out)) (snd out)
    = Some (match fst (fst fetched) with
            | Ok d => d
            | Raise _ => empty_frame
            end)
  ∧ match fst (fst fetched) with
    | Ok d =>
        if use_cache then
          ∃ e, cache (snd (fst out)) !! _get_cache_key c sheet_name = Some e
               ∧ timestamp e = now (snd fetched)
               ∧ frame_at (data e) (snd out) = Some d
        else cache (snd (fst out)) = cache c
    | Raise _ => cache (snd (fst out)) = cache c
    end.
Proof.
  intros Hmiss. unfold Sheets.get_sheet_data. cbv zeta. rewrite Hmiss.
  pose proof (fetch_fresh_cache backend to_numeric float_repr c sheet_name w)
    as Hcache.
  destruct (fetch_fresh c sheet_name w) as [[r c1] w1].
  simpl in Hcache. destruct r as [d|e].
  - rewrite alloc_eq. destruct use_cache.
    + rewrite alloc_eq. simpl.
      set (l := fresh (dom (heap w1))).
      set (lc := fresh (dom (<[l := d]> (heap w1)))).
      assert (Hlc : lc ≠ l).
      { intros Heq. pose proof (is_fresh (dom (<[l := d]> (heap w1)))) as Hf.
        fold lc in Hf. apply Hf. rewrite Heq.
        apply elem_of_dom. rewrite lookup_insert_eq. eauto. }
      repeat split.
      * unfold frame_at. simpl. rewrite lookup_insert_ne by done.
        apply lookup_insert_eq.
      * exists (Entry lc (now w1)). split; [apply lookup_insert_eq|].
        split; [done|]. unfold frame_at. simpl. apply lookup_insert_eq.
    + simpl. repeat split; [|done].
      unfold frame_at. simpl. apply lookup_insert_eq.
  - rewrite alloc_eq. simpl. repeat split; [|done].
    unfold frame_at. simpl. apply lookup_insert_eq.
Qed.

End ConnectorFacts.

(** X14. [_rate_limit] keeps requests apart: when it returns, the clock
    stands at least [min_request_interval] after the previous request time
    and has not gone back; that moment becomes the new request time; cache,
    store and remote are untouched. *)
Theorem rate_limit_keeps_requests_apart :
  ∀ (St : Type) (c : Sheets.connector) (w : Sheets.world St),
    let out := Sheets._rate_limit c w in
    (Sheets.last_request_time c + Sheets.min_request_interval c
     <= Sheets.now (snd out))%Q
    ∧ (Sheets.now w <= Sheets.now (snd out))%Q
    ∧ Sheets.last_request_time (fst out) = Sheets.now (snd out)
    ∧ Sheets.cache (fst out) = Sheets.cache c
    ∧ Sheets.heap (snd out) = Sheets.heap w
    ∧ Sheets.backend_state (snd out) = Sheets.backend_state w.
Proof. intros. apply rate_limit_spacing. Qed.

(** X15. A read with caching that finds an entry younger than the time to
    live is served from the store: the remote is not called, no time
    passes, nothing is logged, the connector is unchanged, and the frame
    handed out has the content of the cached one. *)
Theorem get_sheet_data_serves_valid_entry :
  ∀ (St : Type) (backend : Sheets.gspread_backend St)
    (to_numeric : string → fval) (float_repr : fval → string)
    (c : Sheets.connector) (sheet_name : string) (w : Sheets.world St)
    (e : Sheets.cache_entry),
    Sheets.cache_backed c w →
    Sheets.cache c !! Sheets._get_cache_key c sheet_name = Some e →
    (Sheets.now w - Sheets.timestamp e < Sheets.cache_ttl c)%Q →
    let out :=
      Sheets.get_sheet_data backend to_numeric float_repr c sheet_name true w in
    snd (fst out) = c
    ∧ Sheets.backend_state (snd out) = Sheets.backend_state w
    ∧ Sheets.now (snd out) = Sheets.now w
    ∧ Sheets.log (snd out) = Sheets.log w
    ∧ Sheets.frame_at (fst (fst out)) (snd out)
      = Sheets.frame_at (Sheets.data e) w.
Proof.
  intros St backend tn fr c sheet_name w e Hwf He Httl.
  apply get_sheet_data_hit; [done|done|]. by apply Qltb_true.
Qed.

Lemma get_sheet_data_serves_valid_entry_witness :
  let table := Frame [LStr "Name"] [[CStr "Ann"]] in
  let c :=
    Sheets.Connector "sheet-id"
      {[ "Scores_None_sheet-id"%string := Sheets.Entry 0 900 ]}
      300 900 1 true in
  let w := Sheets.World 7%nat 1000 {[ 0%nat := table ]} [] in
  let out :=
    Sheets.get_sheet_data Doubles.no_such_tab Numeric.decimal_literal
      Numeric.float_repr c "Scores" true w in
  Sheets.backend_state (snd out) = 7%nat
  ∧ Sheets.frame_at (fst (fst out)) (snd out) = Some table.
Proof.
  intros table c w out.
  destruct (get_sheet_data_serves_valid_entry nat Doubles.no_such_tab
              Numeric.decimal_literal Numeric.float_repr c "Scores"%string w
              (Sheets.Entry 0 900)) as (_ & Hb & _ & _ & Hf).
  - intros k e Hk. subst c w. simpl in *.
    apply lookup_singleton_Some in Hk as [_ <-]. simpl.
    rewrite lookup_singleton_eq. eauto.
  - apply lookup_singleton_eq.
  - reflexivity.
  - split; [exact Hb|]. etransitivity; [exact Hf|].
    apply lookup_singleton_eq.
Defined.

(** X16. An entry as old as the time to live, or older, is never served.
    The call goes to the fetch; its table is what the caller gets and what
    replaces the entry, stamped with the time of the fetch; when the fetch
    fails the caller gets an empty table and the cache is left as it
    was. *)
Theorem get_sheet_data_never_serves_expired_entry :
  ∀ (St : Type) (backend : Sheets.gspread_backend St)
    (to_numeric : string → fval) (float_repr : fval → string)
    (c : Sheets.connector) (sheet_name : string) (w : Sheets.world St)
    (e : Sheets.cache_entry),
    Sheets.cache c !! Sheets._get_cache_key c sheet_name = Some e →
    (Sheets.cache_ttl c <= Sheets.now w - Sheets.timestamp e)%Q →
    let out :=
      Sheets.get_sheet_data backend to_numeric float_repr c sheet_name true w in
    let fetched :=
      Sheets.fetch_fresh backend to_numeric float_repr c sheet_name w in
    match fst (fst fetched) with
    | Ok d =>
        Sheets.frame_at (fst (fst out)) (snd out) = Some d
        ∧ ∃ e',
            Sheets.cache (snd (fst out)) !! Sheets._get_cache_key c sheet_name
            = Some e'
            ∧ Sheets.timestamp e' = Sheets.now (snd fetched)
            ∧ Sheets.frame_at (Sheets.data e') (snd out) = Some d
    | Raise _ =>
        Sheets.frame_at (fst (fst out)) (snd out) = Some empty_frame
        ∧ Sheets.cache (snd (fst out)) = Sheets.cache c
    end.
Proof.
  intros St backend tn fr c sheet_name w e He Hold out fetched.
  destruct (get_sheet_data_miss backend tn fr c sheet_name true w)
    as (_ & _ & Hf & Hc).
  { simpl. unfold Sheets._is_cache_valid. rewrite He. by apply Qltb_false. }
  fold out in Hf, Hc. fold fetched in Hf, Hc.
  destruct (fst (fst fetched)); done.
Qed.

Lemma get_sheet_data_never_serves_expired_entry_witness :
  let stale := Frame [LStr "Name"] [[CStr "Old"]] in
  let c :=
    Sheets.Connector "sheet-id"
      {[ "Scores_None_sheet-id"%string := Sheets.Entry 0 100 ]}
      300 100 1 true in
  let w := Sheets.World 0%nat 400 {[ 0%nat := stale ]} [] in
  let out :=
    Sheets.get_sheet_data
      (Doubles.serving [["Name"]; ["Ann"]]%string)
      Numeric.decimal_literal Numeric.float_repr c "Scores" true w in
  Sheets.frame_at (fst (fst out)) (snd out)
  = Some (Frame [LStr "Name"] [[CStr "Ann"]]).
Proof.
  intros stale c w out.
  pose proof (get_sheet_data_never_serves_expired_entry nat
                (Doubles.serving [["Name"]; ["Ann"]]%string)
                Numeric.decimal_literal Numeric.float_repr c "Scores"%string
                w (Sheets.Entry 0 100)) as H.
  cbv zeta in H.
  assert (Hfetch : fst (fst (Sheets.fetch_fresh
                               (Doubles.serving [["Name"]; ["Ann"]]%string)
                               Numeric.decimal_literal Numeric.float_repr c
                               "Scores"%string w))
                   = Ok (Frame [LStr "Name"] [[CStr "Ann"]]))
    by (vm_compute; reflexivity).
  rewrite Hfetch in H.
  apply H; [apply lookup_singleton_eq|discriminate].
Defined.

(** X17. A read with [use_cache=False] neither consults nor changes the
    cache: even with a valid entry for the sheet, the caller gets what the
    fetch gives (an empty table when it fails) and the cache is as it
    was. *)
Theorem get_sheet_data_without_cache :
  ∀ (St : Type) (backend : Sheets.gspread_backend St)
    (to_numeric : string → fval) (float_repr : fval → string)
    (c : Sheets.connector) (sheet_name : string) (w : Sheets.world St),
    let out :=
      Sheets.get_sheet_data backend to_numeric float_repr c sheet_name false w in
    let fetched :=
      Sheets.fetch_fresh backend to_numeric float_repr c sheet_name w in
    Sheets.cache (snd (fst out)) = Sheets.cache c
    ∧ Sheets.frame_at (fst (fst out)) (snd out)
      = Some (match fst (fst fetched) with
              | Ok d => d
              | Raise _ => empty_frame
              end).
Proof.
  intros St backend tn fr c sheet_name w out fetched.
  destruct (get_sheet_data_miss backend tn fr c sheet_name false w)
    as (_ & _ & Hf & Hc); [done|].
  fold out in Hf, Hc. fold fetched in Hf, Hc.
  split; [|exact Hf]. by destruct (fst (fst fetched)).
Qed.

(** X18. After [refresh_cache] no entry is valid, at any time and for any
    sheet, so the next read goes to the fetch whatever was cached
    before. *)
Theorem refresh_cache_forces_fetch :
  ∀ (St : Type) (backend : Sheets.gspread_backend St)
    (to_numeric : string → fval) (float_repr : fval → string)
    (c : Sheets.connector) (sheet_name : string) (use_cache : bool)
    (w : Sheets.world St),
    let c0 := SheetsMore.refresh_cache c in
    let out :=
      Sheets.get_sheet_data backend to_numeric float_repr c0 sheet_name
        use_cache w in
    let fetched :=
      Sheets.fetch_fresh backend to_numeric float_repr c0 sheet_name w in
    (∀ k, Sheets._is_cache_valid c0 k w = false)
    ∧ Sheets.backend_state (snd out) = Sheets.backend_state (snd fetched)
    ∧ Sheets.frame_at (fst (fst out)) (snd out)
      = Some (match fst (fst fetched) with
              | Ok d => d
              | Raise _ => empty_frame
              end).
Proof.
  intros St backend tn fr c sheet_name use_cache w c0 out fetched.
  assert (Hnone : ∀ k, Sheets._is_cache_valid c0 k w = false).
  { intros k. unfold Sheets._is_cache_valid. subst c0. simpl.
    by rewrite lookup_empty. }
  split; [exact Hnone|].
  destruct (get_sheet_data_miss backend tn fr c0 sheet_name use_cache w)
    as (Hb & _ & Hf & _).
  { rewrite Hnone. apply andb_false_r. }
  split; [exact Hb|exact Hf].
Qed.

(** ** Loading all sheets; the shape of a cleaned table *)

Section AllSheetsFacts.

Import Sheets SheetsMore.

Context {St : Type}.
Variable backend : gspread_backend St.
Variable to_numeric : string -> fval.
Variable float_repr : fval -> string.

Local Abbreviation get_sheet_data :=
  (get_sheet_data backend to_numeric float_repr).
Local Abbreviation load_sheet := (load_sheet backend to_numeric float_repr).

(** Objects are never removed from the store, nor overwritten. *)
Lemma get_sheet_data_keeps_store c sheet_name use_cache (w : world St) l d :
  heap w !! l = Some d →
  heap (snd (get_sheet_data c sheet_name use_cache w)) !! l = Some d.
Proof.
  intros Hl. unfold Sheets.get_sheet_data. cbv zeta.
  assert (Hfresh : ∀ (h : gmap loc DataFrame), h !! l = Some d →
                     l ≠ fresh (dom h)).
  { intros h Hh Heq. pose proof (is_fresh (dom h)) as Hf.
    apply Hf. rewrite <- Heq. apply elem_of_dom. eauto. }
  destruct (use_cache && _is_cache_valid c (_get_cache_key c sheet_name) w).
  - rewrite alloc_eq. simpl. rewrite lookup_insert_ne; [done|].
    intros Heq. by apply (Hfresh (heap w)).
  - pose proof (fetch_fresh_heap backend to_numeric float_repr c sheet_name w)
      as Hheap.
    destruct (Sheets.fetch_fresh backend to_numeric float_repr c sheet_name w)
      as [[r c1] w1].
    simpl in Hheap. rewrite <- Hheap in Hl.
    destruct r as [d0|e].
    + rewrite alloc_eq. destruct use_cache.
      * rewrite alloc_eq. simpl.
        assert (H1 : <[fresh (dom (heap w1)) := d0]> (heap w1) !! l = Some d).
        { rewrite lookup_insert_ne; [done|].
          intros Heq. by apply (Hfresh (heap w1)). }
        rewrite lookup_insert_ne; [done|].
        intros Heq. by apply (Hfresh _ H1).
      * simpl. rewrite lookup_insert_ne; [done|].
        intros Heq. by apply (Hfresh (heap w1)).
    + rewrite alloc_eq. simpl. rewrite lookup_insert_ne; [done|].
      intros Heq. by apply (Hfresh (heap w1)).
Qed.

Lemma load_sheets_spec names :
  ∀ all_data c (w : world St),
    cache_backed c w →
    (∀ k l, all_data !! k = Some l → is_Some (heap w !! l)) →
    let out := foldl load_sheet (all_data, c, w) names in
    dom (fst (fst out)) = dom all_data ∪ list_to_set names
    ∧ cache_backed (snd (fst out)) (snd out)
    ∧ ∀ k l, fst (fst out) !! k = Some l → is_Some (heap (snd out) !! l).
Proof.
  induction names as [|name names IH]; intros all_data c w Hwf Hheld.
  - cbv zeta. split; [|done]. cbn [foldl fst].
    by rewrite list_to_set_nil, (right_id_L ∅ (∪)).
  - simpl foldl.
    destruct (get_sheet_data_fresh backend to_numeric float_repr c name true w
                Hwf) as (_ & Hsome & _ & Hwf1).
    pose proof (get_sheet_data_keeps_store c name true w) as Hkeep.
    change (load_sheet (all_data, c, w) name)
      with (let '(l, c', w') := get_sheet_data c name true w in
            (<[name := l]> all_data, c', w')).
    destruct (get_sheet_data c name true w) as [[l c1] w1].
    simpl in Hsome, Hwf1, Hkeep.
    destruct (IH (<[name := l]> all_data) c1 w1 Hwf1) as (Hdom & Hwf' & Hheld').
    { intros k l' Hk. apply lookup_insert_Some in Hk as [[_ <-]|[_ Hk]].
      - exact Hsome.
      - destruct (Hheld k l' Hk) as [d Hd]. exists d. by apply Hkeep. }
    split; [|done].
    rewrite Hdom, dom_insert_L, list_to_set_cons.
    rewrite (comm_L (∪) {[name]} (dom all_data)).
    by rewrite (assoc_L (∪)).
Qed.

End AllSheetsFacts.

(** X19. [get_all_sheets] always comes back with exactly the four keys
    Dataset, Patient Count, Utilization and August, each bound to a frame
    that exists in the store, whatever the remote does; and the cache is
    still backed by the store afterwards. *)
Theorem get_all_sheets_has_four_frames :
  ∀ (St : Type) (backend : Sheets.gspread_backend St)
    (to_numeric : string → fval) (float_repr : fval → string)
    (c : Sheets.connector) (w : Sheets.world St),
    Sheets.cache_backed c w →
    let out := SheetsMore.get_all_sheets backend to_numeric float_repr c w in
    dom (fst (fst out))
    = ({[ "Dataset"; "Patient Count"; "Utilization"; "August" ]}%string
       : gset string)
    ∧ (∀ k l, fst (fst out) !! k = Some l →
              is_Some (Sheets.frame_at l (snd out)))
    ∧ Sheets.cache_backed (snd (fst out)) (snd out).
Proof.
  intros St backend tn fr c w Hwf out. subst out.
  unfold SheetsMore.get_all_sheets.
  destruct (load_sheets_spec backend tn fr SheetsMore.sheets_to_load ∅ c w Hwf)
    as (Hdom & Hwf' & Hheld).
  { intros k l Hk. by rewrite lookup_empty in Hk. }
  split; [|split; [exact Hheld|exact Hwf']].
  rewrite Hdom, dom_empty_L, (left_id_L ∅ (∪)).
  unfold SheetsMore.sheets_to_load.
  rewrite !list_to_set_cons, list_to_set_nil, (right_id_L ∅ (∪)).
  by rewrite !(assoc_L (∪)).
Qed.

Lemma get_all_sheets_has_four_frames_witness :
  let out :=
    SheetsMore.get_all_sheets Doubles.no_such_tab Numeric.decimal_literal
      Numeric.float_repr (Sheets.new_connector "sheet-id" true)
      Doubles.empty_store in
  dom (fst (fst out))
  = ({[ "Dataset"; "Patient Count"; "Utilization"; "August" ]}%string
     : gset string).
Proof.
  apply (get_all_sheets_has_four_frames nat Doubles.no_such_tab
           Numeric.decimal_literal Numeric.float_repr
           (Sheets.new_connector "sheet-id" true) Doubles.empty_store).
  intros k e Hk. simpl in Hk. rewrite lookup_empty in Hk. discriminate.
Defined.

Section ShapeFacts.

Import Sheets.

Variable to_numeric : string -> fval.
Variable float_repr : fval -> string.

Local Abbreviation clean_column := (clean_column to_numeric float_repr).

Lemma select_map_filter {A} (p : A → bool) (xs : list A) :
  select (map p xs) xs = filter (fun x => p x = true) xs.
Proof.
  induction xs as [|x xs IH]; [done|]. simpl. rewrite filter_cons.
  destruct (p x); simpl; by rewrite IH.
Qed.

Lemma length_select {A B} (keep : list bool) :
  ∀ (xs : list A) (ys : list B),
    length xs = length ys →
    length (select keep xs) = length (select keep ys).
Proof.
  induction keep as [|k keep IH]; intros [|x xs] [|y ys] Hlen;
    simpl in *; try done.
  injection Hlen as Hlen. destruct k; simpl; rewrite (IH xs ys); done.
Qed.

Lemma clean_column_shape col d :
  columns (clean_column col d) = columns d
  ∧ length (rows (clean_column col d)) = length (rows d)
  ∧ (rectangular d → rectangular (clean_column col d)).
Proof.
  destruct (clean_column_cases to_numeric float_repr col d)
    as [->|(j & _ & _ & ->)]; [done|].
  assert (Hlen : length (map (fun v => CNum (clean_cell to_numeric float_repr v))
                          (column_at j d)) = length (rows d))
    by (by rewrite length_map, length_column_at).
  split; [done|]. split.
  - by apply length_rows_set_column_at.
  - intros Hrect. by apply rectangular_set_column_at.
Qed.

Lemma fold_clean_column_shape cols :
  ∀ d,
    let d' := foldl (fun acc col => clean_column col acc) d cols in
    columns d' = columns d
    ∧ length (rows d') = length (rows d)
    ∧ (rectangular d → rectangular d').
Proof.
  induction cols as [|col cols IH]; intros d; [done|].
  simpl. destruct (clean_column_shape col d) as (Hc & Hr & Hrect).
  destruct (IH (clean_column col d)) as (Hc' & Hr' & Hrect').
  cbv zeta in Hc', Hr', Hrect'.
  rewrite Hc', Hr', Hc, Hr. repeat split. auto.
Qed.

Lemma drop_unnamed_rectangular d :
  rectangular d → rectangular (drop_unnamed d).
Proof.
  intros Hrect. unfold drop_unnamed.
  destruct (existsb label_is_str (columns d)); [|done].
  unfold rectangular. simpl.
  apply List.Forall_forall. intros r Hr.
  apply in_map_iff in Hr as (r0 & <- & Hr0).
  apply length_select.
  unfold rectangular in Hrect. rewrite List.Forall_forall in Hrect.
  by apply Hrect.
Qed.

(** Without a text label nothing starts with [Unnamed]. *)
Lemma no_text_label_no_unnamed (ls : list label) :
  existsb label_is_str ls = false →
  filter (fun l => label_unnamed l = false) ls = ls.
Proof.
  induction ls as [|l ls IH]; [done|]. simpl. intros Hex.
  apply orb_false_iff in Hex as [Hl Hex].
  rewrite filter_cons. destruct l as [s|i]; [discriminate|]. simpl.
  by rewrite IH.
Qed.

Lemma drop_unnamed_columns d :
  columns (drop_unnamed d)
  = filter (fun l => label_unnamed l = false) (columns d).
Proof.
  unfold drop_unnamed.
  destruct (existsb label_is_str (columns d)) eqn:Hex.
  - simpl. rewrite select_map_filter.
    apply list_filter_iff. intros l. by rewrite negb_true_iff.
  - by rewrite no_text_label_no_unnamed.
Qed.

Lemma drop_unnamed_rows d :
  length (rows (drop_unnamed d)) = length (rows d).
Proof.
  unfold drop_unnamed.
  destruct (existsb label_is_str (columns d)); [|done].
  simpl. by rewrite length_map.
Qed.

Lemma dropna_all_rectangular d : rectangular d → rectangular (dropna_all d).
Proof.
  unfold rectangular, dropna_all. simpl. intros Hrect.
  induction Hrect as [|r rs Hr Hrect IH]; [constructor|].
  rewrite filter_cons. destruct (decide (forallb isna r = false));
    [by constructor|done].
Qed.

End ShapeFacts.

(** X20. The cleaner only takes away.  An empty table is returned as it
    is.  Otherwise the labels of the result are the labels of the input
    without those that are text starting with [Unnamed], in the same order;
    the result has one row for every input row that is not missing in every
    cell; and a rectangular table stays rectangular. *)
Theorem clean_dataframe_shape :
  ∀ (to_numeric : string → fval) (float_repr : fval → string)
    (d : DataFrame),
    let d' := Sheets._clean_dataframe to_numeric float_repr d in
    (df_empty d = true → d' = d)
    ∧ (df_empty d = false →
       columns d'
       = filter (fun l => match l with
                          | LStr s => String.prefix "Unnamed" s
                          | LInt _ => false
                          end = false)
           (columns d)
       ∧ length (rows d')
         = length (filter (fun r => forallb isna r = false) (rows d))
       ∧ (rectangular d → rectangular d')).
Proof.
  intros tn fr d d'. subst d'. unfold Sheets._clean_dataframe.
  destruct (df_empty d); [split; [done|discriminate]|].
  split; [discriminate|]. intros _.
  unfold Sheets.convert_columns.
  destruct (fold_clean_column_shape tn fr
              (columns (Sheets.drop_unnamed (Sheets.dropna_all d)))
              (Sheets.drop_unnamed (Sheets.dropna_all d)))
    as (Hc & Hr & Hrect).
  cbv zeta in Hc, Hr, Hrect. rewrite Hc, Hr.
  split; [|split].
  - rewrite drop_unnamed_columns. simpl.
    apply list_filter_iff. by intros [s|i].
  - by rewrite drop_unnamed_rows.
  - intros Hd. apply Hrect.
    by apply drop_unnamed_rectangular, dropna_all_rectangular.
Qed.

Lemma clean_dataframe_shape_witness :
  let d := Frame [LStr "Name"; LStr "Unnamed: 1"; LInt 2; LStr "Score"]
             [[CStr "Ann"; CStr "x"; CStr "7"; CStr "95"];
              [CNone; CNone; CNone; CNone];
              [CStr "Bo"; CStr "y"; CStr "8"; CStr ""]] in
  let d' := Sheets._clean_dataframe Numeric.decimal_literal
              Numeric.float_repr d in
  columns d' = [LStr "Name"; LInt 2; LStr "Score"]
  ∧ length (rows d') = 2
  ∧ rectangular d'.
Proof.
  intros d d'.
  destruct (clean_dataframe_shape Numeric.decimal_literal Numeric.float_repr d)
    as [_ Hshape].
  destruct Hshape as (Hc & Hr & Hrect); [reflexivity|].
  split; [exact Hc|]. split; [exact Hr|].
  apply Hrect. repeat constructor.
Defined.

(** ** The categorisers *)

Section CategoryFacts.

Import ProcessorMore.

Ltac split_thresholds :=
  repeat match goal with
         | |- context [Qle_bool ?q ?a] =>
             let E := fresh "E" in destruct (Qle_bool q a) eqn:E
         end.

Ltac thresholds_to_order :=
  repeat match goal with
         | H : Qle_bool _ _ = true |- _ => apply Qle_bool_iff in H
         | H : Qle_bool _ _ = false |- _ =>
             apply not_true_iff_false in H; rewrite Qle_bool_iff in H;
             apply Qnot_le_lt in H
         end.

Ltac ladder_monotone :=
  intros x y Hx Hy Hle;
  destruct x as [a|[]|], y as [b|[]|]; try discriminate;
  unfold tier_of; simpl; simpl in Hle;
  split_thresholds; simpl; try lia;
  exfalso; thresholds_to_order; lra.

Lemma performance_monotone x y :
  is_nan x = false → is_nan y = false → Processor.fval_leb x y = true →
  tier_of _categorize_performance performance_tiers x
  ≤ tier_of _categorize_performance performance_tiers y.
Proof. revert x y. ladder_monotone. Qed.

Lemma workload_monotone x y :
  is_nan x = false → is_nan y = false → Processor.fval_leb x y = true →
  tier_of _categorize_workload workload_tiers x
  ≤ tier_of _categorize_workload workload_tiers y.
Proof. revert x y. ladder_monotone. Qed.

Lemma experience_monotone x y :
  is_nan x = false → is_nan y = false → Processor.fval_leb x y = true →
  tier_of _categorize_experience experience_tiers x
  ≤ tier_of _categorize_experience experience_tiers y.
Proof. revert x y. ladder_monotone. Qed.

Lemma rating_monotone x y :
  is_nan x = false → is_nan y = false → Processor.fval_leb x y = true →
  tier_of _categorize_rating rating_tiers x
  ≤ tier_of _categorize_rating rating_tiers y.
Proof. revert x y. ladder_monotone. Qed.

Lemma categorize_unknown (ladder : fval → string) x :
  (∀ v, ladder v ≠ "Unknown"%string) →
  categorize ladder x = Ok "Unknown"%string ↔ isna x = true.
Proof.
  intros Hl. destruct x as [s|v|]; simpl; [done| |done].
  destruct v as [q|b|]; simpl; [| |done].
  - split; [|done]. intros [= H]. by apply Hl in H.
  - split; [|done]. intros [= H]. by apply Hl in H.
Qed.

End CategoryFacts.

(** X21. The four tier ladders are monotone: of two numbers, the larger
    never falls in a lower tier of performance, workload, experience or
    rating.  A cell is ['Unknown'] exactly when it is missing, and a text
    cell makes the categoriser raise [TypeError]. *)
Theorem categories_monotone :
  (∀ x y,
     is_nan x = false → is_nan y = false → Processor.fval_leb x y = true →
     ProcessorMore.tier_of ProcessorMore._categorize_performance
       ProcessorMore.performance_tiers x
     ≤ ProcessorMore.tier_of ProcessorMore._categorize_performance
         ProcessorMore.performance_tiers y
     ∧ ProcessorMore.tier_of ProcessorMore._categorize_workload
         ProcessorMore.workload_tiers x
       ≤ ProcessorMore.tier_of ProcessorMore._categorize_workload
           ProcessorMore.workload_tiers y
     ∧ ProcessorMore.tier_of ProcessorMore._categorize_experience
         ProcessorMore.experience_tiers x
       ≤ ProcessorMore.tier_of ProcessorMore._categorize_experience
           ProcessorMore.experience_tiers y
     ∧ ProcessorMore.tier_of ProcessorMore._categorize_rating
         ProcessorMore.rating_tiers x
       ≤ ProcessorMore.tier_of ProcessorMore._categorize_rating
           ProcessorMore.rating_tiers y)
  ∧ (∀ x,
       (ProcessorMore._categorize_performance x = Ok "Unknown"%string
        ↔ isna x = true)
       ∧ (ProcessorMore._categorize_workload x = Ok "Unknown"%string
          ↔ isna x = true)
       ∧ (ProcessorMore._categorize_experience x = Ok "Unknown"%string
          ↔ isna x = true)
       ∧ (ProcessorMore._categorize_rating x = Ok "Unknown"%string
          ↔ isna x = true)
       ∧ (ProcessorMore._categorize_time x = Ok "Unknown"%string
          ↔ isna x = true))
  ∧ (∀ s,
       is_ok (ProcessorMore._categorize_performance (CStr s)) = false
       ∧ is_ok (ProcessorMore._categorize_experience (CStr s)) = false).
Proof.
  split; [|split].
  - intros x y Hx Hy Hle.
    split; [by apply performance_monotone|].
    split; [by apply workload_monotone|].
    split; [by apply experience_monotone|by apply rating_monotone].
  - intros x.
    repeat split;
      try (apply categorize_unknown; intros v;
           repeat match goal with
                  | |- context [if ?b then _ else _] => destruct b
                  end; discriminate);
      try (apply categorize_unknown; intros v;
           repeat match goal with
                  | |- context [if ?b then _ else _] => destruct b
                  end; discriminate).
  - intros s. done.
Qed.

Lemma categories_monotone_witness :
  ProcessorMore.tier_of ProcessorMore._categorize_performance
    ProcessorMore.performance_tiers (FNum (899 # 10))
  ≤ ProcessorMore.tier_of ProcessorMore._categorize_performance
      ProcessorMore.performance_tiers (FNum 90).
Proof.
  destruct categories_monotone as (Hmono & _ & _).
  destruct (Hmono (FNum (899 # 10)) (FNum 90)) as [Hperf _]; [done|done|done|].
  exact Hperf.
Defined.

(** ** One record per provider *)

Section ProviderFacts.

Import Processor.

Lemma fval_eqb_sym a b : fval_eqb a b = fval_eqb b a.
Proof.
  destruct a as [p|[]|], b as [q|[]|]; simpl; try done.
  destruct (Qeq_bool p q) eqn:Hpq.
  - symmetry. apply Qeq_bool_iff. symmetry. by apply Qeq_bool_iff.
  - symmetry. apply not_true_iff_false. intros H.
    apply Qeq_bool_iff in H. symmetry in H. apply Qeq_bool_iff in H.
    congruence.
Qed.

Lemma fval_eqb_trans a b c :
  fval_eqb a b = true → fval_eqb b c = true → fval_eqb a c = true.
Proof.
  destruct a as [p|[]|], b as [q|[]|], c as [r|[]|]; simpl; try done.
  rewrite !Qeq_bool_iff. intros -> ->. reflexivity.
Qed.

Lemma cell_eqb_sym a b : cell_eqb a b = cell_eqb b a.
Proof.
  destruct a as [s|x|], b as [t|y|]; simpl; try done.
  - apply String.eqb_sym.
  - apply fval_eqb_sym.
Qed.

Lemma cell_eqb_trans a b c :
  cell_eqb a b = true → cell_eqb b c = true → cell_eqb a c = true.
Proof.
  destruct a as [s|x|], b as [t|y|], c as [u|z|]; simpl; try done.
  - rewrite !String.eqb_eq. congruence.
  - apply fval_eqb_trans.
Qed.

Lemma cell_eqb_refl a : isna a = false → cell_eqb a a = true.
Proof.
  destruct a as [s|[q|[]|]|]; simpl; try done.
  - intros _. apply String.eqb_refl.
  - intros _. apply Qeq_bool_iff. reflexivity.
Qed.

Local Abbreviation occurrences k l :=
  (length (filter (fun x => cell_eqb x k = true) l)).

Lemma existsb_seen_trans seen k k' :
  existsb (fun s => cell_eqb s k) seen = true →
  cell_eqb k' k = true →
  existsb (cell_eqb k') seen = true.
Proof.
  rewrite !existsb_exists. intros (s & Hs & Hsk) Hk'.
  exists s. split; [done|].
  apply (cell_eqb_trans k' k s); [done|]. by rewrite cell_eqb_sym.
Qed.

Lemma distinct_keys_once ks :
  ∀ seen k,
    occurrences k (distinct_keys seen ks) ≤ 1
    ∧ (existsb (fun s => cell_eqb s k) seen = true →
       occurrences k (distinct_keys seen ks) = 0).
Proof.
  induction ks as [|k' ks IH]; intros seen k; [simpl; split; [lia|done]|].
  simpl. destruct (isna k' || existsb (cell_eqb k') seen) eqn:Hskip.
  - apply IH.
  - apply orb_false_iff in Hskip as [_ Hnew].
    rewrite filter_cons.
    destruct (IH (k' :: seen) k) as [Hle Hzero].
    destruct (decide (cell_eqb k' k = true)) as [Heq|Hne].
    + simpl. rewrite Hzero by (simpl; by rewrite Heq).
      split; [lia|]. intros Hseen.
      rewrite (existsb_seen_trans seen k k' Hseen Heq) in Hnew. discriminate.
    + split; [exact Hle|]. intros Hseen. apply Hzero.
      simpl. by rewrite Hseen, orb_true_r.
Qed.

Lemma distinct_keys_present ks :
  ∀ seen k,
    k ∈ ks → isna k = false →
    existsb (fun s => cell_eqb s k) seen = true
    ∨ 1 ≤ occurrences k (distinct_keys seen ks).
Proof.
  induction ks as [|k' ks IH]; intros seen k Hin Hna.
  - by apply not_elem_of_nil in Hin.
  - simpl. destruct (isna k' || existsb (cell_eqb k') seen) eqn:Hskip.
    + apply elem_of_cons in Hin as [->|Hin]; [|by apply IH].
      rewrite Hna in Hskip. simpl in Hskip. left.
      apply existsb_exists in Hskip as (s & Hs & Hks).
      apply existsb_exists. exists s. split; [done|].
      by rewrite cell_eqb_sym.
    + rewrite filter_cons.
      destruct (decide (cell_eqb k' k = true)) as [Heq|Hne];
        [right; simpl; lia|].
      apply elem_of_cons in Hin as [->|Hin].
      { exfalso. apply Hne. by apply cell_eqb_refl. }
      destruct (IH (k' :: seen) k Hin Hna) as [Hseen|Hocc]; [|by right].
      simpl in Hseen. apply orb_true_iff in Hseen as [H|H]; [done|by left].
Qed.

Lemma occurrences_Permutation k (l1 l2 : list cell) :
  l1 ≡ₚ l2 → occurrences k l1 = occurrences k l2.
Proof. intros Hp. by rewrite Hp. Qed.

Variable fsqrt : Q -> Q.

(** Each provider that occurs gets exactly one record; no record is made
    for a missing provider. *)
Lemma provider_rows_once keys counts durations k :
  length (filter (fun p => cell_eqb (Provider p) k = true)
            (provider_rows fsqrt keys counts durations)) ≤ 1
  ∧ (k ∈ keys → isna k = false →
     length (filter (fun p => cell_eqb (Provider p) k = true)
               (provider_rows fsqrt keys counts durations)) = 1).
Proof.
  assert (Hmap : ∀ ks,
            length (filter (fun p => cell_eqb (Provider p) k = true)
                      (map (fun k0 =>
                              stats_row fsqrt k0 (group_values k0 keys counts)
                                (group_values k0 keys durations)) ks))
            = occurrences k ks).
  { induction ks as [|k0 ks IH]; [done|]. simpl.
    rewrite !filter_cons. simpl.
    destruct (decide (cell_eqb k0 k = true)); simpl; by rewrite IH. }
  unfold provider_rows. rewrite Hmap.
  rewrite (occurrences_Permutation k _ _
             (merge_sort_Permutation key_le (distinct_keys [] keys))).
  destruct (distinct_keys_once keys [] k) as [Hle _].
  split; [exact Hle|]. intros Hin Hna.
  destruct (distinct_keys_present keys [] k Hin Hna) as [H|H];
    [discriminate|lia].
Qed.

End ProviderFacts.

(** X22. The provider statistics hold at most one record per provider,
    and exactly one for every provider that occurs in the sheet with a
    label that is not missing. *)
Theorem provider_stats_one_record_each :
  ∀ (fsqrt : Q → Q) (keys : list cell) (counts durations : list fval)
    (k : cell),
    length (filter (fun p => Processor.cell_eqb (Processor.Provider p) k = true)
              (Processor.provider_rows fsqrt keys counts durations)) ≤ 1
    ∧ (k ∈ keys → isna k = false →
       length (filter
                 (fun p => Processor.cell_eqb (Processor.Provider p) k = true)
                 (Processor.provider_rows fsqrt keys counts durations)) = 1).
Proof. intros. apply provider_rows_once. Qed.

Lemma provider_stats_one_record_each_witness :
  length (filter
            (fun p => Processor.cell_eqb (Processor.Provider p) (CStr "Dr A")
                      = true)
            (Processor.provider_rows Numeric.sqrt_6dp
               [CStr "Dr A"; CStr "Dr B"; CStr "Dr A"]
               [FNum 10; FNum 20; FNum 30] [FNum 1; FNum 2; FNum 3])) = 1.
Proof.
  destruct (provider_stats_one_record_each Numeric.sqrt_6dp
              [CStr "Dr A"; CStr "Dr B"; CStr "Dr A"]
              [FNum 10; FNum 20; FNum 30] [FNum 1; FNum 2; FNum 3]
              (CStr "Dr A")) as [_ Hone].
  apply Hone; [|reflexivity].
  apply list_elem_of_In. simpl. by left.
Defined.




(** X24. A Patient Count sheet with rows but without a column named
    [Patient Count] stops the constructor half way: [KeyError] is raised
    inside, swallowed, and the processor is left without providers,
    sessions and metrics.  The team comparison is then empty and the
    summary has no entry, whatever the roster holds. *)
Theorem constructor_stops_without_patient_count_column :
  ∀ fsqrt to_numeric enrich_scribes _process_session_data scribe_metrics
    session_metrics provider_metrics
    (raw_data : gmap string DataFrame) (d : DataFrame),
    raw_data !! "Patient Count"%string = Some d →
    df_empty d = false →
    positions (LStr "Patient Count") d = [] →
    let pd :=
      Processor._process_all_data fsqrt to_numeric enrich_scribes
        _process_session_data scribe_metrics session_metrics
        provider_metrics raw_data in
    Processor.providers pd = None
    ∧ Processor.sessions pd = None
    ∧ Processor.metrics pd = None
    ∧ Processor.get_team_comparison pd = ∅
    ∧ ProcessorMore.get_summary_stats pd = Processor.Metrics ∅ None.
Proof.
  intros fsqrt tn enrich ps sm sem pm raw d Hraw Hne Hpos pd. subst pd.
  assert (Hprov : Processor._process_provider_data fsqrt tn raw
                  = Raise (KeyError "Patient Count")).
  { unfold Processor._process_provider_data. rewrite Hraw, Hne.
    unfold Processor.series_of. by rewrite Hpos. }
  unfold Processor._process_all_data. rewrite Hprov.
  by destruct (Processor._process_scribe_data enrich raw).
Qed.

Lemma constructor_stops_without_patient_count_column_witness :
  let raw : gmap string DataFrame :=
    {[ "Patient Count"%string :=
         Frame [LStr "Provider"; LStr "Jan"] [[CStr "Dr A"; CStr "12"]] ]} in
  Processor.metrics
    (Processor._process_all_data Numeric.sqrt_6dp Numeric.decimal_literal
       (fun d => Ok d) (fun _ => Ok empty_frame)
       (fun _ => Ok (∅, ∅)) (fun _ => Ok ∅) (fun _ => Ok ∅) raw)
  = None.
Proof.
  intros raw.
  apply (constructor_stops_without_patient_count_column Numeric.sqrt_6dp
           Numeric.decimal_literal (fun d => Ok d) (fun _ => Ok empty_frame)
           (fun _ => Ok (∅, ∅)) (fun _ => Ok ∅) (fun _ => Ok ∅) raw
           (Frame [LStr "Provider"; LStr "Jan"] [[CStr "Dr A"; CStr "12"]])).
  - apply lookup_singleton_eq.
  - reflexivity.
  - reflexivity.
Defined.

Section SessionFacts.

Variable to_datetime_hm : cell → res (option Q).

(** The reader gives a time of day. *)
Hypothesis time_of_day :
  ∀ x t, to_datetime_hm x = Ok (Some t) → (0 <= t)%Q ∧ (t < 86400)%Q.

Lemma session_duration_range start finish :
  ProcessorMore.session_duration to_datetime_hm start finish = FNaN
  ∨ ∃ q, ProcessorMore.session_duration to_datetime_hm start finish = FNum q
         ∧ (0 <= q)%Q ∧ (q < 24)%Q.
Proof using time_of_day.
  unfold ProcessorMore.session_duration.
  destruct (to_datetime_hm start) as [[s|]|] eqn:Hs; [|by left..].
  destruct (to_datetime_hm finish) as [[e|]|] eqn:He; [|by left..].
  destruct (time_of_day _ _ Hs) as [Hs0 Hs1].
  destruct (time_of_day _ _ He) as [He0 He1].
  right. unfold fnum. eexists. split; [reflexivity|].
  rewrite Qred_correct.
  destruct (Sheets.Qltb e s) eqn:Hlt.
  - apply Qltb_true in Hlt. split.
    + apply Qle_shift_div_l; [reflexivity|]. lra.
    + apply Qlt_shift_div_r; [reflexivity|]. lra.
  - apply Qltb_false in Hlt. split.
    + apply Qle_shift_div_l; [reflexivity|]. lra.
    + apply Qlt_shift_div_r; [reflexivity|]. lra.
Qed.

End SessionFacts.

(** X25. Session durations: one entry per pair of start and end, as many
    as the shorter of the two series; an entry is NaN or a number of hours
    from 0 up to, but not reaching, 24, since an end before the start is
    moved to the next day. *)
Theorem session_durations_within_a_day :
  ∀ (to_datetime_hm : cell → res (option Q)),
    (∀ x t, to_datetime_hm x = Ok (Some t) → (0 <= t)%Q ∧ (t < 86400)%Q) →
    ∀ start_times end_times : list cell,
      length (ProcessorMore._calculate_session_duration to_datetime_hm
                start_times end_times)
      = min (length start_times) (length end_times)
      ∧ Forall (fun v => v = FNaN
                         ∨ ∃ q, v = FNum q ∧ (0 <= q)%Q ∧ (q < 24)%Q)
          (ProcessorMore._calculate_session_duration to_datetime_hm
             start_times end_times).
Proof.
  intros parse Hday starts ends.
  unfold ProcessorMore._calculate_session_duration. split.
  - rewrite length_map. apply length_zip_with.
  - apply List.Forall_forall. intros v Hv.
    apply in_map_iff in Hv as ([s e] & <- & _). simpl.
    by apply session_duration_range.
Qed.

Lemma read_hh_mm_time_of_day x t :
  ProcessorMore.read_hh_mm x = Ok (Some t) → (0 <= t)%Q ∧ (t < 86400)%Q.
Proof.
  unfold ProcessorMore.read_hh_mm.
  destruct x as [s| |]; [|discriminate..].
  destruct (list_ascii_of_string s) as [|h1 [|h2 [|sep [|m1 [|m2 [|]]]]]];
    try discriminate.
  destruct (digit_val h1) as [a|] eqn:Ha; [|discriminate].
  destruct (digit_val h2) as [b|] eqn:Hb; [|discriminate].
  destruct (digit_val m1) as [c|] eqn:Hc; [|discriminate].
  destruct (digit_val m2) as [d|] eqn:Hd; [|discriminate].
  cbv zeta.
  destruct (Ascii.eqb sep ":" && (10 * a + b <? 24)%Z && (10 * c + d <? 60)%Z)
    eqn:Hok; [|discriminate].
  intros [= <-].
  apply andb_prop in Hok as [Hok Hm]. apply andb_prop in Hok as [_ Hh].
  apply Z.ltb_lt in Hm, Hh.
  assert (0 <= a ∧ 0 <= b ∧ 0 <= c ∧ 0 <= d)%Z as (? & ? & ? & ?).
  { unfold digit_val in *.
    repeat split;
      match goal with
      | H : (if ?g then _ else _) = Some ?v |- (0 <= ?v)%Z =>
          destruct g; [injection H as <-; lia|discriminate]
      end. }
  split.
  - change 0%Q with (inject_Z 0). rewrite <- Zle_Qle. lia.
  - change 86400%Q with (inject_Z 86400). rewrite <- Zlt_Qlt. lia.
Qed.

Lemma session_durations_within_a_day_witness :
  Forall (fun v => v = FNaN ∨ ∃ q, v = FNum q ∧ (0 <= q)%Q ∧ (q < 24)%Q)
    (ProcessorMore._calculate_session_duration ProcessorMore.read_hh_mm
       [CStr "22:30"; CStr "09:00"; CStr "soon"]
       [CStr "01:15"; CStr "17:45"; CStr "10:00"]).
Proof.
  apply (session_durations_within_a_day ProcessorMore.read_hh_mm
           read_hh_mm_time_of_day
           [CStr "22:30"; CStr "09:00"; CStr "soon"]
           [CStr "01:15"; CStr "17:45"; CStr "10:00"]).
Defined.

(** X26. The session table is built from the monthly sheets that are
    present and not empty: none of them gives the empty table, otherwise
    they are concatenated.  The second look at the August sheet, taken when
    the list is empty, never finds one, because August is the first sheet
    of the list. *)
Theorem process_session_data_august_fallback_dead :
  ∀ (pd_concat : list DataFrame → res DataFrame)
    (_process_monthly_data : DataFrame → res DataFrame)
    (set_month : string → DataFrame → DataFrame)
    (raw_data : gmap string DataFrame),
    ProcessorMore._process_session_data pd_concat _process_monthly_data
      set_month raw_data
    = match ProcessorMore.all_sessions set_month raw_data with
      | [] => Ok empty_frame
      | frames =>
          match pd_concat frames with
          | Ok d => _process_monthly_data d
          | Raise e => Raise e
          end
      end.
Proof.
  intros cat pm sm raw. unfold ProcessorMore._process_session_data.
  destruct (ProcessorMore.all_sessions sm raw) as [|f fs] eqn:Hall; [|done].
  unfold ProcessorMore.all_sessions, ProcessorMore.monthly_sheets in Hall.
  simpl in Hall.
  destruct (raw !! "August"%string) as [d|]; [|done].
  destruct (df_empty d); [done|discriminate].
Qed.

(** ** Exceptions of the backoff itself *)

Section BackoffFacts.

Import Google.

Context {St A : Type}.
Implicit Types (fn : operation St A) (w : world St).



End BackoffFacts.


